(** * LyricaV2: fetch orchestration, result validation and response cache

  A shallow embedding of [src/validator.py], [src/fetch_controller.py],
  [src/cache.py], [src/sentiment_analyzer.py] and the [/lyrics/] route of
  [src/router.py], with the properties of the orchestration contract
  stated over it.

  Conventions of the model.
  - Text is ASCII: a Python [str] is a Rocq [string] whose characters are
    code points below 128.  On such text the character classes used here
    coincide with the ones of Python's [re] and [str] methods.
  - A finite Python float is the rational number ([Q]) that it is worth;
    [time()] is such a number.  A quotient is kept exact where the program
    only compares it with a float, which orders it as its nearest float
    is ordered, and is replaced by its nearest float where the program
    rounds it for display ([round3]).  The floats [nan], [inf] and [-inf]
    are values of their own ([VSpecial]).
  - A Python object that travels through dictionaries and JSON is a
    [value]; a dictionary keeps its items in insertion order.
  - An exception raised by a function is an explicit [Raise] result.
  - What the program takes from outside is a parameter of the model: the
    provider adapters and the order in which the event loop reports tasks
    ([world]), the file system ([disk]), TextBlob ([TextBlob]), the
    metadata services and the time limit of [run_async] ([server]).  The
    log and the record of queries kept for the trending statistics, which
    no response depends on, are left out. *)

From Stdlib Require Import ZArith QArith Qabs Lqa Lia Bool List Ascii String.
From Stdlib Require Import Sorted Permutation.
From Stdlib Require Import DecimalString.
From stdpp Require Import base option list strings gmap.
Import ListNotations.

Set Warnings "-register-all".

Local Open Scope string_scope.
Local Open Scope Z_scope.

(* ================================================================== *)
(** * Python text primitives *)
(* ================================================================== *)

Module Text.

Definition code (c : ascii) : nat := nat_of_ascii c.

(** [\s] of [re] on [str] patterns, which is also [str.isspace]:
    TAB, LF, VT, FF, CR, the separators 0x1c-0x1f and the blank. *)
Definition is_space (c : ascii) : bool :=
  let n := code c in
  ((9 <=? n) && (n <=? 13) || (28 <=? n) && (n <=? 32))%nat.

Definition is_upper (c : ascii) : bool :=
  let n := code c in ((65 <=? n) && (n <=? 90))%nat.

Definition is_lower (c : ascii) : bool :=
  let n := code c in ((97 <=? n) && (n <=? 122))%nat.

Definition is_digit (c : ascii) : bool :=
  let n := code c in ((48 <=? n) && (n <=? 57))%nat.

(** [\w]: letters, digits and the underscore. *)
Definition is_word (c : ascii) : bool :=
  is_upper c || is_lower c || is_digit c || (code c =? 95)%nat.

(** [str.lower] on one character. *)
Definition lower_char (c : ascii) : ascii :=
  if is_upper c then ascii_of_nat (code c + 32) else c.

Definition chars (s : string) : list ascii := list_ascii_of_string s.
Definition text (l : list ascii) : string := string_of_list_ascii l.

Definition lower (s : string) : string := text (map lower_char (chars s)).

Fixpoint lstrip_chars (l : list ascii) : list ascii :=
  match l with
  | c :: r => if is_space c then lstrip_chars r else l
  | [] => []
  end.

(** [str.strip()] without arguments. *)
Definition strip (s : string) : string :=
  text (rev (lstrip_chars (rev (lstrip_chars (chars s))))).

(** The maximal run of white space at the head of [l], and what follows. *)
Fixpoint span_space (l : list ascii) : list ascii * list ascii :=
  match l with
  | c :: r =>
      if is_space c then let '(ws, rest) := span_space r in (c :: ws, rest)
      else ([], l)
  | [] => ([], [])
  end.

(** [l] starts with [p]; the remainder is returned. *)
Fixpoint strip_prefix (p l : list ascii) : option (list ascii) :=
  match p, l with
  | [], _ => Some l
  | a :: p', b :: l' =>
      if Ascii.eqb a b then strip_prefix p' l' else None
  | _ :: _, [] => None
  end.

(** The same, ignoring case ([re.I] on ASCII letters). *)
Fixpoint strip_prefix_ci (p l : list ascii) : option (list ascii) :=
  match p, l with
  | [], _ => Some l
  | a :: p', b :: l' =>
      if Ascii.eqb (lower_char a) (lower_char b)
      then strip_prefix_ci p' l' else None
  | _ :: _, [] => None
  end.

(** [needle in hay] on characters. *)
Fixpoint infix_chars (needle hay : list ascii) : bool :=
  match strip_prefix needle hay with
  | Some _ => true
  | None => match hay with
            | [] => false
            | _ :: hay' => infix_chars needle hay'
            end
  end.

Definition contains (hay needle : string) : bool :=
  infix_chars (chars needle) (chars hay).

Definition len (s : string) : nat := String.length s.

Definition is_empty (s : string) : bool :=
  match s with EmptyString => true | _ => false end.

(** [sep.join(parts)]. *)
Fixpoint join (sep : string) (parts : list string) : string :=
  match parts with
  | [] => ""
  | [p] => p
  | p :: rest => p ++ sep ++ join sep rest
  end.

End Text.

(* ================================================================== *)
(** * Python objects, dictionaries and exceptions *)
(* ================================================================== *)

(** The floats that are no rational numbers: [float("nan")], [float("inf")]
    and [float("-inf")], which [json.load] reads from [NaN], [Infinity]
    and [-Infinity]. *)
Inductive special_float : Type :=
| NaN
| PosInf
| NegInf.

Inductive value : Type :=
| VNone
| VBool (b : bool)
| VInt (z : Z)
| VFloat (q : Q)
| VSpecial (x : special_float)
| VStr (s : string)
| VList (l : list value)
| VDict (items : list (string * value)).

(** A dictionary with string keys, items in insertion order, keys unique. *)
Abbreviation dict := (list (string * value)).

(** Truth value of an object ([if x], [not x], [x or y]). *)
Definition truthy (v : value) : bool :=
  match v with
  | VNone => false
  | VBool b => b
  | VInt z => negb (z =? 0)
  | VFloat q => negb (Qeq_bool q 0)
  | VSpecial _ => true
  | VStr s => negb (Text.is_empty s)
  | VList l => match l with [] => false | _ => true end
  | VDict d => match d with [] => false | _ => true end
  end.

(** [x or y]. *)
Definition py_or (x y : value) : value := if truthy x then x else y.

(** [key in d]. *)
Fixpoint has_key (d : dict) (key : string) : bool :=
  match d with
  | [] => false
  | (k, _) :: r => if String.eqb k key then true else has_key r key
  end.

(** [d.get(key, default)]. *)
Fixpoint get_default (d : dict) (key : string) (default : value) : value :=
  match d with
  | [] => default
  | (k, v) :: r => if String.eqb k key then v else get_default r key default
  end.

(** [d.get(key)]. *)
Definition get (d : dict) (key : string) : value := get_default d key VNone.

(** [d[key] = v]: replaces the item in place or appends a new one. *)
Fixpoint set_item (d : dict) (key : string) (v : value) : dict :=
  match d with
  | [] => [(key, v)]
  | (k, w) :: r =>
      if String.eqb k key then (k, v) :: r else (k, w) :: set_item r key v
  end.

(** Exceptions: the class that the handlers of the program tell apart, and
    the text of [str(e)]. *)
Inductive exn_class : Type :=
| TimeoutError | TypeError | ValueError | KeyError | AttributeError | OtherError.

Record exn : Type := Exn { exn_cls : exn_class; exn_msg : string }.

(** The result of a call that may raise. *)
Inductive res (A : Type) : Type :=
| Ok (a : A)
| Raise (e : exn).
Arguments Ok {A} a.
Arguments Raise {A} e.

Definition bind {A B : Type} (m : res A) (f : A -> res B) : res B :=
  match m with
  | Ok a => f a
  | Raise e => Raise e
  end.

Notation "'try' x <- m 'in' k" := (bind m (fun x => k))
  (at level 10, x name, m at level 100, k at level 200).

(** [[f(x) for x in l]] where [f] may raise: the first exception escapes. *)
Fixpoint map_res {A B : Type} (f : A -> res B) (l : list A) : res (list B) :=
  match l with
  | [] => Ok []
  | a :: r => try b <- f a in try bs <- map_res f r in Ok (b :: bs)
  end.

(** What the interpreter's [str()] prints for an object that is not a
    string (numbers, lists, dictionaries): CPython's formatting, which the
    program only feeds back into text comparison. *)
Class Builtins : Type := { str_object : value -> string }.

(** [str(v)]. *)
Definition py_str `{Builtins} (v : value) : string :=
  match v with
  | VStr s => s
  | _ => str_object v
  end.

(* ================================================================== *)
(** * Regular-expression steps of [src/validator.py] *)
(* ================================================================== *)

Module Regex.
Import Text.

(** [re.sub(r"[^\w\s]", "", text)]. *)
Definition drop_punctuation (l : list ascii) : list ascii :=
  List.filter (fun c => is_word c || is_space c) l.

(** [re.sub(r"\s+", " ", text)]; [in_run] tells that the previous
    character belonged to the run of white space being replaced. *)
Fixpoint collapse_spaces (in_run : bool) (l : list ascii) : list ascii :=
  match l with
  | [] => []
  | c :: r =>
      if is_space c
      then (if in_run then collapse_spaces true r
            else " "%char :: collapse_spaces true r)
      else c :: collapse_spaces false r
  end.

(** The alternatives of the "featuring" pattern, in the order in which
    the pattern lists them. *)
Definition featuring_words : list string :=
  ["feat."; "ft."; "featuring"; "with"; "&"; "and"].

Fixpoint first_word_ci (words : list string) (l : list ascii)
  : option (nat * list ascii) :=
  match words with
  | [] => None
  | w :: ws =>
      match strip_prefix_ci (chars w) l with
      | Some rest => Some (String.length w, rest)
      | None => first_word_ci ws l
      end
  end.

(** A match of [\s*(feat\.|ft\.|featuring|with|&|and)\s*] that starts at
    the head of [l]: its length.  The leading [\s*] is greedy and no
    alternative starts with white space, so the word has to follow the
    whole run. *)
Definition match_featuring (l : list ascii) : option nat :=
  let '(ws, rest) := span_space l in
  match first_word_ci featuring_words rest with
  | Some (n, rest') =>
      let '(ws', _) := span_space rest' in
      Some (length ws + n + length ws')%nat
  | None => None
  end.

(** [re.sub(featuring_patterns, ', ', s, flags=re.I)]: scanning from the
    left, [skip] characters still belong to the match being replaced. *)
Fixpoint sub_featuring (skip : nat) (l : list ascii) : list ascii :=
  match l with
  | [] => []
  | c :: r =>
      match skip with
      | S k => sub_featuring k r
      | O =>
          match match_featuring l with
          | Some n => ","%char :: " "%char :: sub_featuring (pred n) r
          | None => c :: sub_featuring O r
          end
      end
  end.

Definition is_delimiter (c : ascii) : bool :=
  (Ascii.eqb c ",") || (Ascii.eqb c ";") || (Ascii.eqb c "/").

(** A match of [\s*,\s*|\s*;\s*|\s*/\s*] at the head of [l]. *)
Definition match_delimiter (l : list ascii) : option nat :=
  let '(ws, rest) := span_space l in
  match rest with
  | c :: rest' =>
      if is_delimiter c
      then let '(ws', _) := span_space rest' in
           Some (length ws + 1 + length ws')%nat
      else None
  | [] => None
  end.

(** [re.split(delimiters, s)]: [cur] is the piece being read, reversed. *)
Fixpoint split_delimiters (skip : nat) (cur : list ascii) (l : list ascii)
  : list (list ascii) :=
  match l with
  | [] => [rev cur]
  | c :: r =>
      match skip with
      | S k => split_delimiters k cur r
      | O =>
          match match_delimiter l with
          | Some n => rev cur :: split_delimiters (pred n) [] r
          | None => split_delimiters O (c :: cur) r
          end
      end
  end.

End Regex.

(* ================================================================== *)
(** * [difflib.SequenceMatcher(None, a, b).ratio()] *)
(* ================================================================== *)

(** The standard-library matcher that [get_similarity_ratio] calls, with
    no junk predicate and the automatic junk heuristic left on. *)
Module Difflib.

(** Characters of [b] that the matcher drops from its index: when [b] has
    at least 200 characters, those occurring more than [len(b)//100 + 1]
    times. *)
Definition popular (b : list ascii) (c : ascii) : bool :=
  let n := length b in
  ((200 <=? n) && (n / 100 + 1 <? count_occ ascii_dec b c))%nat.

(** One step of the outer loop of [find_longest_match]: from the lengths
    [row] of the matches ending at the previous character of [a], the
    lengths of those ending at [ai]; [diag] is the entry at [j-1]. *)
Fixpoint next_row (pop : ascii -> bool) (ai : ascii) (diag : nat)
    (row : list nat) (b : list ascii) : list nat :=
  match b, row with
  | bj :: b', rj :: row' =>
      (if Ascii.eqb ai bj && negb (pop bj) then S diag else O)
        :: next_row pop ai rj row' b'
  | _, _ => []
  end.

(** [if k > bestsize: besti, bestj, bestsize = i-k+1, j-k+1, k], for the
    entries of one row in increasing [j]. *)
Fixpoint scan_row (i j : nat) (row : list nat) (best : nat * nat * nat)
  : nat * nat * nat :=
  match row with
  | [] => best
  | k :: r =>
      let '(_, _, bestsize) := best in
      scan_row i (S j) r
        (if (bestsize <? k)%nat then (i + 1 - k, j + 1 - k, k)%nat else best)
  end.

Fixpoint longest_rows (pop : ascii -> bool) (a b : list ascii) (i : nat)
    (row : list nat) (best : nat * nat * nat) : nat * nat * nat :=
  match a with
  | [] => best
  | ai :: a' =>
      let row' := next_row pop ai O row b in
      longest_rows pop a' b (S i) row' (scan_row i O row' best)
  end.

Definition char_at (l : list ascii) (i : nat) : ascii := nth i l "000"%char.

(** The first extension loop: grow the block to the left over equal
    characters (nothing is junk). *)
Fixpoint extend_left (fuel : nat) (a b : list ascii) (best : nat * nat * nat)
  : nat * nat * nat :=
  let '(i, j, k) := best in
  match fuel with
  | O => best
  | S fuel' =>
      if ((0 <? i) && (0 <? j))%nat
         && Ascii.eqb (char_at a (i - 1)) (char_at b (j - 1))
      then extend_left fuel' a b (i - 1, j - 1, k + 1)%nat
      else best
  end.

(** The second extension loop: grow it to the right. *)
Fixpoint extend_right (fuel : nat) (a b : list ascii) (best : nat * nat * nat)
  : nat * nat * nat :=
  let '(i, j, k) := best in
  match fuel with
  | O => best
  | S fuel' =>
      if ((i + k <? length a) && (j + k <? length b))%nat
         && Ascii.eqb (char_at a (i + k)) (char_at b (j + k))
      then extend_right fuel' a b (i, j, k + 1)%nat
      else best
  end.

(** [find_longest_match] on the slices [a = A[alo:ahi]] and
    [b = B[blo:bhi]], positions relative to the slices.  The two loops
    that extend over junk do nothing: the junk set is empty. *)
Definition find_longest_match (pop : ascii -> bool) (a b : list ascii)
  : nat * nat * nat :=
  let best := longest_rows pop a b O (repeat O (length b)) (O, O, O) in
  let best := extend_left (length a) a b best in
  extend_right (length a) a b best.

(** The sum of the sizes of [get_matching_blocks()]: the longest block,
    then the blocks to its left and to its right. *)
Fixpoint matches (fuel : nat) (pop : ascii -> bool) (a b : list ascii) : nat :=
  match fuel with
  | O => O
  | S fuel' =>
      let '(i, j, k) := find_longest_match pop a b in
      match k with
      | O => O
      | S _ =>
          (k
           + (if (0 <? i) && (0 <? j)
              then matches fuel' pop (firstn i a) (firstn j b) else 0)
           + (if (i + k <? length a) && (j + k <? length b)
              then matches fuel' pop (skipn (i + k) a) (skipn (j + k) b)
              else 0))%nat
      end
  end.

(** [ratio()]: [2.0 * matches / (len(a) + len(b))], and 1.0 for two empty
    strings. *)
Definition ratio (a b : string) : Q :=
  let la := Text.chars a in
  let lb := Text.chars b in
  let total := (length la + length lb)%nat in
  match total with
  | O => 1%Q
  | S _ =>
      let m := matches (S (length la)) (popular lb) la lb in
      Qmake (2 * Z.of_nat m) (Pos.of_nat total)
  end.

End Difflib.

(* ================================================================== *)
(** * [src/validator.py]: normalisation and artist splitting *)
(* ================================================================== *)

(** [normalize_string(text)]. *)
Definition normalize_string (text : string) : string :=
  if Text.is_empty text then ""
  else
    let t := Regex.drop_punctuation (Text.chars text) in
    let t := Regex.collapse_spaces false t in
    Text.strip (Text.lower (Text.text t)).

(** [split_artists(artist_str)]. *)
Definition split_artists (artist_str : string) : list string :=
  if Text.is_empty artist_str then []
  else
    let s := Regex.sub_featuring O (Text.chars artist_str) in
    let pieces := map Text.text (Regex.split_delimiters O [] s) in
    map normalize_string
        (List.filter (fun a => negb (Text.is_empty (Text.strip a))) pieces).

(* ================================================================== *)
(** * [src/validator.py]: the matcher *)
(* ================================================================== *)

(** [get_similarity_ratio(str1, str2)]. *)
Definition get_similarity_ratio (str1 str2 : string) : Q :=
  let str1 := normalize_string str1 in
  let str2 := normalize_string str2 in
  if Text.is_empty str1 || Text.is_empty str2 then 0%Q
  else Difflib.ratio str1 str2.

(** [x >= y] on floats. *)
Definition Qge_bool (x y : Q) : bool := Qle_bool y x.

(** The integer nearest to [n / d], for [d > 0], ties to the even one. *)
Definition round_half_even (n d : Z) : Z :=
  let f := n / d in
  let r := n mod d in
  match 2 * r ?= d with
  | Lt => f
  | Gt => f + 1
  | Eq => if Z.odd f then f + 1 else f
  end.

(** The float that a quotient or a score is when the program holds it: the
    binary64 number nearest to the rational [x], ties to the even
    significand, that is [m * 2^e] with [m] of at most 53 bits and [e] no
    less than -1074.  Magnitudes from 2^1024 on, which overflow, are out
    of reach of the ratios and scores treated here. *)
Definition to_double (x : Q) : Q :=
  let n := Qnum x in
  let d := Zpos (Qden x) in
  if n =? 0 then 0%Q
  else
    let a := Z.abs n in
    let scaled e := if e <=? 0 then (a * 2 ^ (- e), d) else (a, d * 2 ^ e) in
    let k := Z.log2 a - Z.log2 d in
    let t := let '(p, q) := scaled k in if p <? q then k - 1 else k in
    let e := Z.max (t - 52) (- 1074) in
    let '(p, q) := scaled e in
    let m := Z.sgn n * round_half_even p q in
    Qred (if e <=? 0 then Qmake m (Z.to_pos (2 ^ (- e)))
          else inject_Z (m * 2 ^ e)).

(** [round(x, 3)] on the float [x]: the number with three decimals nearest
    to the exact value of the float, ties to the even one. *)
Definition round3 (x : Q) : Q :=
  let x := to_double x in
  Qred (Qmake (round_half_even (Qnum x * 1000) (Zpos (Qden x))) 1000).

Section Matcher.
Context `{Builtins}.

(** [normalize_string(a)] for an element [a] of a list of artists: a
    regular expression applied to an object that is not text raises. *)
Definition normalize_item (a : value) : res string :=
  match a with
  | VStr s => Ok (normalize_string s)
  | _ => Raise (Exn TypeError "expected string or bytes-like object")
  end.

(** [extract_artist_song_from_result(result)]. *)
Definition extract_artist_song_from_result (result : dict)
  : res (list string * string) :=
  let artist :=
    py_or (py_or (py_or (get result "artist") (get result "artists"))
                 (get result "artist_name"))
          (get result "trackArtist") in
  let song :=
    py_or (py_or (py_or (py_or (get result "song") (get result "song_title"))
                        (get result "title"))
                 (get result "name"))
          (get result "trackName") in
  try returned_artists <-
    match artist with
    | VList l => map_res normalize_item (List.filter truthy l)
    | VStr s => Ok (split_artists s)
    | _ => Ok []
    end in
  Ok (returned_artists, normalize_string (py_str (py_or song (VStr "")))).

(** The three checks of the loop body for one requested artist, in the
    order of the source; the tag of the first that holds. *)
Definition artist_check (threshold : Q) (returned_artists : list string)
    (raw_returned_artists_str returned_song req : string) : option string :=
  if existsb (fun ret => Qge_bool (get_similarity_ratio req ret) threshold)
             returned_artists
  then Some "Artist List"
  else if (3 <? Text.len req)%nat && Text.contains raw_returned_artists_str req
  then Some "Partial Artist String"
  else if (3 <? Text.len req)%nat && Text.contains returned_song req
  then Some "Song Title"
  else None.

(** [for req in requested_artists: ... break]: [(found_match, match_method)]
    when the loop ends. *)
Fixpoint artist_loop (threshold : Q) (returned_artists : list string)
    (raw_returned_artists_str returned_song : string)
    (requested_artists : list string) : bool * string :=
  match requested_artists with
  | [] => (false, "")
  | req :: rest =>
      match artist_check threshold returned_artists
                         raw_returned_artists_str returned_song req with
      | Some method => (true, method)
      | None => artist_loop threshold returned_artists
                            raw_returned_artists_str returned_song rest
      end
  end.

(** [validate_lyrics_match(requested_artist, requested_song, result,
    threshold)]. *)
Definition validate_lyrics_match (requested_artist requested_song : string)
    (result : dict) (threshold : Q) : res dict :=
  let requested_artists := split_artists requested_artist in
  let normalized_requested_song := normalize_string requested_song in
  try extracted <- extract_artist_song_from_result result in
  let '(returned_artists, returned_song) := extracted in
  let raw_returned_artists_str := Text.join " " returned_artists in
  if match returned_artists with [] => true | _ => false end
     || Text.is_empty returned_song
  then Ok [("valid", VBool false); ("reason", VStr "Missing metadata")]
  else
    let song_similarity :=
      get_similarity_ratio normalized_requested_song returned_song in
    let '(found_match, match_method) :=
      artist_loop threshold returned_artists raw_returned_artists_str
                  returned_song requested_artists in
    if found_match && Qge_bool song_similarity threshold
    then Ok [("valid", VBool true);
             ("reason", VStr ("Matched via " ++ match_method));
             ("returned_artists", VList (map VStr returned_artists));
             ("returned_song", VStr returned_song);
             ("song_match", VFloat (round3 song_similarity))]
    else Ok [("valid", VBool false);
             ("reason", VStr "Artist not found in metadata");
             ("returned_artists", VList (map VStr returned_artists));
             ("returned_song", VStr returned_song);
             ("song_match", VFloat (round3 song_similarity))].

(** The body of the loop of [validate_and_filter_results] for one attempt:
    the item appended to [valid_results], if any. *)
Definition filter_attempt (requested_artist requested_song : string)
    (threshold : Q) (attempt : value) : res (option value) :=
  match attempt with
  | VDict a =>
      if negb (truthy (get_default a "success" (VBool true))) then Ok None
      else if has_key a "result" && truthy (get a "result") then
        match get a "result" with
        | VDict result =>
            try val <- validate_lyrics_match requested_artist requested_song
                                              result threshold in
            if truthy (get val "valid")
            then Ok (Some (VDict [("api", get a "api");
                                  ("result", VDict result);
                                  ("validation", VDict val)]))
            else Ok None
        | _ => Raise (Exn AttributeError "object has no attribute 'get'")
        end
      else Ok None
  | _ => Ok None
  end.

Fixpoint collect_valid (requested_artist requested_song : string)
    (threshold : Q) (attempts : list value) : res (list value) :=
  match attempts with
  | [] => Ok []
  | attempt :: rest =>
      try item <- filter_attempt requested_artist requested_song
                                 threshold attempt in
      try items <- collect_valid requested_artist requested_song
                                 threshold rest in
      Ok (match item with Some v => v :: items | None => items end)
  end.

(** [validate_and_filter_results(requested_artist, requested_song,
    attempts, threshold)]. *)
Definition validate_and_filter_results
    (requested_artist requested_song : string)
    (attempts : list value) (threshold : Q) : res dict :=
  try valid_results <- collect_valid requested_artist requested_song
                                     threshold attempts in
  Ok [("has_valid_match", VBool (0 <? length valid_results)%nat);
      ("valid_results", VList valid_results);
      ("all_failed", VBool (length valid_results =? 0)%nat)].

End Matcher.

(* ================================================================== *)
(** * [src/fetch_controller.py] *)
(* ================================================================== *)

(** What a call of an adapter's [fetch] does for one request: how long it
    runs, in seconds, and how it ends. *)
Inductive fetch_outcome : Type :=
| Returns (result : option dict)
| Raises (e : exn).

Record fetch_call : Type := { elapsed : Q; outcome : fetch_outcome }.

(** A provider adapter: its [fetch(artist, song, timestamps=...)]. *)
Definition fetcher : Type := string -> string -> bool -> fetch_call.

(** The surroundings of one orchestration run: the adapters registered in
    [ALL_FETCHERS], the order in which the event loop reports the tasks of
    a race as done (one list per return of [asyncio.wait], holding the
    positions of the finished tasks in the order in which the set is
    iterated), and the formatted UTC clock. *)
Record world : Type := {
  ALL_FETCHERS : string -> option fetcher;
  completion : list (list nat);
  utc_now : string
}.

Definition DEFAULT_SYNCED_SEQUENCE : list Z := [2; 3; 4].
Definition DEFAULT_PLAIN_SEQUENCE : list Z := [1; 2; 3; 4; 5; 6].
Definition FAST_MODE_SEQUENCE : list Z := [2; 3].

(** The table [all_fetchers] built at the head of both functions: for a
    provider index, the display name and the key looked up in
    [ALL_FETCHERS]. *)
Definition fetcher_entry (fetcher_id : Z) : option (string * string) :=
  match fetcher_id with
  | 1 => Some ("Genius", "genius")
  | 2 => Some ("LRCLIB", "lrclib")
  | 3 => Some ("SimpMusic", "simpmusic")
  | 4 => Some ("YouTube Music", "youtube")
  | 5 => Some ("Lyrics.ovh", "lyricsovh")
  | 6 => Some ("ChartLyrics", "chartlyrics")
  | _ => None
  end.

Definition all_fetchers (w : world) (fetcher_id : Z)
  : option (string * option fetcher) :=
  match fetcher_entry fetcher_id with
  | Some (api_name, key) => Some (api_name, ALL_FETCHERS w key)
  | None => None
  end.

(** [result and (not timestamps or result.get("hasTimestamps") or
    result.get("timed_lyrics") or result.get("timestamped"))]. *)
Definition usable (timestamps : bool) (result : option dict) : bool :=
  match result with
  | None => false
  | Some d =>
      truthy (VDict d)
      && (negb timestamps
          || truthy (get d "hasTimestamps")
          || truthy (get d "timed_lyrics")
          || truthy (get d "timestamped"))
  end.

(** The bound of [asyncio.wait_for(..., timeout=timeout)] is exceeded. *)
Definition timed_out (timeout : Q) (c : fetch_call) : bool :=
  negb (Qle_bool (elapsed c) timeout).

(** [fetch_with_timeout(api_name, fetcher, artist_name, song_title,
    timestamps, timeout)]. *)
Definition fetch_with_timeout (api_name : string) (f : fetcher)
    (artist_name song_title : string) (timestamps : bool) (timeout : Q)
  : dict :=
  let c := f artist_name song_title timestamps in
  if timed_out timeout c
  then [("api", VStr api_name); ("success", VBool false);
        ("reason", VStr "timeout")]
  else
    match outcome c with
    | Returns result =>
        match result with
        | Some d =>
            if usable timestamps result
            then [("api", VStr api_name); ("result", VDict d);
                  ("success", VBool true)]
            else [("api", VStr api_name); ("success", VBool false);
                  ("reason", VStr "no_results")]
        | None => [("api", VStr api_name); ("success", VBool false);
                   ("reason", VStr "no_results")]
        end
    | Raises e =>
        match exn_cls e with
        | TimeoutError =>
            [("api", VStr api_name); ("success", VBool false);
             ("reason", VStr "timeout")]
        | _ =>
            [("api", VStr api_name); ("success", VBool false);
             ("reason", VStr (exn_msg e))]
        end
    end.

(** The tasks created by the first loop of [fetch_lyrics_parallel]: the
    provider index and what the task will return. *)
Fixpoint create_tasks (w : world) (artist_name song_title : string)
    (timestamps : bool) (fetcher_ids : list Z) : list (Z * dict) :=
  match fetcher_ids with
  | [] => []
  | fetcher_id :: rest =>
      let tasks := create_tasks w artist_name song_title timestamps rest in
      match all_fetchers w fetcher_id with
      | Some (api_name, Some f) =>
          (fetcher_id,
           fetch_with_timeout api_name f artist_name song_title timestamps 10)
            :: tasks
      | _ => tasks
      end
  end.

(** [for task in done: ...]: the attempts after the loop, and the result
    returned from inside it, if any. *)
Fixpoint race_done (tasks : list (Z * dict)) (done : list nat)
    (attempts : list value) : list value * option value :=
  match done with
  | [] => (attempts, None)
  | t :: rest =>
      match nth_error tasks t with
      | Some (_, result) =>
          let attempts := (attempts ++ [VDict result])%list in
          if truthy (get result "success")
          then (attempts, Some (get result "result"))
          else race_done tasks rest attempts
      | None => race_done tasks rest attempts
      end
  end.

(** [while pending: done, pending = await asyncio.wait(...)]. *)
Fixpoint race_rounds (tasks : list (Z * dict)) (rounds : list (list nat))
    (attempts : list value) : option value * list value :=
  match rounds with
  | [] => (None, attempts)
  | done :: rest =>
      match race_done tasks done attempts with
      | (attempts, Some result) => (Some result, attempts)
      | (attempts, None) => race_rounds tasks rest attempts
      end
  end.

(** [fetch_lyrics_parallel(artist_name, song_title, timestamps,
    fetcher_ids)]: [(result, attempts)], and the providers whose adapter
    was started. *)
Definition fetch_lyrics_parallel (w : world) (artist_name song_title : string)
    (timestamps : bool) (fetcher_ids : list Z)
  : value * list value * list Z :=
  let tasks := create_tasks w artist_name song_title timestamps fetcher_ids in
  match tasks with
  | [] => (VNone, [], [])
  | _ =>
      let '(result, attempts) := race_rounds tasks (completion w) [] in
      (match result with Some r => r | None => VNone end,
       attempts, map fst tasks)
  end.

(** [s.split(",")]; [cur] is the piece being read, reversed. *)
Fixpoint split_commas (cur : list ascii) (l : list ascii) : list string :=
  match l with
  | [] => [Text.text (rev cur)]
  | c :: r =>
      if Ascii.eqb c ","
      then Text.text (rev cur) :: split_commas [] r
      else split_commas (c :: cur) r
  end.

(** The digits of an integer literal, single underscores allowed between
    digits; [after_digit] tells that the previous character was a digit. *)
Fixpoint int_digits (acc : Z) (after_digit : bool) (l : list ascii)
  : option Z :=
  match l with
  | [] => if after_digit then Some acc else None
  | c :: r =>
      if Text.is_digit c
      then int_digits (10 * acc + Z.of_nat (Text.code c - 48)) true r
      else if Ascii.eqb c "_" && after_digit then int_digits acc false r
      else None
  end.

(** The white space that [int] skips around a literal: TAB, LF, VT, FF,
    CR and the blank.  Unlike [str.strip], it leaves the separators
    0x1c-0x1f in place. *)
Definition is_int_space (c : ascii) : bool :=
  let n := Text.code c in ((9 <=? n) && (n <=? 13) || (n =? 32))%nat.

Fixpoint int_lstrip (l : list ascii) : list ascii :=
  match l with
  | c :: r => if is_int_space c then int_lstrip r else l
  | [] => []
  end.

Definition int_strip (l : list ascii) : list ascii :=
  rev (int_lstrip (rev (int_lstrip l))).

(** The run of digits and underscores at the head of [l], and what
    follows. *)
Fixpoint literal_run (l : list ascii) : list ascii * list ascii :=
  match l with
  | c :: r =>
      if Text.is_digit c || Ascii.eqb c "_"
      then let '(run, rest) := literal_run r in (c :: run, rest)
      else ([], l)
  | [] => ([], [])
  end.

(** The limit of [sys.get_int_max_str_digits()], as the interpreter starts
    with. *)
Definition int_max_str_digits : nat := 4300.

(** The digits after the sign of a literal: [ValueError] when the run of
    digits is malformed, holds more digits than the limit, or is followed
    by anything. *)
Definition int_magnitude (ds : list ascii) : res Z :=
  let '(run, rest) := literal_run ds in
  match int_digits 0 false run with
  | None => Raise (Exn ValueError "invalid literal for int() with base 10")
  | Some n =>
      if (int_max_str_digits <? length (List.filter Text.is_digit run))%nat
      then Raise (Exn ValueError
                    "Exceeds the limit (4300 digits) for integer string conversion")
      else
        match rest with
        | [] => Ok n
        | _ => Raise (Exn ValueError "invalid literal for int() with base 10")
        end
  end.

(** [int(x)] on text: surrounding white space, an optional sign, decimal
    digits; [ValueError] otherwise. *)
Definition int_of_str (x : string) : res Z :=
  match int_strip (Text.chars x) with
  | "+"%char :: ds => int_magnitude ds
  | "-"%char :: ds => try n <- int_magnitude ds in Ok (- n)
  | ds => int_magnitude ds
  end.

(** [[int(x) for x in sequence.split(",") if x.strip() != ""]]. *)
Definition parse_sequence (sequence : string) : res (list Z) :=
  map_res int_of_str
    (List.filter (fun x => negb (Text.is_empty (Text.strip x)))
            (split_commas [] (Text.chars sequence))).

(** [len(set(l))]. *)
Definition distinct_count (l : list Z) : nat := length (nodup Z.eq_dec l).

(** The condition under which a parsed custom sequence is rejected. *)
Definition invalid_sequence (fetcher_ids : list Z) : bool :=
  match fetcher_ids with [] => true | _ => false end
  || negb (forallb (fun x => (1 <=? x) && (x <=? 6)) fetcher_ids)
  || (6 <? length fetcher_ids)%nat
  || negb (length fetcher_ids =? distinct_count fetcher_ids)%nat.

(** [{"status": "error", "error": {"message": ..., "timestamp": ...}}]. *)
Definition error_response (w : world) (message : string) : dict :=
  [("status", VStr "error");
   ("error", VDict [("message", VStr message);
                    ("timestamp", VStr (utc_now w))])].

Definition no_lyrics_message (artist_name song_title : string) : string :=
  "No lyrics found for '" ++ song_title ++ "' by '" ++ artist_name ++ "'".

Definition none_matched_message (artist_name song_title : string) : string :=
  "Found results but none matched '" ++ song_title ++ "' by '" ++ artist_name
  ++ "' (possible wrong song returned by API)".

(** What a run of the controller leaves behind: the response returned (or
    the exception that escapes), the attempts recorded when it ends, and
    the providers whose adapter has been called, in call order. *)
Record run : Type := {
  response : res dict;
  attempts : list value;
  invoked : list Z
}.

(** [x < 1.0] for a score. *)
Definition below_one (x : value) : bool :=
  match x with
  | VFloat q => negb (Qle_bool 1 q)
  | VSpecial NegInf => true
  | VInt z => z <? 1
  | VBool b => negb b
  | _ => false
  end.

(** [validation.get("valid_results", [{}])[0]]. *)
Definition first_valid (validation : dict) : res dict :=
  match get_default validation "valid_results" (VList [VDict []]) with
  | VList (VDict valid_result :: _) => Ok valid_result
  | _ => Raise (Exn OtherError "list index out of range")
  end.

Section Controller.
Context `{Builtins}.

(** The branch of [fetch_lyrics_controller] taken when the race returned a
    result. *)
Definition race_verdict (w : world) (artist_name song_title : string)
    (result : value) (attempts : list value) : res dict :=
  try validation <-
    validate_and_filter_results artist_name song_title attempts (3 # 4) in
  if truthy (get validation "has_valid_match")
  then
    try valid_result <- first_valid validation in
    let response :=
      [("status", VStr "success");
       ("data", get_default valid_result "result" result)] in
    match get_default valid_result "validation" (VDict []) with
    | VDict validation_info =>
        let artist_match :=
          get_default validation_info "artist_match" (VFloat 1) in
        let song_match :=
          get_default validation_info "song_match" (VFloat 1) in
        if below_one artist_match || below_one song_match
        then Ok (set_item response "validation" (VDict validation_info))
        else Ok response
    | _ => Raise (Exn AttributeError "object has no attribute 'get'")
    end
  else Ok (error_response w (none_matched_message artist_name song_title)).

(** One iteration of the sequential loop for a configured provider: the
    response to return, or the attempt to record before going on. *)
Definition sequential_step (artist_name song_title : string)
    (timestamps : bool) (api_name : string) (f : fetcher)
  : dict + value :=
  let error e :=
    inr (VDict [("api", VStr api_name); ("status", VStr "error");
                ("message", VStr (exn_msg e))]) in
  match outcome (f artist_name song_title timestamps) with
  | Raises e => error e
  | Returns result =>
      match result with
      | Some d =>
          if usable timestamps result
          then
            match validate_and_filter_results artist_name song_title
                    [VDict [("api", VStr api_name); ("result", VDict d)]]
                    (3 # 4) with
            | Raise e => error e
            | Ok validation =>
                if truthy (get validation "has_valid_match")
                then
                  match first_valid validation with
                  | Raise e => error e
                  | Ok valid_result =>
                      inl [("status", VStr "success");
                           ("data",
                            get_default valid_result "result" (VDict d))]
                  end
                else inr (VDict [("api", VStr api_name);
                                 ("status", VStr "validation_failed")])
            end
          else inr (VDict [("api", VStr api_name);
                           ("status", VStr "no_results")])
      | None => inr (VDict [("api", VStr api_name);
                            ("status", VStr "no_results")])
      end
  end.

(** The sequential loop over [fetcher_ids]. *)
Fixpoint sequential_loop (w : world) (artist_name song_title : string)
    (timestamps : bool) (fetcher_ids : list Z)
    (attempts : list value) (invoked : list Z) : run :=
  match fetcher_ids with
  | [] =>
      {| response :=
           Ok (error_response w (no_lyrics_message artist_name song_title));
         attempts := attempts; invoked := invoked |}
  | fetcher_id :: rest =>
      match all_fetchers w fetcher_id with
      | None =>
          {| response := Raise (Exn KeyError "fetcher_id");
             attempts := attempts; invoked := invoked |}
      | Some (api_name, None) =>
          sequential_loop w artist_name song_title timestamps rest
            (attempts ++ [VDict [("api", VStr api_name);
                                 ("status", VStr "not_configured")]])%list
            invoked
      | Some (api_name, Some f) =>
          let invoked := (invoked ++ [fetcher_id])%list in
          match sequential_step artist_name song_title timestamps
                                api_name f with
          | inl response =>
              {| response := Ok response;
                 attempts := attempts; invoked := invoked |}
          | inr attempt =>
              sequential_loop w artist_name song_title timestamps rest
                (attempts ++ [attempt])%list invoked
          end
      end
  end.

(** The part of [fetch_lyrics_controller] after the sequence is known. *)
Definition run_sequence (w : world) (artist_name song_title : string)
    (timestamps parallel : bool) (fetcher_ids : list Z) : run :=
  if parallel
  then
    let '(result, attempts, started) :=
      fetch_lyrics_parallel w artist_name song_title timestamps fetcher_ids in
    {| response :=
         if truthy result
         then race_verdict w artist_name song_title result attempts
         else Ok (error_response w
                    (no_lyrics_message artist_name song_title));
       attempts := attempts;
       invoked := started |}
  else sequential_loop w artist_name song_title timestamps fetcher_ids [] [].

(** [pass_param and sequence]: the value of [sequence] when it is given and
    not empty. *)
Definition custom_sequence (pass_param : bool) (sequence : option string)
  : option string :=
  match sequence with
  | Some s => if pass_param && negb (Text.is_empty s) then Some s else None
  | None => None
  end.

(** [fetch_lyrics_controller(artist_name, song_title, timestamps,
    pass_param, sequence, fast_mode)]. *)
Definition fetch_lyrics_controller (w : world)
    (artist_name song_title : string) (timestamps pass_param : bool)
    (sequence : option string) (fast_mode : bool) : run :=
  let reject message :=
    {| response := Ok (error_response w message);
       attempts := []; invoked := [] |} in
  if fast_mode
  then run_sequence w artist_name song_title timestamps true
                    FAST_MODE_SEQUENCE
  else
    match custom_sequence pass_param sequence with
    | Some s =>
        match parse_sequence s with
        | Raise _ =>
            reject "Invalid sequence format: must be comma-separated integers"
        | Ok fetcher_ids =>
            if invalid_sequence fetcher_ids
            then reject
                   "Invalid sequence: must be unique numbers between 1 and 6"
            else run_sequence w artist_name song_title timestamps
                              (1 <? length fetcher_ids)%nat fetcher_ids
        end
    | None =>
        run_sequence w artist_name song_title timestamps false
          (if timestamps then DEFAULT_SYNCED_SEQUENCE
           else DEFAULT_PLAIN_SEQUENCE)
    end.

End Controller.

(* ================================================================== *)
(** * [hashlib.sha256(data).hexdigest()] *)
(* ================================================================== *)

Module SHA256.

Definition w32 (x : Z) : Z := x mod 2 ^ 32.
Definition add32 (x y : Z) : Z := w32 (x + y).
Definition rotr (n x : Z) : Z :=
  w32 (Z.lor (Z.shiftr x n) (Z.shiftl x (32 - n))).
Definition not32 (x : Z) : Z := 2 ^ 32 - 1 - x.

Definition Ch (x y z : Z) : Z :=
  Z.lxor (Z.land x y) (Z.land (not32 x) z).
Definition Maj (x y z : Z) : Z :=
  Z.lxor (Z.lxor (Z.land x y) (Z.land x z)) (Z.land y z).
Definition Sigma0 (x : Z) : Z :=
  Z.lxor (Z.lxor (rotr 2 x) (rotr 13 x)) (rotr 22 x).
Definition Sigma1 (x : Z) : Z :=
  Z.lxor (Z.lxor (rotr 6 x) (rotr 11 x)) (rotr 25 x).
Definition sigma0 (x : Z) : Z :=
  Z.lxor (Z.lxor (rotr 7 x) (rotr 18 x)) (Z.shiftr x 3).
Definition sigma1 (x : Z) : Z :=
  Z.lxor (Z.lxor (rotr 17 x) (rotr 19 x)) (Z.shiftr x 10).

(** The round constants and the initial state are the first 32 bits of
    the fractional parts of the cube roots of the first 64 primes, and of
    the square roots of the first 8. *)
Definition is_prime (n : nat) : bool :=
  forallb (fun d => negb (n mod d =? 0)%nat) (seq 2 (n - 2)).

Definition primes : list Z :=
  map Z.of_nat (List.filter is_prime (seq 2 310)).

(** The integer cube root of [x], one bit at a time from bit [n] down. *)
Fixpoint cube_root (n : nat) (x root : Z) : Z :=
  match n with
  | O => root
  | S n' =>
      let c := root + 2 ^ Z.of_nat n' in
      cube_root n' x (if c * c * c <=? x then c else root)
  end.

Definition K : list Z :=
  map (fun p => w32 (cube_root 40 (p * 2 ^ 96) 0)) primes.

Definition H0 : list Z :=
  map (fun p => w32 (Z.sqrt (p * 2 ^ 64))) (firstn 8 primes).

Record state : Type := State {
  h0 : Z; h1 : Z; h2 : Z; h3 : Z; h4 : Z; h5 : Z; h6 : Z; h7 : Z
}.

Definition initial : state :=
  State (nth 0 H0 0) (nth 1 H0 0) (nth 2 H0 0) (nth 3 H0 0)
        (nth 4 H0 0) (nth 5 H0 0) (nth 6 H0 0) (nth 7 H0 0).

(** The 64 rounds on one block; [win] holds the sixteen schedule words
    from the current one on. *)
Fixpoint rounds (ks : list Z) (win : list Z) (s : state) : state :=
  match ks with
  | [] => s
  | k :: ks' =>
      let wt := nth 0 win 0 in
      let next :=
        add32 (add32 (sigma1 (nth 14 win 0)) (nth 9 win 0))
              (add32 (sigma0 (nth 1 win 0)) wt) in
      let t1 :=
        add32 (add32 (add32 (h7 s) (Sigma1 (h4 s)))
                     (add32 (Ch (h4 s) (h5 s) (h6 s)) k)) wt in
      let t2 := add32 (Sigma0 (h0 s)) (Maj (h0 s) (h1 s) (h2 s)) in
      rounds ks' (tl win ++ [next])%list
        (State (add32 t1 t2) (h0 s) (h1 s) (h2 s)
               (add32 (h3 s) t1) (h4 s) (h5 s) (h6 s))
  end.

Definition compress (s : state) (block : list Z) : state :=
  let r := rounds K block s in
  State (add32 (h0 s) (h0 r)) (add32 (h1 s) (h1 r))
        (add32 (h2 s) (h2 r)) (add32 (h3 s) (h3 r))
        (add32 (h4 s) (h4 r)) (add32 (h5 s) (h5 r))
        (add32 (h6 s) (h6 r)) (add32 (h7 s) (h7 r)).

(** Big-endian words of a byte string whose length is a multiple of 4. *)
Fixpoint words (bytes : list Z) : list Z :=
  match bytes with
  | a :: b :: c :: d :: r =>
      (((a * 256 + b) * 256 + c) * 256 + d) :: words r
  | _ => []
  end.

Fixpoint blocks (n : nat) (ws : list Z) (s : state) : state :=
  match n with
  | O => s
  | S n' => blocks n' (skipn 16 ws) (compress s (firstn 16 ws))
  end.

(** The eight bytes of the bit length, most significant first. *)
Definition length_bytes (bits : Z) : list Z :=
  map (fun i => (bits / 2 ^ (8 * Z.of_nat i)) mod 256) [7; 6; 5; 4; 3; 2; 1; 0]%nat.

Definition pad (msg : list Z) : list Z :=
  let n := Z.of_nat (length msg) in
  let zeros := Z.to_nat ((55 - n) mod 64) in
  (msg ++ [128] ++ repeat 0 zeros ++ length_bytes (8 * n))%list.

Definition digest (msg : list Z) : state :=
  let ws := words (pad msg) in
  blocks (length ws / 16) ws initial.

Definition hex_digit (n : Z) : ascii :=
  nth (Z.to_nat n) (Text.chars "0123456789abcdef") "0"%char.

Definition hex_word (x : Z) : list ascii :=
  map (fun i => hex_digit ((x / 16 ^ Z.of_nat i) mod 16))
      [7; 6; 5; 4; 3; 2; 1; 0]%nat.

Definition hexdigest (data : list Z) : string :=
  let s := digest data in
  Text.text (hex_word (h0 s) ++ hex_word (h1 s) ++ hex_word (h2 s)
             ++ hex_word (h3 s) ++ hex_word (h4 s) ++ hex_word (h5 s)
             ++ hex_word (h6 s) ++ hex_word (h7 s))%list.

End SHA256.

(** [s.encode("utf-8")] on ASCII text. *)
Definition encode_utf8 (s : string) : list Z :=
  map (fun c => Z.of_nat (Text.code c)) (Text.chars s).

(* ================================================================== *)
(** * [src/cache.py] *)
(* ================================================================== *)

Definition dquote : ascii := "034"%char.
Definition backslash : ascii := "092"%char.

Definition hex2 (n : nat) : list ascii :=
  [SHA256.hex_digit (Z.of_nat (n / 16)); SHA256.hex_digit (Z.of_nat (n mod 16))].

(** The replacement of one character inside a JSON string when
    [ensure_ascii=False]: the quote, the backslash and the control
    characters are escaped, everything else is kept. *)
Definition json_escape (c : ascii) : list ascii :=
  let n := Text.code c in
  if (n =? 34)%nat then [backslash; dquote]
  else if (n =? 92)%nat then [backslash; backslash]
  else if (n =? 8)%nat then [backslash; "b"%char]
  else if (n =? 12)%nat then [backslash; "f"%char]
  else if (n =? 10)%nat then [backslash; "n"%char]
  else if (n =? 13)%nat then [backslash; "r"%char]
  else if (n =? 9)%nat then [backslash; "t"%char]
  else if (n <? 32)%nat
  then (backslash :: "u"%char :: "0"%char :: "0"%char :: hex2 n)
  else [c].

Definition json_string (s : string) : list ascii :=
  (dquote :: flat_map json_escape (Text.chars s) ++ [dquote])%list.

(** The values held by the payload of [make_cache_key]. *)
Inductive field : Type :=
| FStr (s : string)
| FBool (b : bool).

Definition json_field (f : field) : list ascii :=
  match f with
  | FStr s => json_string s
  | FBool true => Text.chars "true"
  | FBool false => Text.chars "false"
  end.

(** [sort_keys=True]: insertion of an item by key order. *)
Fixpoint insert_item (item : string * field) (items : list (string * field))
  : list (string * field) :=
  match items with
  | [] => [item]
  | i :: r =>
      if String.leb (fst item) (fst i) then item :: items
      else i :: insert_item item r
  end.

Definition sort_items (items : list (string * field))
  : list (string * field) :=
  fold_right insert_item [] items.

Fixpoint json_items (items : list (string * field)) : list ascii :=
  match items with
  | [] => []
  | [(k, v)] => (json_string k ++ Text.chars ": " ++ json_field v)%list
  | (k, v) :: r =>
      (json_string k ++ Text.chars ": " ++ json_field v
       ++ Text.chars ", " ++ json_items r)%list
  end.

(** [json.dumps(payload, sort_keys=True, ensure_ascii=False)] for a
    dictionary of strings and booleans. *)
Definition json_dumps (payload : list (string * field)) : string :=
  Text.text ("{"%char :: json_items (sort_items payload) ++ ["}"%char])%list.

Definition CACHE_VERSION : string := "v2".

(** The dictionary [payload] of [make_cache_key]. *)
Definition key_payload (artist song : string) (timestamps : bool)
    (sequence : option string) (fast mood metadata : bool)
  : list (string * field) :=
  [("v", FStr CACHE_VERSION);
   ("artist", FStr (Text.lower (Text.strip artist)));
   ("song", FStr (Text.lower (Text.strip song)));
   ("timestamps", FBool timestamps);
   ("sequence", FStr (match sequence with Some s => s | None => "" end));
   ("fast", FBool fast);
   ("mood", FBool mood);
   ("metadata", FBool metadata)].

(** [make_cache_key(artist, song, timestamps, sequence, fast, mood,
    metadata)]. *)
Definition make_cache_key (artist song : string) (timestamps : bool)
    (sequence : option string) (fast mood metadata : bool) : string :=
  let raw :=
    json_dumps (key_payload artist song timestamps sequence
                            fast mood metadata) in
  SHA256.hexdigest (encode_utf8 raw).

(** [src/config.py]: the settings read from the environment. *)
Record config : Type := { CACHE_DIR : string; CACHE_TTL : Z }.

(** What a file of the cache directory holds: text that [json.load]
    rejects, or the object it yields.  Writing an object with [json.dump]
    and reading it back yields the same object. *)
Inductive file : Type :=
| Garbage
| Json (data : value).

Inductive disk_op : Type :=
| Write (path : string)
| Remove (path : string).

(** The file system: the files, which paths can be opened for writing and
    which can be removed, and the operations carried out so far. *)
Record disk : Type := {
  files : gmap string file;
  writable : string -> bool;
  removable : string -> bool;
  ops : list disk_op
}.

(** [os.path.join(a, b)]. *)
Definition path_join (a b : string) : string :=
  match Text.chars b, rev (Text.chars a) with
  | "/"%char :: _, _ => b
  | _, [] => b
  | _, "/"%char :: _ => a ++ b
  | _, _ => a ++ "/" ++ b
  end.

Definition _get_cache_path (cfg : config) (key : string) : string :=
  path_join (CACHE_DIR cfg) (key ++ ".json").

(** [try: os.remove(path) except Exception: pass]. *)
Definition remove_quietly (d : disk) (path : string) : disk :=
  if removable d path
  then {| files := delete path (files d); writable := writable d;
          removable := removable d; ops := (ops d ++ [Remove path])%list |}
  else d.

(** [time() > expiry], which raises when [expiry] is neither a float nor
    an integer; no number is greater than [nan] or [inf], every number is
    greater than [-inf]. *)
Definition later_than (now : Q) (expiry : value) : res bool :=
  match expiry with
  | VFloat q => Ok (negb (Qle_bool now q))
  | VSpecial NaN | VSpecial PosInf => Ok false
  | VSpecial NegInf => Ok true
  | VInt z => Ok (negb (Qle_bool now (inject_Z z)))
  | VBool b => Ok (negb (Qle_bool now (if b then 1 else 0)))
  | _ => Raise (Exn TypeError "'>' not supported")
  end.

(** The body of the [try] of [load_from_cache]: [None] when the entry is
    stale, the stored result otherwise. *)
Definition read_entry (now : Q) (f : file) : res (option value) :=
  match f with
  | Garbage => Raise (Exn ValueError "Expecting value")
  | Json (VDict data) =>
      try stale <- later_than now (get_default data "expiry" (VInt 0)) in
      if stale then Ok None else Ok (Some (get data "result"))
  | Json _ => Raise (Exn AttributeError "object has no attribute 'get'")
  end.

(** [load_from_cache(key)] at time [now]. *)
Definition load_from_cache (cfg : config) (now : Q) (d : disk) (key : string)
  : value * disk :=
  let path := _get_cache_path cfg key in
  match files d !! path with
  | None => (VNone, d)
  | Some f =>
      match read_entry now f with
      | Ok (Some result) => (result, d)
      | Ok None => (VNone, remove_quietly d path)
      | Raise _ => (VNone, remove_quietly d path)
      end
  end.

(** [save_to_cache(key, result)] at time [now]. *)
Definition save_to_cache (cfg : config) (now : Q) (d : disk) (key : string)
    (result : value) : disk :=
  let path := _get_cache_path cfg key in
  if writable d path
  then {| files :=
            <[path := Json (VDict [("expiry",
                                    VFloat (now + inject_Z (CACHE_TTL cfg)));
                                   ("result", result)])]> (files d);
          writable := writable d; removable := removable d;
          ops := (ops d ++ [Write path])%list |}
  else d.

(** [os.remove(path)]: the disk without the file, or nothing when the call
    raises, for want of a file at [path] or of the right to remove it. *)
Definition os_remove (d : disk) (path : string) : option disk :=
  match files d !! path with
  | Some _ =>
      if removable d path
      then Some {| files := delete path (files d); writable := writable d;
                   removable := removable d;
                   ops := (ops d ++ [Remove path])%list |}
      else None
  | None => None
  end.

(** The loop of [clear_cache] over the names that [os.listdir(CACHE_DIR)]
    has returned; [reason path] is the text of the error that a failing
    removal of [path] raises. *)
Fixpoint clear_loop (cfg : config) (reason : string -> string)
    (listing : list string) (d : disk) (removed failed : list value)
  : dict * disk :=
  match listing with
  | [] => ([("removed", VList removed); ("failed", VList failed)], d)
  | fname :: rest =>
      let path := path_join (CACHE_DIR cfg) fname in
      match os_remove d path with
      | Some d' =>
          clear_loop cfg reason rest d' (removed ++ [VStr fname])%list failed
      | None =>
          clear_loop cfg reason rest d removed
            (failed ++ [VDict [("file", VStr fname);
                               ("error", VStr (reason path))]])%list
      end
  end.

(** [clear_cache()] on the disk [d], for the listing [listing] of the
    cache directory. *)
Definition clear_cache (cfg : config) (reason : string -> string)
    (listing : list string) (d : disk) : dict * disk :=
  clear_loop cfg reason listing d [] [].

(** [cache_stats()] for the listing [listing] of the cache directory. *)
Definition cache_stats (cfg : config) (listing : list string) : dict :=
  [("cache_dir", VStr (CACHE_DIR cfg));
   ("cache_files", VInt (Z.of_nat (length listing)));
   ("files", VList (map VStr listing));
   ("ttl_seconds", VInt (CACHE_TTL cfg));
   ("version", VStr CACHE_VERSION)].

(* ================================================================== *)
(** * The caching step of the [/lyrics/] route of [src/router.py] *)
(* ================================================================== *)

(** [result.get("status") == "success"]. *)
Definition is_success (result : dict) : bool :=
  match get result "status" with
  | VStr s => String.eqb s "success"
  | _ => false
  end.

(** Step 5 of the route, "Cache if successful". *)
Definition cache_if_successful (cfg : config) (now : Q) (d : disk)
    (cache_key : string) (result : dict) : res disk :=
  if is_success result
  then
    match get_default result "data" (VDict []) with
    | VDict data =>
        if truthy (py_or (py_or (get data "lyrics") (get data "plain_lyrics"))
                         (get data "lyrics_text"))
        then Ok (save_to_cache cfg now d cache_key (VDict result))
        else Ok d
    | _ => Raise (Exn AttributeError "object has no attribute 'get'")
    end
  else Ok d.

(* ================================================================== *)
(** * [src/sentiment_analyzer.py] *)
(* ================================================================== *)

(** The library behind the analyzer, as far as it is used:
    [TextBlob(text).sentiment], the polarity and the subjectivity of a
    text, and [TextBlob(text).tags], its words with their part-of-speech
    tags.  Either may raise. *)
Class TextBlob : Type := {
  sentiment : string -> res (Q * Q);
  tags : string -> res (list (string * string))
}.

(** [x > y] and [x < y] on floats. *)
Definition Qgt_bool (x y : Q) : bool := negb (Qle_bool x y).
Definition Qlt_bool (x y : Q) : bool := negb (Qle_bool y x).

(** [sep.join(items)], which raises on an item that is not text. *)
Definition join_items (sep : string) (items : list value) : res string :=
  try texts <-
    map_res (fun item =>
               match item with
               | VStr s => Ok s
               | _ => Raise (Exn TypeError "sequence item: expected str instance")
               end) items in
  Ok (Text.join sep texts).

(** [item.get("text", "")] for an item of a list of timed lines. *)
Definition item_text (item : value) : res value :=
  match item with
  | VDict line => Ok (get_default line "text" (VStr ""))
  | _ => Raise (Exn AttributeError "object has no attribute 'get'")
  end.

(** [generate_mood_description(polarity, subjectivity)]. *)
Definition generate_mood_description (polarity subjectivity : Q) : string :=
  if Qgt_bool polarity (1 # 2) then
    if Qgt_bool subjectivity (3 # 5) then "Very Happy & Emotional"
    else if Qgt_bool subjectivity (3 # 10) then "Happy & Expressive"
    else "Uplifting & Positive"
  else if Qgt_bool polarity (1 # 4) then
    if Qgt_bool subjectivity (3 # 5) then "Joyful & Personal"
    else if Qgt_bool subjectivity (3 # 10) then "Cheerful"
    else "Optimistic"
  else if Qgt_bool polarity (1 # 10) then "Mildly Positive"
  else if Qgt_bool polarity (- (1 # 10)) then
    if Qgt_bool subjectivity (3 # 5) then "Introspective & Neutral"
    else if Qgt_bool subjectivity (3 # 10) then "Matter-of-fact"
    else "Neutral & Objective"
  else if Qgt_bool polarity (- (1 # 4)) then "Mildly Negative"
  else if Qgt_bool polarity (- (1 # 2)) then
    if Qgt_bool subjectivity (3 # 5) then "Sad & Emotional"
    else if Qgt_bool subjectivity (3 # 10) then "Melancholic"
    else "Dark"
  else
    if Qgt_bool subjectivity (3 # 5) then "Very Sad & Emotional"
    else if Qgt_bool subjectivity (3 # 10) then "Angry & Intense"
    else "Very Negative & Harsh".

(** [counts[word] = counts.get(word, 0) + 1]. *)
Fixpoint bump (counts : list (string * Z)) (word : string)
  : list (string * Z) :=
  match counts with
  | [] => [(word, 1)]
  | (w, n) :: r =>
      if String.eqb w word then (w, n + 1) :: r else (w, n) :: bump r word
  end.

(** One step of [sorted(..., key=lambda x: x[1], reverse=True)]: the item
    goes behind the items that are not less frequent. *)
Fixpoint insert_by_frequency (item : string * Z) (sorted : list (string * Z))
  : list (string * Z) :=
  match sorted with
  | [] => [item]
  | y :: r =>
      if snd y <? snd item then item :: sorted
      else y :: insert_by_frequency item r
  end.

(** [sorted(counts.items(), key=lambda x: x[1], reverse=True)]: by
    decreasing frequency, equally frequent words in the order of their
    first occurrence. *)
Definition sorted_by_frequency (counts : list (string * Z))
  : list (string * Z) :=
  fold_left (fun sorted item => insert_by_frequency item sorted) counts [].

(** [items[:top_n]]. *)
Definition slice_to {A : Type} (items : list A) (top_n : Z) : list A :=
  if top_n <? 0
  then firstn (length items - Z.to_nat (- top_n)) items
  else firstn (Z.to_nat top_n) items.

(** [[{"word": w, "frequency": f} for w, f in top]]. *)
Definition word_items (top : list (string * Z)) : value :=
  VList (map (fun wf => VDict [("word", VStr (fst wf));
                               ("frequency", VInt (snd wf))]) top).

Section Sentiment.
Context `{Builtins} `{TextBlob}.

(** [extract_lyrics_text(result)]. *)
Definition extract_lyrics_text (result : dict) : res string :=
  let lyrics_text :=
    py_or (py_or (py_or (py_or (py_or (get result "lyrics")
                                      (get result "plain_lyrics"))
                               (get result "lyrics_text"))
                        (get result "lyric"))
                 (get result "text"))
          (VStr "") in
  try lyrics_text <-
    match get result "timed_lyrics" with
    | VDict timed =>
        try joined <- join_items " " (map snd timed) in Ok (VStr joined)
    | VList timed =>
        try texts <- map_res item_text timed in
        try joined <- join_items " " texts in Ok (VStr joined)
    | _ => Ok lyrics_text
    end in
  Ok (Text.strip (py_str lyrics_text)).

(** [analyze_sentiment(lyrics_text)]. *)
Definition analyze_sentiment (lyrics_text : string) : dict :=
  if Text.is_empty lyrics_text
     || (Text.len (Text.strip lyrics_text) <? 10)%nat
  then [("polarity", VFloat 0);
        ("subjectivity", VFloat 0);
        ("mood", VStr "Unknown");
        ("mood_strength", VStr "Insufficient data");
        ("overall_mood", VStr "Not enough lyrics to analyze")]
  else
    match sentiment lyrics_text with
    | Ok (polarity, subjectivity) =>
        let mood :=
          if Qgt_bool polarity (1 # 10) then "Positive"
          else if Qlt_bool polarity (- (1 # 10)) then "Negative"
          else "Neutral" in
        let abs_polarity := Qabs polarity in
        let mood_strength :=
          if Qgt_bool abs_polarity (7 # 10) then "Very Strong"
          else if Qgt_bool abs_polarity (1 # 2) then "Strong"
          else if Qgt_bool abs_polarity (1 # 4) then "Moderate"
          else "Weak" in
        let overall_mood := generate_mood_description polarity subjectivity in
        [("polarity", VFloat (round3 polarity));
         ("subjectivity", VFloat (round3 subjectivity));
         ("mood", VStr mood);
         ("mood_strength", VStr mood_strength);
         ("overall_mood", VStr overall_mood)]
    | Raise e =>
        [("polarity", VFloat 0);
         ("subjectivity", VFloat 0);
         ("mood", VStr "Unknown");
         ("mood_strength", VStr "Error");
         ("overall_mood", VStr ("Analysis failed: " ++ exn_msg e))]
    end.

(** The loop of [analyze_word_frequency] over the selected words:
    [(positive_words, negative_words)] when it ends. *)
Fixpoint count_words (words : list string)
    (positive_words negative_words : list (string * Z))
  : res (list (string * Z) * list (string * Z)) :=
  match words with
  | [] => Ok (positive_words, negative_words)
  | word :: rest =>
      try scores <- sentiment word in
      let polarity := fst scores in
      if Qgt_bool polarity (1 # 10)
      then count_words rest (bump positive_words word) negative_words
      else if Qlt_bool polarity (- (1 # 10))
      then count_words rest positive_words (bump negative_words word)
      else count_words rest positive_words negative_words
  end.

(** The body of the [try] of [analyze_word_frequency]: the two top
    lists. *)
Definition top_words (lyrics_text : string) (top_n : Z)
  : res (list (string * Z) * list (string * Z)) :=
  try tagged <- tags lyrics_text in
  let words :=
    map (fun t => Text.lower (fst t))
        (List.filter (fun t => String.eqb (snd t) "NN"
                               || String.eqb (snd t) "JJ") tagged) in
  try counts <- count_words words [] [] in
  Ok (slice_to (sorted_by_frequency (fst counts)) top_n,
      slice_to (sorted_by_frequency (snd counts)) top_n).

(** [analyze_word_frequency(lyrics_text, top_n)]. *)
Definition analyze_word_frequency (lyrics_text : string) (top_n : Z) : dict :=
  if Text.is_empty lyrics_text
  then [("positive_words", VList []); ("negative_words", VList [])]
  else
    match top_words lyrics_text top_n with
    | Ok (top_positive, top_negative) =>
        [("positive_words", word_items top_positive);
         ("negative_words", word_items top_negative)]
    | Raise _ => [("positive_words", VList []); ("negative_words", VList [])]
    end.

End Sentiment.

(* ================================================================== *)
(** * The [/lyrics/] route of [src/router.py] *)
(* ================================================================== *)

(** [request.args.get(key)]: the first value given for [key] in the query
    string. *)
Definition args_get (args : list (string * string)) (key : string)
  : option string :=
  match find (fun kv => String.eqb (fst kv) key) args with
  | Some kv => Some (snd kv)
  | None => None
  end.

(** [request.args.get(key, default)]. *)
Definition args_get_default (args : list (string * string))
    (key default : string) : string :=
  match args_get args key with
  | Some v => v
  | None => default
  end.

(** [request.args.get(key, "false").lower() == "true"]. *)
Definition args_flag (args : list (string * string)) (key : string) : bool :=
  String.eqb (Text.lower (args_get_default args key "false")) "true".

(** What the view function hands to Flask: the JSON body and the status
    code. *)
Record reply : Type := { body : value; status_code : Z }.

(** The error bodies of the route; [stamp] is
    [datetime.now(timezone.utc).isoformat()]. *)
Definition route_error (message : string) (details : option string)
    (stamp : string) : value :=
  VDict [("status", VStr "error");
         ("error",
          VDict (("message", VStr message)
                 :: match details with
                    | Some text => [("details", VStr text)]
                    | None => []
                    end
                 ++ [("timestamp", VStr stamp)])%list)].

(** What surrounds the route: the providers and the event loop, the cache
    settings, what [run_async(..., timeout=60)] raises in place of the
    response of a run of the controller that takes longer than the time
    allowed (nothing for a run that ends in time), and what
    [enhance_lyrics_with_metadata] stores under the key [metadata] for an
    artist and a song. *)
Record server : Type := {
  providers : world;
  settings : config;
  overdue : run -> option exn;
  song_metadata : string -> string -> value
}.

(** What handling one request leaves behind: the reply, or the exception
    that escapes the view function; the disk; and the run of the
    controller, if one was started. *)
Record served : Type := {
  answer : res reply;
  storage : disk;
  fetched : option run
}.

(** [run_async(coro, timeout=60)] for a run of the controller: its
    response; the exception of [overdue] when the time allowed runs out;
    the exception that the run raises, which the handler of
    [asyncio.TimeoutError] replaces by a plain [Exception]. *)
Definition run_async (srv : server) (r : run) : res dict :=
  match overdue srv r with
  | Some e => Raise e
  | None =>
      match response r with
      | Raise e =>
          match exn_cls e with
          | TimeoutError =>
              Raise (Exn OtherError
                         "Request timed out - operation took too long")
          | _ => Raise e
          end
      | Ok result => Ok result
      end
  end.

Section Route.
Context `{Builtins} `{TextBlob}.

(** Step 3 of the route, "Analyze mood if requested", for a response with
    the status "success". *)
Definition analyze_mood_step (result : dict) : res dict :=
  match get_default result "data" (VDict []) with
  | VDict data =>
      try lyrics_text <- extract_lyrics_text data in
      if negb (Text.is_empty lyrics_text)
      then
        Ok (set_item result "mood_analysis"
              (VDict [("sentiment", VDict (analyze_sentiment lyrics_text));
                      ("top_words",
                       VDict (analyze_word_frequency lyrics_text 5))]))
      else
        Ok (set_item result "mood_analysis"
              (VDict [("error",
                       VStr "Unable to extract lyrics for analysis")]))
  | _ => Raise (Exn AttributeError "object has no attribute 'get'")
  end.

(** Steps 3 to 5 of the route on the response of the controller: the
    response sent and the disk, or the exception that escapes. *)
Definition finish (srv : server) (later : Q) (d : disk)
    (artist song cache_key : string) (analyze_mood include_metadata : bool)
    (result : dict) : res (dict * disk) :=
  try result <-
    (if analyze_mood && is_success result
     then analyze_mood_step result else Ok result) in
  let result :=
    if include_metadata && is_success result
    then set_item result "metadata" (song_metadata srv artist song)
    else result in
  try d <- cache_if_successful (settings srv) later d cache_key result in
  Ok (result, d).

(** Steps 2 to 5 of the route, taken when the cache holds nothing for the
    request. *)
Definition fetch_fresh (srv : server) (later : Q) (stamp : string) (d : disk)
    (artist song : string) (timestamps pass_param : bool)
    (sequence : option string) (fast_mode analyze_mood include_metadata : bool)
    (cache_key : string) : served :=
  let r :=
    fetch_lyrics_controller (providers srv) artist song timestamps
                            pass_param sequence fast_mode in
  match run_async srv r with
  | Raise e =>
      {| answer :=
           Ok (match exn_cls e with
               | TimeoutError =>
                   {| body := route_error "Request timed out"
                                (Some "Lyrics fetch took too long") stamp;
                      status_code := 504 |}
               | _ =>
                   {| body := route_error "Failed to fetch lyrics"
                                (Some (exn_msg e)) stamp;
                      status_code := 500 |}
               end);
         storage := d; fetched := Some r |}
  | Ok result =>
      match finish srv later d artist song cache_key analyze_mood
                   include_metadata result with
      | Ok (result, d') =>
          {| answer := Ok {| body := VDict result; status_code := 200 |};
             storage := d'; fetched := Some r |}
      | Raise e => {| answer := Raise e; storage := d; fetched := Some r |}
      end
  end.

(** The view function [lyrics()] for the query string [args], on the disk
    [d]; [now] and [later] are the readings of [time()] when the cache is
    looked up and when the response is stored, [stamp] the formatted date
    of the error bodies. *)
Definition lyrics (srv : server) (now later : Q) (stamp : string) (d : disk)
    (args : list (string * string)) : served :=
  let artist := Text.strip (args_get_default args "artist" "") in
  let song := Text.strip (args_get_default args "song" "") in
  let timestamps := args_flag args "timestamps" || args_flag args "timestamp" in
  let pass_param := args_flag args "pass" in
  let sequence := args_get args "sequence" in
  let fast_mode := args_flag args "fast" in
  let analyze_mood := args_flag args "mood" in
  let include_metadata := args_flag args "metadata" in
  let refuse message :=
    {| answer := Ok {| body := route_error message None stamp;
                       status_code := 400 |};
       storage := d; fetched := None |} in
  if Text.is_empty artist || Text.is_empty song
  then refuse "Artist and song name are required"
  else if pass_param
          && match sequence with
             | Some text => Text.is_empty text
             | None => true
             end
  then refuse "Sequence parameter is required when pass=true"
  else
    let cache_key :=
      make_cache_key artist song timestamps sequence fast_mode analyze_mood
                     include_metadata in
    let '(cached, d) := load_from_cache (settings srv) now d cache_key in
    if truthy cached
    then {| answer := Ok {| body := cached; status_code := 200 |};
            storage := d; fetched := None |}
    else fetch_fresh srv later stamp d artist song timestamps pass_param
                     sequence fast_mode analyze_mood include_metadata
                     cache_key.

End Route.

(* ================================================================== *)
(** * The [/lyrics/] route of [src/main.py] *)
(* ================================================================== *)

Module Main.

(** [raise HTTPException(status_code=..., detail=...)], as the framework
    renders it: the detail under the key [detail]. *)
Definition http_exception (code : Z) (detail : value) : reply :=
  {| body := VDict [("detail", detail)]; status_code := code |}.

Section Route.
Context `{Builtins} `{TextBlob}.

(** The step "Mood analysis" for a response with the status "success":
    without lyric text the response stays as it is. *)
Definition analyze_mood_step (result : dict) : res dict :=
  match get_default result "data" (VDict []) with
  | VDict data =>
      try lyrics_text <- extract_lyrics_text data in
      if negb (Text.is_empty lyrics_text)
      then
        Ok (set_item result "mood_analysis"
              (VDict [("sentiment", VDict (analyze_sentiment lyrics_text));
                      ("top_words",
                       VDict (analyze_word_frequency lyrics_text 5))]))
      else Ok result
  | _ => Raise (Exn AttributeError "object has no attribute 'get'")
  end.

(** The steps "Mood analysis", "Metadata" and "Cache". *)
Definition finish (srv : server) (later : Q) (d : disk)
    (artist song cache_key : string) (mood metadata : bool)
    (result : dict) : res (dict * disk) :=
  try result <-
    (if mood && is_success result
     then analyze_mood_step result else Ok result) in
  let result :=
    if metadata && is_success result
    then set_item result "metadata" (song_metadata srv artist song)
    else result in
  try d <- cache_if_successful (settings srv) later d cache_key result in
  Ok (result, d).

(** The handler [lyrics(request, artist, song, country, timestamps,
    timestamp, pass_param, sequence, fast, mood, metadata)], with the
    query parameters as the framework hands them over; the run of the
    controller is cut off by [asyncio.wait_for] when it is overdue.  The
    rate limit of the decorator answers before the handler runs and is
    not part of it. *)
Definition lyrics (srv : server) (now later : Q) (stamp : string) (d : disk)
    (artist song : option string) (timestamps timestamp pass_param : bool)
    (sequence : option string) (fast mood metadata : bool) : served :=
  let artist := Text.strip (match artist with Some a => a | None => "" end) in
  let song := Text.strip (match song with Some s => s | None => "" end) in
  let timestamps := timestamps || timestamp in
  let refuse message :=
    {| answer := Ok (http_exception 400 (route_error message None stamp));
       storage := d; fetched := None |} in
  if Text.is_empty artist || Text.is_empty song
  then refuse "Artist and song name are required"
  else if pass_param
          && match sequence with
             | Some text => Text.is_empty text
             | None => true
             end
  then refuse "Sequence parameter is required when pass=true"
  else
    let cache_key :=
      make_cache_key artist song timestamps sequence fast mood metadata in
    let '(cached, d) := load_from_cache (settings srv) now d cache_key in
    if truthy cached
    then {| answer := Ok {| body := cached; status_code := 200 |};
            storage := d; fetched := None |}
    else
      let r :=
        fetch_lyrics_controller (providers srv) artist song timestamps
                                pass_param sequence fast in
      let timed_out :=
        {| answer :=
             Ok (http_exception 504
                   (route_error "Request timed out"
                      (Some "Lyrics fetch took too long") stamp));
           storage := d; fetched := Some r |} in
      match overdue srv r with
      | Some _ => timed_out
      | None =>
          match response r with
          | Raise e =>
              match exn_cls e with
              | TimeoutError => timed_out
              | _ =>
                  {| answer :=
                       Ok (http_exception 500
                             (route_error "Failed to fetch lyrics"
                                (Some (exn_msg e)) stamp));
                     storage := d; fetched := Some r |}
              end
          | Ok result =>
              match finish srv later d artist song cache_key mood metadata
                           result with
              | Ok (result, d') =>
                  {| answer := Ok {| body := VDict result;
                                     status_code := 200 |};
                     storage := d'; fetched := Some r |}
              | Raise e =>
                  {| answer := Raise e; storage := d; fetched := Some r |}
              end
          end
      end.

End Route.
End Main.

(* ================================================================== *)
(** * Vocabulary of the statements *)
(* ================================================================== *)

(** The interpreter's [str()] used when the model is run on a concrete
    request: the text of [None], of a boolean and of an integer; floats,
    lists and dictionaries, which no request below passes to [str()], are
    left without text. *)
#[export] Instance cpython_str : Builtins :=
  {| str_object v :=
       match v with
       | VNone => "None"
       | VBool true => "True"
       | VBool false => "False"
       | VInt z => NilZero.string_of_int (Z.to_int z)
       | _ => ""
       end |}.

(** Stated from the acceptance rule of the specification: the three ways
    in which one requested artist name can match a candidate. *)
Definition spec_artist_list (threshold : Q) (returned_artists : list string)
    (req : string) : Prop :=
  exists ret, In ret returned_artists
              /\ (threshold <= get_similarity_ratio req ret)%Q.

Definition spec_partial_artist_string (returned_artists : list string)
    (req : string) : Prop :=
  (3 < Text.len req)%nat
  /\ Text.contains (Text.join " " returned_artists) req = true.

Definition spec_song_title (returned_song req : string) : Prop :=
  (3 < Text.len req)%nat /\ Text.contains returned_song req = true.

(** One requested name matches by some method. *)
Definition spec_artist_matches (threshold : Q)
    (returned_artists : list string) (returned_song req : string) : Prop :=
  spec_artist_list threshold returned_artists req
  \/ spec_partial_artist_string returned_artists req
  \/ spec_song_title returned_song req.

(** [tag] is the tag of the first method, in the order a, b, c, by which
    [req] matches. *)
Definition spec_first_method (threshold : Q) (returned_artists : list string)
    (returned_song req tag : string) : Prop :=
  (spec_artist_list threshold returned_artists req /\ tag = "Artist List")
  \/ (~ spec_artist_list threshold returned_artists req
      /\ spec_partial_artist_string returned_artists req
      /\ tag = "Partial Artist String")
  \/ (~ spec_artist_list threshold returned_artists req
      /\ ~ spec_partial_artist_string returned_artists req
      /\ spec_song_title returned_song req
      /\ tag = "Song Title").

(** The candidate that a call of an adapter hands to the matcher: the
    result it returns, when there is one and it meets the timestamp
    requirement. *)
Definition candidate (timestamps : bool) (c : fetch_call) : option dict :=
  match outcome c with
  | Returns (Some d) => if usable timestamps (Some d) then Some d else None
  | _ => None
  end.

(** The candidate passes validation at the threshold of the controller. *)
Definition validates `{Builtins} (artist_name song_title : string)
    (d : dict) : Prop :=
  exists verdict,
    validate_lyrics_match artist_name song_title d (3 # 4) = Ok verdict
    /\ truthy (get verdict "valid") = true.

(** The attempt records of the sequential loop. *)
Definition seq_attempt (api_name status : string) (attempt : value) : Prop :=
  exists more,
    attempt = VDict (("api", VStr api_name) :: ("status", VStr status) :: more).

(** The name under which a provider index is listed. *)
Definition api_name_of (w : world) (fetcher_id : Z) : string :=
  match all_fetchers w fetcher_id with
  | Some (api_name, _) => api_name
  | None => ""
  end.

(** The provider index has an adapter registered. *)
Definition configured (w : world) (fetcher_id : Z) : bool :=
  match all_fetchers w fetcher_id with
  | Some (_, Some _) => true
  | _ => false
  end.

(** The provider is listed and, if its adapter is called for the request,
    it hands over no candidate that validates. *)
Definition yields_no_valid_candidate `{Builtins} (w : world)
    (artist_name song_title : string) (timestamps : bool) (fetcher_id : Z)
  : Prop :=
  exists api_name registered,
    all_fetchers w fetcher_id = Some (api_name, registered)
    /\ forall f, registered = Some f ->
         forall d, candidate timestamps (f artist_name song_title timestamps)
                   = Some d ->
                   ~ validates artist_name song_title d.

(** A record of the sequential loop for the provider [fetcher_id]. *)
Definition skipped_attempt (w : world) (fetcher_id : Z) (attempt : value)
  : Prop :=
  exists status,
    seq_attempt (api_name_of w fetcher_id) status attempt
    /\ In status ["not_configured"; "validation_failed"; "no_results"; "error"].

(** ** Concrete surroundings on which the model is evaluated *)

Fixpoint lookup_call (key : string) (table : list (string * fetch_call))
  : option fetch_call :=
  match table with
  | [] => None
  | (k, c) :: r => if String.eqb k key then Some c else lookup_call key r
  end.

(** The world in which each registered adapter answers every request with
    the call given for it in [table]. *)
Definition world_of (table : list (string * fetch_call))
    (completion : list (list nat)) : world :=
  {| ALL_FETCHERS key :=
       match lookup_call key table with
       | Some c => Some (fun _ _ _ => c)
       | None => None
       end;
     completion := completion;
     utc_now := "2024-01-01 00:00:00" |}.

(** A result for "Hello" by Adele with a synchronised track. *)
Definition hello_synced (source : string) : dict :=
  [("source", VStr source); ("artist", VStr "Adele"); ("title", VStr "Hello");
   ("lyrics", VStr "Hello, it's me");
   ("timed_lyrics",
    VList [VDict [("text", VStr "Hello, it's me"); ("start_time", VInt 0);
                  ("end_time", VInt 4000); ("id", VStr "lrc_0")]]);
   ("hasTimestamps", VBool true)].

(** A result for another song. *)
Definition other_song (source : string) : dict :=
  [("source", VStr source); ("artist", VStr "Lionel Richie");
   ("title", VStr "Dancing on the Ceiling");
   ("lyrics", VStr "What is happening here");
   ("timed_lyrics",
    VList [VDict [("text", VStr "What is happening here");
                  ("start_time", VInt 0); ("end_time", VInt 4000);
                  ("id", VStr "lrc_0")]]);
   ("hasTimestamps", VBool true)].

Definition after_seconds (seconds : Q) (result : dict) : fetch_call :=
  {| elapsed := seconds; outcome := Returns (Some result) |}.

(** LRCLIB answers with another song, SimpMusic with the requested one,
    YouTube Music too. *)
Definition second_provider_matches : world :=
  world_of [("lrclib", after_seconds 1 (other_song "lrclib"));
            ("simpmusic", after_seconds 1 (hello_synced "simpmusic"));
            ("youtube", after_seconds 1 (hello_synced "youtube_music"))]
           [].

(** The result carries no synchronised data: neither the flag, nor a
    timed track, nor a time-coded text. *)
Definition lacks_timestamps (d : dict) : Prop :=
  truthy (get d "hasTimestamps") = false
  /\ truthy (get d "timed_lyrics") = false
  /\ truthy (get d "timestamped") = false.

(** The result carries a timed track or a time-coded text. *)
Definition carries_timing (d : dict) : Prop :=
  truthy (get d "timed_lyrics") = true \/ truthy (get d "timestamped") = true.

(** What the SimpMusic adapter returns for "Hello" by Adele when the
    service has a time-coded text of which the adapter can read no line
    (the time codes have three decimals, the adapter reads up to two): the
    text under "timestamped", neither a track nor the flag. *)
Definition hello_time_coded : dict :=
  [("source", VStr "simpmusic"); ("artist", VStr "Adele");
   ("title", VStr "Hello"); ("lyrics", VStr "Hello, it's me");
   ("timestamped", VStr "[00:00.000]Hello, it's me");
   ("timestamp", VStr "2024-01-01 00:00:00")].

(** A result for "Hello" by Adele with plain lyrics only. *)
Definition hello_plain : dict :=
  [("source", VStr "lrclib"); ("artist", VStr "Adele"); ("title", VStr "Hello");
   ("lyrics", VStr "Hello, it's me")].

Definition plain_only_world : world :=
  world_of [("lrclib", after_seconds 1 hello_plain)] [[0%nat]].

(** LRCLIB has nothing, SimpMusic answers with the time-coded text. *)
Definition time_coded_world : world :=
  world_of [("lrclib", {| elapsed := 1; outcome := Returns None |});
            ("simpmusic", after_seconds 1 hello_time_coded)]
           [[0%nat; 1%nat]].

(** Two worlds whose adapters end every call in the same way; the calls
    may take different times. *)
Definition same_outcomes (w w' : world) : Prop :=
  utc_now w = utc_now w'
  /\ forall key,
       match ALL_FETCHERS w key, ALL_FETCHERS w' key with
       | Some f, Some f' =>
           forall artist song timestamps,
             outcome (f artist song timestamps)
             = outcome (f' artist song timestamps)
       | None, None => True
       | _, _ => False
       end.

(** Genius answers with the requested song after [seconds] seconds. *)
Definition genius_after (seconds : Q) : world :=
  world_of [("genius", after_seconds seconds hello_plain)] [[0%nat]].

(** The attempt records of a race. *)
Definition successful_attempt (api_name : string) (d : dict) : value :=
  VDict [("api", VStr api_name); ("result", VDict d); ("success", VBool true)].

Definition failed_attempt (attempt : value) : Prop :=
  exists api_name reason,
    attempt = VDict [("api", VStr api_name); ("success", VBool false);
                     ("reason", VStr reason)].

(** A race task ends as a success that carries a non-empty result, or as
    a failure. *)
Definition task_shape (attempt : dict) : Prop :=
  (exists api_name d,
     VDict attempt = successful_attempt api_name d
     /\ truthy (VDict d) = true)
  \/ failed_attempt (VDict attempt).



(** LRCLIB and SimpMusic both answer with the requested song; the event
    loop reports both tasks as done at once and the set of finished tasks
    is iterated with SimpMusic's first. *)
Definition both_match : world :=
  world_of [("lrclib", after_seconds 1 (hello_synced "lrclib"));
            ("simpmusic", after_seconds 1 (hello_synced "simpmusic"))]
           [[1%nat; 0%nat]].

(** The default settings, and an empty cache directory in which every
    file operation succeeds. *)
Definition default_config : config :=
  {| CACHE_DIR := "cache_data"; CACHE_TTL := 300 |}.

Definition empty_disk : disk :=
  {| files := ∅; writable := fun _ => true; removable := fun _ => true;
     ops := [] |}.

(** The request as [make_cache_key] sees it: artist and song trimmed and
    lowercased, a missing sequence read as the empty one, the flags as
    given. *)
Definition canonical_request (artist song : string) (timestamps : bool)
    (sequence : option string) (fast mood metadata : bool)
  : string * string * bool * string * bool * bool * bool :=
  (Text.lower (Text.strip artist), Text.lower (Text.strip song), timestamps,
   match sequence with Some s => s | None => "" end, fast, mood, metadata).

(** The text that [make_cache_key] hashes. *)
Definition hashed_text (artist song : string) (timestamps : bool)
    (sequence : option string) (fast mood metadata : bool) : string :=
  json_dumps (key_payload artist song timestamps sequence fast mood metadata).

Definition is_hex (c : ascii) : bool :=
  Text.is_digit c || ((97 <=? Text.code c) && (Text.code c <=? 102))%nat.

Definition hex_value (c : ascii) : nat :=
  if Text.is_digit c then Text.code c - 48 else Text.code c - 87.

(** Reading back the first character of an escaped JSON string: the
    character and the rest of the text, or nothing at the closing quote. *)
Definition json_unescape (l : list ascii) : option (ascii * list ascii) :=
  match l with
  | [] => None
  | c :: r =>
      if Ascii.eqb c dquote then None
      else if Ascii.eqb c backslash then
        match r with
        | e :: r' =>
            if Ascii.eqb e dquote then Some (dquote, r')
            else if Ascii.eqb e backslash then Some (backslash, r')
            else if Ascii.eqb e "b" then Some (ascii_of_nat 8, r')
            else if Ascii.eqb e "f" then Some (ascii_of_nat 12, r')
            else if Ascii.eqb e "n" then Some (ascii_of_nat 10, r')
            else if Ascii.eqb e "r" then Some (ascii_of_nat 13, r')
            else if Ascii.eqb e "t" then Some (ascii_of_nat 9, r')
            else
              match r' with
              | _ :: _ :: h1 :: h2 :: r'' =>
                  Some (ascii_of_nat (16 * hex_value h1 + hex_value h2), r'')
              | _ => None
              end
        | [] => None
        end
      else Some (c, r)
  end.

(** Two fields of the same JSON type. *)
Definition same_kind (f f' : field) : Prop :=
  match f, f' with
  | FStr _, FStr _ => True
  | FBool _, FBool _ => True
  | _, _ => False
  end.

(** Two items with the same key and values of the same type. *)
Definition same_slot (i i' : string * field) : Prop :=
  fst i = fst i' /\ same_kind (snd i) (snd i').

(** LRCLIB answers with a result whose artist list holds a number. *)
Definition hello_bad_artist : dict :=
  [("source", VStr "lrclib"); ("artist", VList [VInt 5]);
   ("title", VStr "Hello"); ("lyrics", VStr "Hello, it's me")].

Definition bad_artist_world : world :=
  world_of [("lrclib", after_seconds 1 hello_bad_artist)] [[0%nat]].

(** No provider of the world below returns anything: LRCLIB raises,
    SimpMusic returns nothing, YouTube Music needs 30 seconds. *)
Definition nothing_found : world :=
  world_of [("lrclib",
             {| elapsed := 1;
                outcome := Raises (Exn OtherError "connection refused") |});
            ("simpmusic", {| elapsed := 1; outcome := Returns None |});
            ("youtube", after_seconds 30 (other_song "youtube_music"))]
           [[1%nat]; [0%nat]].

(** The keys under which a result may carry its artist. *)
Definition artist_keys : list string :=
  ["artist"; "artists"; "artist_name"; "trackArtist"].

(** Artist metadata that the normalisation can read: anything but a list
    that holds a non-empty object which is not text. *)
Definition readable_artist (v : value) : Prop :=
  match v with
  | VList l => Forall (fun a => truthy a = true -> exists s, a = VStr s) l
  | _ => True
  end.

(** The text is ASCII: every character is a code point below 128. *)
Definition ascii_text (s : string) : Prop :=
  forallb (fun c => (Text.code c <? 128)%nat) (Text.chars s) = true.

(** The characters of a normalised string: lowercase letters, digits,
    the underscore and the blank. *)
Definition normal_char (c : ascii) : bool :=
  Text.is_lower c || Text.is_digit c || (Text.code c =? 95)%nat
  || Ascii.eqb c " ".

(** Every white space character of [l] is a blank and no blank follows a
    blank; [after_blank] tells that a blank precedes [l]. *)
Fixpoint single_spaced (after_blank : bool) (l : list ascii) : bool :=
  match l with
  | [] => true
  | c :: r =>
      if Ascii.eqb c " " then negb after_blank && single_spaced true r
      else negb (Text.is_space c) && single_spaced false r
  end.

(** [strip] on characters. *)
Definition strip_chars (l : list ascii) : list ascii :=
  rev (Text.lstrip_chars (rev (Text.lstrip_chars l))).

(** The steps of [normalize_string] on the characters of a non-empty
    text. *)
Definition normalize_chars (l : list ascii) : list ascii :=
  strip_chars
    (map Text.lower_char
         (Regex.collapse_spaces false (Regex.drop_punctuation l))).

(** A matching block lies inside texts of lengths [la] and [lb]. *)
Definition block_inside (la lb : nat) (block : nat * nat * nat) : Prop :=
  let '(i, j, k) := block in (i + k <= la)%nat /\ (j + k <= lb)%nat.

(** The entries of a row of match lengths, the first of which belongs to
    position [j0] of [b], after [i] characters of [a]. *)
Definition row_bounded (i j0 : nat) (row : list nat) : Prop :=
  forall n k, nth_error row n = Some k -> (k <= i)%nat /\ (k <= j0 + n + 1)%nat.

(** The expiry has not passed at time [now]: it is a number (a float, an
    integer or a truth value, which counts as 1 or 0) that the clock has
    not gone beyond, or positive infinity, or the float [nan], which the
    clock never goes beyond since every comparison with it is false. *)
Definition not_passed (now : Q) (expiry : value) : Prop :=
  match expiry with
  | VFloat q => (now <= q)%Q
  | VInt z => (now <= inject_Z z)%Q
  | VBool b => (now <= (if b then 1 else 0))%Q
  | VSpecial NaN | VSpecial PosInf => True
  | _ => False
  end.

(** A file holds a fresh entry for [result] at time [now]: a JSON object
    whose expiry (0 when it has none) has not passed, and whose item
    [result] is [result] ([None] when it has none). *)
Definition fresh_entry (now : Q) (f : file) (result : value) : Prop :=
  exists data,
    f = Json (VDict data)
    /\ not_passed now (get_default data "expiry" (VInt 0))
    /\ get data "result" = result.

(** The disk after the file at [path] has been removed. *)
Definition without_file (d : disk) (path : string) : disk :=
  {| files := delete path (files d); writable := writable d;
     removable := removable d; ops := (ops d ++ [Remove path])%list |}.

(** Two cached responses for the witnesses below. *)
Definition hello_response : value :=
  VDict [("status", VStr "success");
         ("data", VDict [("lyrics", VStr "Hello, it's me")])].

Definition skyfall_response : value :=
  VDict [("status", VStr "success");
         ("data", VDict [("lyrics", VStr "This is the end")])].

Definition hello_key : string :=
  make_cache_key "Adele" "Hello" false None false false false.

Definition skyfall_key : string :=
  make_cache_key "Adele" "Skyfall" false None false false false.

(** What [os.path.join] puts before a relative name: the directory, with
    a separator unless it is empty or ends in one. *)
Definition dir_prefix (a : string) : string :=
  match rev (Text.chars a) with
  | [] => ""
  | "/"%char :: _ => a
  | _ => a ++ "/"
  end.

(** The descriptions of [generate_mood_description], by the side of the
    scale they name. *)
Definition positive_descriptions : list string :=
  ["Very Happy & Emotional"; "Happy & Expressive"; "Uplifting & Positive";
   "Joyful & Personal"; "Cheerful"; "Optimistic"; "Mildly Positive"].

Definition neutral_descriptions : list string :=
  ["Introspective & Neutral"; "Matter-of-fact"; "Neutral & Objective"].

Definition negative_descriptions : list string :=
  ["Mildly Negative"; "Sad & Emotional"; "Melancholic"; "Dark";
   "Very Sad & Emotional"; "Angry & Intense"; "Very Negative & Harsh"].

(** The mood of an analysis and its description name the same side. *)
Definition mood_agrees (analysis : dict) : Prop :=
  exists mood overall,
    get analysis "mood" = VStr mood
    /\ get analysis "overall_mood" = VStr overall
    /\ ((mood = "Positive" /\ In overall positive_descriptions)
        \/ (mood = "Neutral" /\ In overall neutral_descriptions)
        \/ (mood = "Negative" /\ In overall negative_descriptions)).

(** How often a word occurs in a list of words. *)
Definition occurrences (word : string) (words : list string) : Z :=
  Z.of_nat (length (List.filter (String.eqb word) words)).

(** No entry of the list is more frequent than an entry before it. *)
Definition descending (top : list (string * Z)) : Prop :=
  StronglySorted (fun a b => snd b <= snd a) top.

(** The count of a word in a table of counts, 0 when it has none. *)
Definition frequency (counts : list (string * Z)) (word : string) : Z :=
  match find (fun wf => String.eqb (fst wf) word) counts with
  | Some wf => snd wf
  | None => 0
  end.

(** The words of a tagged text that [analyze_word_frequency] looks at:
    the nouns and adjectives, in lower case. *)
Definition selected_words (tagged : list (string * string)) : list string :=
  map (fun t => Text.lower (fst t))
      (List.filter (fun t => String.eqb (snd t) "NN"
                             || String.eqb (snd t) "JJ") tagged).

Section WordPolarity.
Context `{TextBlob}.

(** The word alone has a polarity above 0.1, resp. below -0.1. *)
Definition is_positive (word : string) : bool :=
  match sentiment word with
  | Ok scores => Qgt_bool (fst scores) (1 # 10)
  | Raise _ => false
  end.

Definition is_negative (word : string) : bool :=
  match sentiment word with
  | Ok scores => negb (Qgt_bool (fst scores) (1 # 10))
                 && Qlt_bool (fst scores) (- (1 # 10))
  | Raise _ => false
  end.

(** [top] is a top list of the words of [lyrics_text] that [keep] selects:
    at most [top_n] entries when [top_n] is not negative, by decreasing
    frequency, no word twice, each with the number of its occurrences
    among the nouns and adjectives of the text. *)
Definition top_list_of (keep : string -> bool) (lyrics_text : string)
    (top_n : Z) (top : list (string * Z)) : Prop :=
  (0 <= top_n -> Z.of_nat (length top) <= top_n)
  /\ descending top
  /\ List.NoDup (map fst top)
  /\ (forall tagged w f,
        tags lyrics_text = Ok tagged -> In (w, f) top ->
        keep w = true /\ f = occurrences w (selected_words tagged) /\ 1 <= f).

End WordPolarity.

(** The object is text. *)
Definition is_text (v : value) : bool :=
  match v with VStr _ => true | _ => false end.

(** An item of a list of timed lines that [extract_lyrics_text] can read:
    a dictionary whose [text], if it has one, is text. *)
Definition readable_line (item : value) : bool :=
  match item with
  | VDict line => is_text (get_default line "text" (VStr ""))
  | _ => false
  end.

(** What a result holds under [timed_lyrics] can be read: a dictionary of
    texts, a list of readable lines, or anything that is neither a
    dictionary nor a list. *)
Definition readable_timed_lyrics (timed : value) : bool :=
  match timed with
  | VDict lines => forallb (fun kv => is_text (snd kv)) lines
  | VList lines => forallb readable_line lines
  | _ => true
  end.

(** The object is a dictionary or a list. *)
Definition timed_lines (timed : value) : bool :=
  match timed with
  | VDict _ | VList _ => true
  | _ => false
  end.

(** The request as the route reads it from the query string. *)
Definition requested_artist (args : list (string * string)) : string :=
  Text.strip (args_get_default args "artist" "").

Definition requested_song (args : list (string * string)) : string :=
  Text.strip (args_get_default args "song" "").

Definition wants_timestamps (args : list (string * string)) : bool :=
  args_flag args "timestamps" || args_flag args "timestamp".

(** The request names an artist and a song, and a sequence if it sets the
    flag [pass]. *)
Definition acceptable (args : list (string * string)) : bool :=
  negb (Text.is_empty (requested_artist args)
        || Text.is_empty (requested_song args))
  && negb (args_flag args "pass"
           && match args_get args "sequence" with
              | Some text => Text.is_empty text
              | None => true
              end).

(** The cache key of the request, and the file of its entry. *)
Definition request_key (args : list (string * string)) : string :=
  make_cache_key (requested_artist args) (requested_song args)
                 (wants_timestamps args) (args_get args "sequence")
                 (args_flag args "fast") (args_flag args "mood")
                 (args_flag args "metadata").

Definition request_path (srv : server) (args : list (string * string))
  : string :=
  _get_cache_path (settings srv) (request_key args).

(** The answer is a reply with this status code. *)
Definition replies (s : served) (code : Z) : Prop :=
  exists content, answer s = Ok {| body := content; status_code := code |}.

(** The entry that [save_to_cache] writes for a response at [later]. *)
Definition entry_of (srv : server) (later : Q) (result : dict) : file :=
  Json (VDict [("expiry",
                VFloat (later + inject_Z (CACHE_TTL (settings srv))));
               ("result", VDict result)]).

(** The data of the response hold lyric text under one of the keys that
    the caching step looks at. *)
Definition has_lyric_text (result : dict) : Prop :=
  exists data,
    get result "data" = VDict data
    /\ truthy (py_or (py_or (get data "lyrics") (get data "plain_lyrics"))
                     (get data "lyrics_text")) = true.

(** A text and a TextBlob that scores it and three of its words. *)
Definition sample_lyrics : string :=
  "Happy happy love and a dark dark dark night".

Definition sample_scores (text : string) : Q * Q :=
  if String.eqb text "happy" then (4 # 5, 1)%Q
  else if String.eqb text "love" then (1 # 2, 3 # 5)%Q
  else if String.eqb text "dark" then (- (3 # 20), 2 # 5)%Q
  else if String.eqb text sample_lyrics then (- (1 # 10), 1 # 2)%Q
  else (0, 0)%Q.

Definition sample_blob : TextBlob :=
  {| sentiment text := Ok (sample_scores text);
     tags text :=
       if String.eqb text sample_lyrics
       then Ok [("Happy", "JJ"); ("happy", "JJ"); ("love", "NN");
                ("and", "CC"); ("a", "DT"); ("dark", "JJ"); ("dark", "JJ");
                ("dark", "JJ"); ("night", "NN")]
       else Ok [] |}.

(** A result whose timed lines are bare texts. *)
Definition hello_bare_lines : dict :=
  [("source", VStr "lrclib"); ("artist", VStr "Adele"); ("title", VStr "Hello");
   ("lyrics", VStr "Hello, it's me");
   ("timed_lyrics", VList [VStr "Hello, it's me"]);
   ("hasTimestamps", VBool true)].

(** Servers with the default settings, no time limit hit and no metadata:
    one whose second provider has the song, one whose providers all fail,
    one whose provider hands over bare lines. *)
Definition server_of (w : world) : server :=
  {| providers := w; settings := default_config;
     overdue := fun _ => None; song_metadata := fun _ _ => VDict [] |}.

Definition hello_server : server := server_of second_provider_matches.

Definition offline_server : server := server_of nothing_found.

Definition bare_lines_server : server :=
  server_of (world_of [("lrclib", after_seconds 1 hello_bare_lines)] []).

(** Requests for "Hello" by Adele: with a synchronised track, without a
    song, and with the mood analysis. *)
Definition hello_args : list (string * string) :=
  [("artist", " Adele "); ("song", "Hello"); ("timestamps", "TRUE")].

Definition mood_args : list (string * string) :=
  [("artist", "Adele"); ("song", "Hello"); ("timestamps", "true");
   ("mood", "true")].

(** The response that the first server sends for the first request. *)
Definition hello_reply : dict :=
  Eval vm_compute in
    match response (fetch_lyrics_controller (providers hello_server)
                      "Adele" "Hello" true false None false) with
    | Ok result => result
    | Raise _ => []
    end.

(** The parameters handed to the handler of [src/main.py] are the values
    that the view function of [src/router.py] reads from the query string
    [args]. *)
Definition read_from (args : list (string * string))
    (artist song : option string) (timestamps timestamp pass_param : bool)
    (sequence : option string) (fast mood metadata : bool) : Prop :=
  artist = args_get args "artist"
  /\ song = args_get args "song"
  /\ timestamps = args_flag args "timestamps"
  /\ timestamp = args_flag args "timestamp"
  /\ pass_param = args_flag args "pass"
  /\ sequence = args_get args "sequence"
  /\ fast = args_flag args "fast"
  /\ mood = args_flag args "mood"
  /\ metadata = args_flag args "metadata".

(** The length of the longest run of equal characters, none of them
    popular, at the heads of two reversed prefixes. *)
Fixpoint common (pop : ascii -> bool) (rx ry : list ascii) : nat :=
  match rx, ry with
  | x :: rx', y :: ry' =>
      if Ascii.eqb x y && negb (pop y) then S (common pop rx' ry') else O
  | _, _ => O
  end.

(** The row of match lengths for the reversed prefix [ra] of [a] against
    the prefixes of [b] that extend [done] (reversed in [rdone]) by the
    characters of [rest]. *)
Fixpoint row_of (pop : ascii -> bool) (ra rdone rest : list ascii)
  : list nat :=
  match rest with
  | [] => []
  | y :: rest' => common pop ra (y :: rdone) :: row_of pop ra (y :: rdone) rest'
  end.

(** The longest run of characters that are not popular at the end of the
    first [m] characters of [b]. *)
Definition own_run (pop : ascii -> bool) (b : list ascii) (m : nat) : nat :=
  common pop (rev (firstn m b)) (rev (firstn m b)).

(** Two query strings stand for the same request as far as the cache key
    goes: the same artist and song up to case and surrounding white space,
    the same sequence (a missing one read as the empty one) and the same
    flags for timestamps, fast mode, mood and metadata. *)
Definition same_request (args args' : list (string * string)) : Prop :=
  canonical_request (requested_artist args) (requested_song args)
    (wants_timestamps args) (args_get args "sequence")
    (args_flag args "fast") (args_flag args "mood")
    (args_flag args "metadata")
  = canonical_request (requested_artist args') (requested_song args')
      (wants_timestamps args') (args_get args' "sequence")
      (args_flag args' "fast") (args_flag args' "mood")
      (args_flag args' "metadata").

(** The first request for "Hello" in another spelling. *)
Definition respelled_args : list (string * string) :=
  [("song", "hello  "); ("timestamp", "True"); ("artist", "ADELE");
   ("sequence", "")].

(** A name as a directory listing holds it: not empty, no separator at its
    head. *)
Definition entry_name (fname : string) : bool :=
  match Text.chars fname with
  | [] => false
  | c :: _ => negb (Ascii.eqb c "/")
  end.

(** The removal of the file of this name from the cache directory
    succeeds on the disk [d]. *)
Definition can_remove (cfg : config) (d : disk) (fname : string) : bool :=
  match files d !! path_join (CACHE_DIR cfg) fname with
  | Some _ => removable d (path_join (CACHE_DIR cfg) fname)
  | None => false
  end.

(** The item that [clear_cache] reports for a removal that failed. *)
Definition failure (cfg : config) (reason : string -> string)
    (fname : string) : value :=
  VDict [("file", VStr fname);
         ("error", VStr (reason (path_join (CACHE_DIR cfg) fname)))].

(** A cache directory with a broken entry and a file that cannot be
    removed, and the text of the error that its removal raises. *)
Definition guarded_disk : disk :=
  {| files := {[ "cache_data/abc.json" := Garbage;
                 "cache_data/notes.txt" := Garbage ]};
     writable := fun _ => true;
     removable := fun path => negb (String.eqb path "cache_data/notes.txt");
     ops := [] |}.

Definition permission_denied (path : string) : string :=
  "[Errno 13] Permission denied: '" ++ path ++ "'".

(* ================================================================== *)
(** * PROPERTIES *)
(* ================================================================== *)

Example strip_example : Text.strip "  Adele  " = "Adele".
Proof. reflexivity. Qed.

Example normalize_example :
  normalize_string "  Shape Of  You (Remix)! " = "shape of you remix".
Proof. reflexivity. Qed.

Example ratio_example_1 : Difflib.ratio "gods plan" "gods plan drake" == 3 # 4.
Proof. vm_compute. reflexivity. Qed.

Example sha256_constants :
  length SHA256.K = 64%nat
  /\ nth 0 SHA256.K 0 = 0x428a2f98 /\ nth 63 SHA256.K 0 = 0xc67178f2
  /\ nth 0 SHA256.H0 0 = 0x6a09e667 /\ nth 7 SHA256.H0 0 = 0x5be0cd19.
Proof. vm_compute. auto. Qed.

Example sha256_abc :
  SHA256.hexdigest (encode_utf8 "abc")
  = "ba7816bf8f01cfea414140de5dae2223b00361a396177a9cb410ff61f20015ad".
Proof. vm_compute. reflexivity. Qed.

Example sha256_empty :
  SHA256.hexdigest (encode_utf8 "")
  = "e3b0c44298fc1c149afbf4c8996fb92427ae41e4649b934ca495991b7852b855".
Proof. vm_compute. reflexivity. Qed.

Example make_cache_key_example :
  make_cache_key "Adele" "Hello" true (Some "2,3") false false false
  = "f555745ac50c497deb8b1aa498802ce63d025bed72c5519b4c0c4837920456eb".
Proof. vm_compute. reflexivity. Qed.

Example split_artists_example :
  split_artists "Anderson Paak  ft. X and Y&Z feat W withers ; Q/ R"
  = ["erson paak"; "x"; "y"; "z feat w"; "ers"; "q"; "r"].
Proof. reflexivity. Qed.

(* ------------------------------------------------------------------ *)
(** ** The matcher *)
(* ------------------------------------------------------------------ *)

Section MatcherProperties.
Context `{Builtins}.

Lemma Qge_bool_iff (x y : Q) : Qge_bool x y = true <-> (y <= x)%Q.
Proof. unfold Qge_bool. apply Qle_bool_iff. Qed.

Lemma artist_check_list (threshold : Q) (returned_artists : list string)
    (req : string) :
  existsb (fun ret => Qge_bool (get_similarity_ratio req ret) threshold)
          returned_artists = true
  <-> spec_artist_list threshold returned_artists req.
Proof.
  unfold spec_artist_list. rewrite existsb_exists.
  split; intros (ret & Hin & Hge); exists ret; split; auto;
    now apply Qge_bool_iff.
Qed.

Lemma partial_check (hay req : string) :
  (3 <? Text.len req)%nat && Text.contains hay req = true
  <-> (3 < Text.len req)%nat /\ Text.contains hay req = true.
Proof. rewrite andb_true_iff, Nat.ltb_lt. reflexivity. Qed.

(** The loop body finds a tag exactly when the name matches by some
    method, and the tag is the one of the first method that holds. *)
Lemma artist_check_spec (threshold : Q) (returned_artists : list string)
    (returned_song req : string) :
  match artist_check threshold returned_artists
          (Text.join " " returned_artists) returned_song req with
  | Some tag =>
      spec_first_method threshold returned_artists returned_song req tag
  | None =>
      ~ spec_artist_matches threshold returned_artists returned_song req
  end.
Proof.
  unfold artist_check, spec_first_method, spec_artist_matches,
    spec_partial_artist_string, spec_song_title.
  destruct (existsb _ returned_artists) eqn:Ha.
  - left. split; [now apply artist_check_list | reflexivity].
  - assert (Hna : ~ spec_artist_list threshold returned_artists req).
    { intros Hs. apply artist_check_list in Hs. congruence. }
    destruct ((3 <? Text.len req)%nat
              && Text.contains (Text.join " " returned_artists) req) eqn:Hb.
    + right; left. apply partial_check in Hb. tauto.
    + assert (Hnb : ~ ((3 < Text.len req)%nat
                       /\ Text.contains (Text.join " " returned_artists) req
                          = true)).
      { intros Hs. apply partial_check in Hs. congruence. }
      destruct ((3 <? Text.len req)%nat && Text.contains returned_song req)
        eqn:Hc.
      * right; right. apply partial_check in Hc. tauto.
      * intros [Hs | [Hs | Hs]]; [tauto | tauto |].
        apply partial_check in Hs. congruence.
Qed.

Lemma spec_first_method_matches (threshold : Q)
    (returned_artists : list string) (returned_song req tag : string) :
  spec_first_method threshold returned_artists returned_song req tag ->
  spec_artist_matches threshold returned_artists returned_song req.
Proof. unfold spec_first_method, spec_artist_matches. tauto. Qed.

Lemma spec_first_method_unique (threshold : Q)
    (returned_artists : list string) (returned_song req t1 t2 : string) :
  spec_first_method threshold returned_artists returned_song req t1 ->
  spec_first_method threshold returned_artists returned_song req t2 ->
  t1 = t2.
Proof. unfold spec_first_method. intuition congruence. Qed.

(** The loop stops at the first requested name that matches. *)
Lemma artist_loop_spec (threshold : Q) (returned_artists : list string)
    (returned_song : string) (requested_artists : list string) :
  match artist_loop threshold returned_artists
          (Text.join " " returned_artists) returned_song
          requested_artists with
  | (true, tag) =>
      exists before req after,
        requested_artists = (before ++ req :: after)%list
        /\ Forall (fun r => ~ spec_artist_matches threshold returned_artists
                              returned_song r) before
        /\ spec_first_method threshold returned_artists returned_song req tag
  | (false, _) =>
      Forall (fun r => ~ spec_artist_matches threshold returned_artists
                         returned_song r) requested_artists
  end.
Proof.
  induction requested_artists as [|req rest IH]; simpl.
  - constructor.
  - pose proof (artist_check_spec threshold returned_artists returned_song req)
      as Hreq.
    destruct (artist_check _ _ _ _ req) as [tag|].
    + exists [], req, rest. repeat split; auto.
    + destruct (artist_loop _ _ _ _ rest) as [[|] tag].
      * destruct IH as (before & r & after & -> & Hbefore & Hr).
        exists (req :: before), r, after. repeat split; auto.
      * constructor; auto.
Qed.

End MatcherProperties.

Lemma validate_missing_metadata `{Builtins}
    (requested_artist requested_song : string) (result : dict)
    (threshold : Q) (returned_artists : list string) (returned_song : string) :
  extract_artist_song_from_result result
    = Ok (returned_artists, returned_song) ->
  returned_artists = [] \/ returned_song = "" ->
  validate_lyrics_match requested_artist requested_song result threshold
    = Ok [("valid", VBool false); ("reason", VStr "Missing metadata")].
Proof.
  intros Hex Hmissing. unfold validate_lyrics_match. rewrite Hex. simpl.
  destruct Hmissing as [-> | ->]; [reflexivity |].
  destruct returned_artists; reflexivity.
Qed.

Lemma validate_with_metadata `{Builtins}
    (requested_artist requested_song : string) (result : dict)
    (threshold : Q) (returned_artists : list string) (returned_song : string) :
  extract_artist_song_from_result result
    = Ok (returned_artists, returned_song) ->
  returned_artists <> [] -> returned_song <> "" ->
  let song_similarity :=
    get_similarity_ratio (normalize_string requested_song) returned_song in
  let found :=
    artist_loop threshold returned_artists (Text.join " " returned_artists)
                returned_song (split_artists requested_artist) in
  validate_lyrics_match requested_artist requested_song result threshold
  = Ok [("valid", VBool (fst found && Qge_bool song_similarity threshold));
        ("reason",
         VStr (if fst found && Qge_bool song_similarity threshold
               then "Matched via " ++ snd found
               else "Artist not found in metadata"));
        ("returned_artists", VList (map VStr returned_artists));
        ("returned_song", VStr returned_song);
        ("song_match", VFloat (round3 song_similarity))].
Proof.
  intros Hex Hartists Hsong. unfold validate_lyrics_match. rewrite Hex.
  simpl.
  destruct returned_artists as [|a l]; [congruence |].
  destruct returned_song as [|c s]; [congruence |].
  cbn [Text.is_empty orb].
  destruct (artist_loop _ _ _ _ _) as [found tag]. simpl.
  destruct (found && _); reflexivity.
Qed.

(** C3, as amended.  For a candidate that carries metadata (a returned
    artist list that is not empty and a returned title that does not
    normalise to the empty string), the matcher accepts it if and only if
    the song similarity reaches the threshold and some requested artist
    name matches by the artist list, by the joined artist string or by the
    song title; when it accepts, the reason recorded in the verdict
    carries the tag of the first method, in that order, of the first
    requested name that matches. *)
Theorem matcher_acceptance_rule `{Builtins}
    (requested_artist requested_song : string) (result : dict)
    (threshold : Q) (returned_artists : list string) (returned_song : string) :
  extract_artist_song_from_result result
    = Ok (returned_artists, returned_song) ->
  returned_artists <> [] -> returned_song <> "" ->
  exists verdict,
    validate_lyrics_match requested_artist requested_song result threshold
      = Ok verdict
    /\ (get verdict "valid" = VBool true
        <-> (threshold
             <= get_similarity_ratio (normalize_string requested_song)
                                     returned_song)%Q
            /\ exists req,
                 In req (split_artists requested_artist)
                 /\ spec_artist_matches threshold returned_artists
                                        returned_song req)
    /\ (get verdict "valid" = VBool true ->
        exists before req after tag,
          split_artists requested_artist = (before ++ req :: after)%list
          /\ Forall (fun r => ~ spec_artist_matches threshold returned_artists
                                 returned_song r) before
          /\ spec_first_method threshold returned_artists returned_song
                               req tag
          /\ get verdict "reason" = VStr ("Matched via " ++ tag)).
Proof.
  intros Hex Hartists Hsong.
  rewrite (validate_with_metadata _ _ _ _ _ _ Hex Hartists Hsong).
  eexists. split; [reflexivity |].
  pose proof (artist_loop_spec threshold returned_artists returned_song
                (split_artists requested_artist)) as Hloop.
  destruct (artist_loop _ _ _ _ _) as [found tag].
  cbn [fst snd get get_default String.eqb Ascii.eqb Bool.eqb].
  destruct found; cbn [andb].
  - destruct Hloop as (before & req & after & Hsplit & Hbefore & Hreq).
    destruct (Qge_bool _ threshold) eqn:Hge.
    + split.
      * split; [intros _ | reflexivity].
        split; [now apply Qge_bool_iff |].
        exists req. split.
        -- rewrite Hsplit. apply in_or_app. right. now left.
        -- eapply spec_first_method_matches; eauto.
      * intros _. exists before, req, after, tag. auto.
    + split.
      * split; [discriminate |].
        intros [Hle _]. apply Qge_bool_iff in Hle. congruence.
      * discriminate.
  - split.
    + split; [discriminate |].
      intros [_ (req & Hin & Hreq)].
      rewrite List.Forall_forall in Hloop. destruct (Hloop req Hin Hreq).
    + discriminate.
Qed.

Lemma matcher_acceptance_rule_witness :
  exists verdict,
    validate_lyrics_match "Ed Sheeran" "Shape of You"
      [("artist", VStr "Ed Sheeran, Stormzy");
       ("song", VStr "Shape Of You (Remix)")] (3 # 4) = Ok verdict
    /\ (get verdict "valid" = VBool true
        <-> (3 # 4 <= get_similarity_ratio (normalize_string "Shape of You")
                                           "shape of you remix")%Q
            /\ exists req,
                 In req (split_artists "Ed Sheeran")
                 /\ spec_artist_matches (3 # 4) ["ed sheeran"; "stormzy"]
                                        "shape of you remix" req)
    /\ (get verdict "valid" = VBool true ->
        exists before req after tag,
          split_artists "Ed Sheeran" = (before ++ req :: after)%list
          /\ Forall (fun r => ~ spec_artist_matches (3 # 4)
                                 ["ed sheeran"; "stormzy"]
                                 "shape of you remix" r) before
          /\ spec_first_method (3 # 4) ["ed sheeran"; "stormzy"]
                               "shape of you remix" req tag
          /\ get verdict "reason" = VStr ("Matched via " ++ tag)).
Proof.
  apply (matcher_acceptance_rule "Ed Sheeran" "Shape of You"
           [("artist", VStr "Ed Sheeran, Stormzy");
            ("song", VStr "Shape Of You (Remix)")] (3 # 4)
           ["ed sheeran"; "stormzy"] "shape of you remix").
  - reflexivity.
  - discriminate.
  - discriminate.
Defined.

(** C3, counterexample to the rule as stated.  The candidate has a title
    and no artist; the requested song is its title (similarity 1) and the
    requested artist, five characters long, occurs in the normalised
    title, so that method (c) holds; the matcher rejects the candidate
    for missing metadata. *)
Lemma matcher_rule_fails_without_artist :
  let result := [("title", VStr "Hello Adele")] in
  extract_artist_song_from_result result = Ok ([], "hello adele")
  /\ (3 # 4 <= get_similarity_ratio (normalize_string "Hello Adele")
                                    "hello adele")%Q
  /\ In "adele" (split_artists "Adele")
  /\ spec_artist_matches (3 # 4) [] "hello adele" "adele"
  /\ validate_lyrics_match "Adele" "Hello Adele" result (3 # 4)
     = Ok [("valid", VBool false); ("reason", VStr "Missing metadata")].
Proof.
  cbv zeta. split; [reflexivity |].
  split; [vm_compute; discriminate |].
  split; [left; reflexivity |].
  split; [| reflexivity].
  right; right. split; [vm_compute; lia | reflexivity].
Qed.

(** The two matcher examples of the specification. *)
Example matcher_example_accept :
  validate_lyrics_match "Ed Sheeran" "Shape of You"
    [("artist", VStr "Ed Sheeran, Stormzy");
     ("song", VStr "Shape Of You (Remix)")] (3 # 4)
  = Ok [("valid", VBool true);
        ("reason", VStr "Matched via Artist List");
        ("returned_artists", VList [VStr "ed sheeran"; VStr "stormzy"]);
        ("returned_song", VStr "shape of you remix");
        ("song_match", VFloat (4 # 5))].
Proof. vm_compute. reflexivity. Qed.

Example matcher_example_reject :
  validate_lyrics_match "Drake" "God's Plan"
    [("artist", VStr "Kendrick Lamar"); ("song", VStr "God's Plan")] (3 # 4)
  = Ok [("valid", VBool false);
        ("reason", VStr "Artist not found in metadata");
        ("returned_artists", VList [VStr "kendrick lamar"]);
        ("returned_song", VStr "gods plan");
        ("song_match", VFloat 1)].
Proof. vm_compute. reflexivity. Qed.

(* ------------------------------------------------------------------ *)
(** ** Batch filtering *)
(* ------------------------------------------------------------------ *)

(** Every item that batch filtering keeps carries a result that the
    single-candidate validator accepted. *)
Lemma filter_attempt_kept `{Builtins}
    (requested_artist requested_song : string) (threshold : Q)
    (attempt item : value) :
  filter_attempt requested_artist requested_song threshold attempt
    = Ok (Some item) ->
  exists a result verdict,
    attempt = VDict a
    /\ get a "result" = VDict result
    /\ validate_lyrics_match requested_artist requested_song result threshold
       = Ok verdict
    /\ truthy (get verdict "valid") = true
    /\ item = VDict [("api", get a "api"); ("result", VDict result);
                     ("validation", VDict verdict)].
Proof.
  unfold filter_attempt. intros Hf.
  destruct attempt as [| | | | | | |a]; try discriminate.
  destruct (negb _); [discriminate |].
  destruct (has_key a "result" && _); [| discriminate].
  destruct (get a "result") as [| | | | | | |result] eqn:Hres; try discriminate.
  destruct (validate_lyrics_match _ _ result _) as [verdict|e] eqn:Hval;
    [| discriminate].
  simpl in Hf.
  destruct (truthy (get verdict "valid")) eqn:Hvalid; [| discriminate].
  injection Hf as <-. exists a, result, verdict. auto.
Qed.

Lemma collect_valid_kept `{Builtins}
    (requested_artist requested_song : string) (threshold : Q)
    (attempts items : list value) (item : value) :
  collect_valid requested_artist requested_song threshold attempts
    = Ok items ->
  In item items ->
  exists attempt,
    In attempt attempts
    /\ filter_attempt requested_artist requested_song threshold attempt
       = Ok (Some item).
Proof.
  revert items. induction attempts as [|attempt rest IH]; simpl; intros items.
  - intros [= <-] [].
  - destruct (filter_attempt _ _ _ attempt) as [kept|e] eqn:Hf;
      [| discriminate].
    simpl.
    destruct (collect_valid _ _ _ rest) as [items'|e]; [| discriminate].
    simpl. intros [= <-] Hin.
    destruct kept as [v|].
    + destruct Hin as [<- | Hin].
      * exists attempt. auto.
      * destruct (IH items' eq_refl Hin) as (x & Hx & Hfx). eauto.
    + destruct (IH items' eq_refl Hin) as (x & Hx & Hfx). eauto.
Qed.

(** C10.  A candidate from which no returned artist is extracted, or whose
    extracted title normalises to the empty string, gets the verdict
    [valid = False] with the reason "Missing metadata" and nothing else: no
    similarity score, no normalised artists, no normalised song.  Batch
    filtering keeps no such candidate in [valid_results]. *)
Theorem missing_metadata_is_rejected `{Builtins}
    (requested_artist requested_song : string) (result : dict)
    (threshold : Q) (returned_artists : list string) (returned_song : string) :
  extract_artist_song_from_result result
    = Ok (returned_artists, returned_song) ->
  returned_artists = [] \/ returned_song = "" ->
  (exists verdict,
     validate_lyrics_match requested_artist requested_song result threshold
       = Ok verdict
     /\ get verdict "valid" = VBool false
     /\ get verdict "reason" = VStr "Missing metadata"
     /\ has_key verdict "song_match" = false
     /\ has_key verdict "returned_artists" = false
     /\ has_key verdict "returned_song" = false
     /\ length verdict = 2%nat)
  /\ forall (attempts : list value) (validation : dict) (valid_results : list value),
       validate_and_filter_results requested_artist requested_song
                                   attempts threshold = Ok validation ->
       get validation "valid_results" = VList valid_results ->
       Forall (fun item =>
                 match item with
                 | VDict i => get i "result" <> VDict result
                 | _ => False
                 end) valid_results.
Proof.
  intros Hex Hmissing.
  pose proof (validate_missing_metadata requested_artist requested_song
                result threshold _ _ Hex Hmissing) as Hval.
  split.
  - eexists. split; [exact Hval |]. repeat split.
  - intros attempts validation valid_results Hv Hget.
    unfold validate_and_filter_results in Hv.
    destruct (collect_valid _ _ _ attempts) as [items|e] eqn:Hc;
      [| discriminate].
    simpl in Hv. injection Hv as <-. simpl in Hget. injection Hget as <-.
    apply List.Forall_forall. intros item Hin.
    destruct (collect_valid_kept _ _ _ _ _ _ Hc Hin) as (attempt & _ & Hf).
    destruct (filter_attempt_kept _ _ _ _ _ Hf)
      as (a & r & verdict & _ & _ & Hvr & Hvalid & ->).
    simpl. intros [= ->]. rewrite Hval in Hvr. injection Hvr as <-.
    discriminate.
Qed.

Lemma missing_metadata_is_rejected_witness :
  (exists verdict,
     validate_lyrics_match "Adele" "Hello"
       [("title", VStr "Hello"); ("lyrics", VStr "Hello, it's me")] (3 # 4)
       = Ok verdict
     /\ get verdict "valid" = VBool false
     /\ get verdict "reason" = VStr "Missing metadata"
     /\ has_key verdict "song_match" = false
     /\ has_key verdict "returned_artists" = false
     /\ has_key verdict "returned_song" = false
     /\ length verdict = 2%nat)
  /\ forall (attempts : list value) (validation : dict) (valid_results : list value),
       validate_and_filter_results "Adele" "Hello" attempts (3 # 4)
         = Ok validation ->
       get validation "valid_results" = VList valid_results ->
       Forall (fun item =>
                 match item with
                 | VDict i =>
                     get i "result"
                     <> VDict [("title", VStr "Hello");
                               ("lyrics", VStr "Hello, it's me")]
                 | _ => False
                 end) valid_results.
Proof.
  apply (missing_metadata_is_rejected "Adele" "Hello"
           [("title", VStr "Hello"); ("lyrics", VStr "Hello, it's me")]
           (3 # 4) [] "hello").
  - reflexivity.
  - left. reflexivity.
Defined.

(* ------------------------------------------------------------------ *)
(** ** The sequential loop *)
(* ------------------------------------------------------------------ *)

Section SequentialProperties.
Context `{Builtins}.

Lemma usable_nonempty (timestamps : bool) (d : dict) :
  usable timestamps (Some d) = true -> truthy (VDict d) = true.
Proof. unfold usable. intros Hu. now apply andb_true_iff in Hu. Qed.

(** Batch filtering of the single attempt built by the sequential loop. *)
Lemma validate_single (artist_name song_title api_name : string) (d : dict) :
  truthy (VDict d) = true ->
  validate_and_filter_results artist_name song_title
    [VDict [("api", VStr api_name); ("result", VDict d)]] (3 # 4)
  = match validate_lyrics_match artist_name song_title d (3 # 4) with
    | Ok verdict =>
        if truthy (get verdict "valid")
        then Ok [("has_valid_match", VBool true);
                 ("valid_results",
                  VList [VDict [("api", VStr api_name); ("result", VDict d);
                                ("validation", VDict verdict)]]);
                 ("all_failed", VBool false)]
        else Ok [("has_valid_match", VBool false);
                 ("valid_results", VList []);
                 ("all_failed", VBool true)]
    | Raise e => Raise e
    end.
Proof.
  intros Hd. unfold validate_and_filter_results, collect_valid, filter_attempt.
  cbn [get get_default has_key String.eqb Ascii.eqb Bool.eqb truthy negb andb].
  cbn [truthy] in Hd. rewrite Hd.
  destruct (validate_lyrics_match _ _ d _) as [verdict|e]; [| reflexivity].
  cbn [bind]. destruct (truthy (get verdict "valid")); reflexivity.
Qed.

Lemma sequential_step_accepts (artist_name song_title api_name : string)
    (timestamps : bool) (f : fetcher) (d : dict) :
  candidate timestamps (f artist_name song_title timestamps) = Some d ->
  validates artist_name song_title d ->
  sequential_step artist_name song_title timestamps api_name f
  = inl [("status", VStr "success"); ("data", VDict d)].
Proof.
  unfold candidate, sequential_step. intros Hc (verdict & Hv & Hvalid).
  destruct (outcome _) as [[d'|]|e]; try discriminate.
  destruct (usable timestamps (Some d')) eqn:Hu; [| discriminate].
  injection Hc as ->.
  rewrite (validate_single _ _ _ _ (usable_nonempty _ _ Hu)), Hv, Hvalid.
  reflexivity.
Qed.

Lemma sequential_step_rejects (artist_name song_title api_name : string)
    (timestamps : bool) (f : fetcher) :
  (forall d, candidate timestamps (f artist_name song_title timestamps)
             = Some d -> ~ validates artist_name song_title d) ->
  exists attempt status,
    sequential_step artist_name song_title timestamps api_name f = inr attempt
    /\ seq_attempt api_name status attempt
    /\ In status ["validation_failed"; "no_results"; "error"].
Proof.
  unfold candidate, sequential_step, seq_attempt. intros Hrej.
  destruct (outcome _) as [[d|]|e].
  - destruct (usable timestamps (Some d)) eqn:Hu.
    + rewrite (validate_single _ _ _ _ (usable_nonempty _ _ Hu)).
      destruct (validate_lyrics_match _ _ d _) as [verdict|e] eqn:Hv.
      * destruct (truthy (get verdict "valid")) eqn:Hvalid.
        -- destruct (Hrej d eq_refl). exists verdict. auto.
        -- do 2 eexists. split; [reflexivity |]. split; [eexists; reflexivity |].
           simpl. auto.
      * do 2 eexists. split; [reflexivity |]. split; [eexists; reflexivity |].
        simpl. auto.
    + do 2 eexists. split; [reflexivity |]. split; [eexists; reflexivity |].
      simpl. auto.
  - do 2 eexists. split; [reflexivity |]. split; [eexists; reflexivity |].
    simpl. auto.
  - do 2 eexists. split; [reflexivity |]. split; [eexists; reflexivity |].
    simpl. auto.
Qed.

End SequentialProperties.

Section SequentialRun.
Context `{Builtins}.

Lemma sequential_loop_first_valid (w : world) (artist_name song_title : string)
    (timestamps : bool) (before after : list Z) (p : Z) (api_name : string)
    (f : fetcher) (d : dict) (attempts0 : list value) (invoked0 : list Z) :
  all_fetchers w p = Some (api_name, Some f) ->
  candidate timestamps (f artist_name song_title timestamps) = Some d ->
  validates artist_name song_title d ->
  Forall (yields_no_valid_candidate w artist_name song_title timestamps)
         before ->
  exists recorded,
    sequential_loop w artist_name song_title timestamps
                    (before ++ p :: after) attempts0 invoked0
    = {| response := Ok [("status", VStr "success"); ("data", VDict d)];
         attempts := (attempts0 ++ recorded)%list;
         invoked := (invoked0 ++ List.filter (configured w) before ++ [p])%list |}
    /\ Forall2 (skipped_attempt w) before recorded.
Proof.
  intros Hp Hcand Hvalid Hbefore. revert attempts0 invoked0.
  induction Hbefore as [|q before Hq Hbefore IH]; intros attempts0 invoked0.
  - exists []. split; [| constructor].
    cbn [app sequential_loop List.filter]. rewrite Hp.
    rewrite (sequential_step_accepts _ _ _ _ _ _ Hcand Hvalid).
    now rewrite app_nil_r.
  - destruct Hq as (nm & registered & Hall & Hrej).
    cbn [app sequential_loop List.filter].
    replace (configured w q)
      with (match registered with Some _ => true | None => false end)
      by (unfold configured; now rewrite Hall).
    rewrite Hall. destruct registered as [fq|].
    + destruct (sequential_step_rejects artist_name song_title nm timestamps
                  fq (Hrej fq eq_refl)) as (attempt & status & -> & Hatt & Hin).
      destruct (IH (attempts0 ++ [attempt])%list (invoked0 ++ [q])%list)
        as (recorded & -> & Hrec).
      exists (attempt :: recorded). split.
      * f_equal; rewrite <- app_assoc; reflexivity.
      * constructor; [| exact Hrec].
        exists status. unfold api_name_of. rewrite Hall. split; [exact Hatt |].
        simpl in Hin |- *. tauto.
    + destruct (IH (attempts0
                    ++ [VDict [("api", VStr nm);
                               ("status", VStr "not_configured")]])%list
                   invoked0) as (recorded & -> & Hrec).
      eexists (_ :: recorded). split.
      * f_equal. rewrite <- app_assoc. reflexivity.
      * constructor; [| exact Hrec].
        exists "not_configured". unfold api_name_of. rewrite Hall.
        split; [eexists; reflexivity | simpl; auto].
Qed.

(** C2.  In sequential mode, for every fetch sequence, the run returns the
    candidate of the first provider of the sequence whose candidate passes
    validation; the adapters called are those of the providers before it
    and its own, none of a later provider; and every provider before it
    has left one attempt record (not configured, validation failed, no
    results or error). *)
Theorem sequential_returns_first_valid (w : world)
    (artist_name song_title : string) (timestamps : bool)
    (before after : list Z) (p : Z) (api_name : string) (f : fetcher)
    (d : dict) :
  all_fetchers w p = Some (api_name, Some f) ->
  candidate timestamps (f artist_name song_title timestamps) = Some d ->
  validates artist_name song_title d ->
  Forall (yields_no_valid_candidate w artist_name song_title timestamps)
         before ->
  let r := run_sequence w artist_name song_title timestamps false
                        (before ++ p :: after) in
  response r = Ok [("status", VStr "success"); ("data", VDict d)]
  /\ invoked r = (List.filter (configured w) before ++ [p])%list
  /\ Forall2 (skipped_attempt w) before (attempts r).
Proof.
  intros Hp Hcand Hvalid Hbefore. cbv zeta. unfold run_sequence.
  destruct (sequential_loop_first_valid w artist_name song_title timestamps
              before after p api_name f d [] [] Hp Hcand Hvalid Hbefore)
    as (recorded & -> & Hrec).
  simpl. auto.
Qed.

(** Without fast mode and without a custom sequence the controller runs
    the default sequence sequentially. *)
Lemma controller_default_is_sequential (w : world)
    (artist_name song_title : string) (timestamps pass_param : bool)
    (sequence : option string) :
  custom_sequence pass_param sequence = None ->
  fetch_lyrics_controller w artist_name song_title timestamps pass_param
                          sequence false
  = run_sequence w artist_name song_title timestamps false
      (if timestamps then DEFAULT_SYNCED_SEQUENCE else DEFAULT_PLAIN_SEQUENCE).
Proof. intros Hc. unfold fetch_lyrics_controller. now rewrite Hc. Qed.

End SequentialRun.

Lemma sequential_returns_first_valid_witness :
  let r := run_sequence second_provider_matches "Adele" "Hello" true false
                        ([2] ++ 3 :: [4]) in
  response r
  = Ok [("status", VStr "success"); ("data", VDict (hello_synced "simpmusic"))]
  /\ invoked r = (List.filter (configured second_provider_matches) [2] ++ [3])%list
  /\ Forall2 (skipped_attempt second_provider_matches) [2] (attempts r).
Proof.
  apply (sequential_returns_first_valid second_provider_matches
           "Adele" "Hello" true [2] [4] 3 "SimpMusic"
           (fun _ _ _ => after_seconds 1 (hello_synced "simpmusic"))).
  - reflexivity.
  - reflexivity.
  - eexists. split; [vm_compute; reflexivity | reflexivity].
  - constructor; [| constructor].
    exists "LRCLIB", (Some (fun _ _ _ => after_seconds 1 (other_song "lrclib"))).
    split; [reflexivity |].
    intros f [= <-] d [= <-] (verdict & Hv & Hvalid).
    vm_compute in Hv. injection Hv as <-. discriminate.
Defined.

(** The example of the specification: the default synchronised sequence
    2, 3, 4 where provider 2 returns another song and provider 3 the
    requested one; provider 4 is never called. *)
Example sequential_example :
  let r := fetch_lyrics_controller second_provider_matches "Adele" "Hello"
             true false None false in
  response r
  = Ok [("status", VStr "success"); ("data", VDict (hello_synced "simpmusic"))]
  /\ invoked r = [2; 3]
  /\ attempts r
     = [VDict [("api", VStr "LRCLIB"); ("status", VStr "validation_failed")]].
Proof. vm_compute. auto. Qed.

(* ------------------------------------------------------------------ *)
(** ** The timestamp requirement *)
(* ------------------------------------------------------------------ *)

Lemma lacks_timestamps_unusable (d : dict) :
  lacks_timestamps d -> usable true (Some d) = false.
Proof.
  intros (Hflag & Htrack & Htext). unfold usable.
  rewrite Hflag, Htrack, Htext. simpl. apply andb_false_r.
Qed.

Lemma carries_timing_usable (d : dict) :
  carries_timing d -> usable true (Some d) = true.
Proof.
  unfold usable. intros Hc.
  assert (Hd : truthy (VDict d) = true).
  { destruct d as [|item d]; [| reflexivity]. destruct Hc; discriminate. }
  rewrite Hd. cbn [negb andb orb].
  destruct Hc as [-> | ->]; [now rewrite orb_true_r | apply orb_true_r].
Qed.

(** C4, as amended.  When timestamps are requested, a result that carries
    no synchronised data (flag false or absent, no timed track, no
    time-coded text) is never accepted, whatever lyric content it has: a
    race task reports it as an unsuccessful [no_results] attempt, and the
    sequential loop records [no_results] for it and goes on with the next
    provider.  A result that carries a timed track or a time-coded text is
    accepted as usable whatever its flag: a race task reports it as a
    success with this result, the sequential loop never records
    [no_results] for it but hands it to the matcher, and returns it when
    it validates. *)
Theorem untimed_result_is_no_result `{Builtins} (w : world)
    (artist_name song_title api_name : string) (fetcher_id : Z)
    (f : fetcher) (d : dict) :
  all_fetchers w fetcher_id = Some (api_name, Some f) ->
  outcome (f artist_name song_title true) = Returns (Some d) ->
  (lacks_timestamps d ->
   (forall timeout,
      timed_out timeout (f artist_name song_title true) = false ->
      fetch_with_timeout api_name f artist_name song_title true timeout
      = [("api", VStr api_name); ("success", VBool false);
         ("reason", VStr "no_results")])
   /\ (forall rest attempts0 invoked0,
         sequential_loop w artist_name song_title true (fetcher_id :: rest)
                         attempts0 invoked0
         = sequential_loop w artist_name song_title true rest
             (attempts0 ++ [VDict [("api", VStr api_name);
                                   ("status", VStr "no_results")]])%list
             (invoked0 ++ [fetcher_id])%list))
  /\ (carries_timing d ->
      (forall timeout,
         timed_out timeout (f artist_name song_title true) = false ->
         fetch_with_timeout api_name f artist_name song_title true timeout
         = [("api", VStr api_name); ("result", VDict d);
            ("success", VBool true)])
      /\ sequential_step artist_name song_title true api_name f
         <> inr (VDict [("api", VStr api_name);
                        ("status", VStr "no_results")])
      /\ (validates artist_name song_title d ->
          forall rest attempts0 invoked0,
            sequential_loop w artist_name song_title true
                            (fetcher_id :: rest) attempts0 invoked0
            = {| response := Ok [("status", VStr "success");
                                 ("data", VDict d)];
                 attempts := attempts0;
                 invoked := (invoked0 ++ [fetcher_id])%list |})).
Proof.
  intros Hall Hout. split.
  - intros Hlacks.
    pose proof (lacks_timestamps_unusable d Hlacks) as Hu.
    split.
    + intros timeout Hin. unfold fetch_with_timeout.
      rewrite Hin, Hout, Hu. reflexivity.
    + intros rest attempts0 invoked0. cbn [sequential_loop]. rewrite Hall.
      unfold sequential_step. rewrite Hout, Hu. reflexivity.
  - intros Hcarries.
    pose proof (carries_timing_usable d Hcarries) as Hu.
    split; [| split].
    + intros timeout Hin. unfold fetch_with_timeout.
      rewrite Hin, Hout, Hu. reflexivity.
    + unfold sequential_step. rewrite Hout, Hu.
      destruct (validate_and_filter_results _ _ _ _) as [validation|e];
        [| discriminate].
      destruct (truthy (get validation "has_valid_match"));
        [| discriminate].
      destruct (first_valid validation); discriminate.
    + intros Hvalid rest attempts0 invoked0. cbn [sequential_loop].
      rewrite Hall.
      rewrite (sequential_step_accepts artist_name song_title api_name true
                 f d); [reflexivity | | exact Hvalid].
      unfold candidate. now rewrite Hout, Hu.
Qed.

Lemma untimed_result_is_no_result_witness :
  ((forall timeout,
      timed_out timeout (after_seconds 1 hello_plain) = false ->
      fetch_with_timeout "LRCLIB" (fun _ _ _ => after_seconds 1 hello_plain)
                         "Adele" "Hello" true timeout
      = [("api", VStr "LRCLIB"); ("success", VBool false);
         ("reason", VStr "no_results")])
   /\ (forall rest attempts0 invoked0,
         sequential_loop plain_only_world "Adele" "Hello" true (2 :: rest)
                         attempts0 invoked0
         = sequential_loop plain_only_world "Adele" "Hello" true rest
             (attempts0 ++ [VDict [("api", VStr "LRCLIB");
                                   ("status", VStr "no_results")]])%list
             (invoked0 ++ [2])%list))
  /\ ((forall timeout,
         timed_out timeout (after_seconds 1 hello_time_coded) = false ->
         fetch_with_timeout "SimpMusic"
           (fun _ _ _ => after_seconds 1 hello_time_coded) "Adele" "Hello"
           true timeout
         = [("api", VStr "SimpMusic"); ("result", VDict hello_time_coded);
            ("success", VBool true)])
      /\ (forall rest attempts0 invoked0,
            sequential_loop time_coded_world "Adele" "Hello" true
                            (3 :: rest) attempts0 invoked0
            = {| response := Ok [("status", VStr "success");
                                 ("data", VDict hello_time_coded)];
                 attempts := attempts0;
                 invoked := (invoked0 ++ [3])%list |})).
Proof.
  destruct (untimed_result_is_no_result plain_only_world "Adele" "Hello"
              "LRCLIB" 2 (fun _ _ _ => after_seconds 1 hello_plain)
              hello_plain eq_refl eq_refl) as [Hplain _].
  destruct (untimed_result_is_no_result time_coded_world "Adele" "Hello"
              "SimpMusic" 3 (fun _ _ _ => after_seconds 1 hello_time_coded)
              hello_time_coded eq_refl eq_refl) as [_ Htimed].
  split.
  - apply Hplain. repeat split.
  - destruct (Htimed (or_intror eq_refl)) as (Hrace & _ & Hseq).
    split; [exact Hrace |]. apply Hseq.
    eexists. split; [vm_compute; reflexivity | reflexivity].
Defined.

(** C4, counterexample to the claim as stated.  With timestamps requested,
    SimpMusic returns a result on which the flag [hasTimestamps] is not
    set (no adapter stores [False] under this key: a flag that is not set
    is how a result tells that it has no timestamps) and which carries a
    time-coded text: the race task reports it as a success, the default
    sequential run returns it after LRCLIB has had nothing, and so does
    the race of fast mode. *)
Lemma flagless_result_is_accepted :
  truthy (get hello_time_coded "hasTimestamps") = false
  /\ fetch_with_timeout "SimpMusic"
       (fun _ _ _ => after_seconds 1 hello_time_coded) "Adele" "Hello" true 10
     = [("api", VStr "SimpMusic"); ("result", VDict hello_time_coded);
        ("success", VBool true)]
  /\ (let r := fetch_lyrics_controller time_coded_world "Adele" "Hello"
                 true false None false in
      response r
      = Ok [("status", VStr "success"); ("data", VDict hello_time_coded)]
      /\ attempts r
         = [VDict [("api", VStr "LRCLIB"); ("status", VStr "no_results")]]
      /\ invoked r = [2; 3])
  /\ response (fetch_lyrics_controller time_coded_world "Adele" "Hello"
                 true false None true)
     = Ok [("status", VStr "success"); ("data", VDict hello_time_coded)].
Proof. vm_compute. repeat split. Qed.

(* ------------------------------------------------------------------ *)
(** ** Per-call timeouts *)
(* ------------------------------------------------------------------ *)

Section Timeouts.
Context `{Builtins}.

Lemma sequential_step_ignores_elapsed (artist_name song_title api_name : string)
    (timestamps : bool) (f f' : fetcher) :
  outcome (f artist_name song_title timestamps)
  = outcome (f' artist_name song_title timestamps) ->
  sequential_step artist_name song_title timestamps api_name f
  = sequential_step artist_name song_title timestamps api_name f'.
Proof. unfold sequential_step. now intros ->. Qed.

Lemma same_outcomes_table (w w' : world) (fetcher_id : Z) :
  same_outcomes w w' ->
  match all_fetchers w fetcher_id, all_fetchers w' fetcher_id with
  | Some (n, Some f), Some (n', Some f') =>
      n = n' /\ forall artist song timestamps,
                  outcome (f artist song timestamps)
                  = outcome (f' artist song timestamps)
  | Some (n, None), Some (n', None) => n = n'
  | None, None => True
  | _, _ => False
  end.
Proof.
  intros [_ Hsame]. unfold all_fetchers.
  destruct (fetcher_entry fetcher_id) as [[n key]|]; [| exact I].
  specialize (Hsame key).
  destruct (ALL_FETCHERS w key), (ALL_FETCHERS w' key); auto.
Qed.

Lemma sequential_loop_ignores_elapsed (w w' : world)
    (artist_name song_title : string) (timestamps : bool)
    (fetcher_ids : list Z) (attempts0 : list value) (invoked0 : list Z) :
  same_outcomes w w' ->
  sequential_loop w artist_name song_title timestamps fetcher_ids
                  attempts0 invoked0
  = sequential_loop w' artist_name song_title timestamps fetcher_ids
                    attempts0 invoked0.
Proof.
  intros Hsame. revert attempts0 invoked0.
  induction fetcher_ids as [|fetcher_id rest IH]; intros attempts0 invoked0;
    cbn [sequential_loop].
  - unfold error_response. now rewrite (proj1 Hsame).
  - pose proof (same_outcomes_table w w' fetcher_id Hsame) as Ht.
    destruct (all_fetchers w fetcher_id) as [[n [f|]]|],
             (all_fetchers w' fetcher_id) as [[n' [f'|]]|];
      try contradiction; try reflexivity.
    + destruct Ht as [<- Hout].
      rewrite (sequential_step_ignores_elapsed artist_name song_title n
                 timestamps f f' (Hout _ _ _)).
      destruct (sequential_step _ _ _ n f'); [reflexivity | apply IH].
    + subst n'. apply IH.
Qed.

End Timeouts.

(** The sequential loop as it is written: an adapter call carries no
    per-call bound, the run is the same whatever time the calls take, so
    the eventual outcome of a slow call is used.  An exception raised by
    the call (a timeout raised by the adapter itself included) is a soft
    failure: it is recorded as an error attempt and the run continues with
    the next provider.  The 10-second bound, recorded as a [timeout]
    attempt, is the one of the race tasks. *)
Theorem sequential_calls_have_no_bound `{Builtins} (w w' : world)
    (artist_name song_title : string) (timestamps : bool) :
  same_outcomes w w' ->
  (forall fetcher_ids,
     run_sequence w artist_name song_title timestamps false fetcher_ids
     = run_sequence w' artist_name song_title timestamps false fetcher_ids)
  /\ (forall fetcher_id api_name f e rest attempts0 invoked0,
        all_fetchers w fetcher_id = Some (api_name, Some f) ->
        outcome (f artist_name song_title timestamps) = Raises e ->
        sequential_loop w artist_name song_title timestamps
                        (fetcher_id :: rest) attempts0 invoked0
        = sequential_loop w artist_name song_title timestamps rest
            (attempts0 ++ [VDict [("api", VStr api_name);
                                  ("status", VStr "error");
                                  ("message", VStr (exn_msg e))]])%list
            (invoked0 ++ [fetcher_id])%list)
  /\ (forall api_name f,
        timed_out 10 (f artist_name song_title timestamps) = true ->
        fetch_with_timeout api_name f artist_name song_title timestamps 10
        = [("api", VStr api_name); ("success", VBool false);
           ("reason", VStr "timeout")]).
Proof.
  intros Hsame. split; [| split].
  - intros fetcher_ids. unfold run_sequence.
    now apply sequential_loop_ignores_elapsed.
  - intros fetcher_id api_name f e rest attempts0 invoked0 Hall Hout.
    cbn [sequential_loop]. rewrite Hall. unfold sequential_step.
    now rewrite Hout.
  - intros api_name f Hslow. unfold fetch_with_timeout. now rewrite Hslow.
Qed.

Lemma sequential_calls_have_no_bound_witness :
  (forall fetcher_ids,
     run_sequence (genius_after 15) "Adele" "Hello" false false fetcher_ids
     = run_sequence (genius_after 1) "Adele" "Hello" false false fetcher_ids)
  /\ (forall fetcher_id api_name f e rest attempts0 invoked0,
        all_fetchers (genius_after 15) fetcher_id = Some (api_name, Some f) ->
        outcome (f "Adele" "Hello" false) = Raises e ->
        sequential_loop (genius_after 15) "Adele" "Hello" false
                        (fetcher_id :: rest) attempts0 invoked0
        = sequential_loop (genius_after 15) "Adele" "Hello" false rest
            (attempts0 ++ [VDict [("api", VStr api_name);
                                  ("status", VStr "error");
                                  ("message", VStr (exn_msg e))]])%list
            (invoked0 ++ [fetcher_id])%list)
  /\ (forall api_name f,
        timed_out 10 (f "Adele" "Hello" false) = true ->
        fetch_with_timeout api_name f "Adele" "Hello" false 10
        = [("api", VStr api_name); ("success", VBool false);
           ("reason", VStr "timeout")]).
Proof.
  apply (sequential_calls_have_no_bound (genius_after 15) (genius_after 1)
           "Adele" "Hello" false).
  split; [reflexivity |].
  intros key. unfold genius_after, world_of.
  cbn [ALL_FETCHERS lookup_call].
  destruct (String.eqb "genius" key); [intros; reflexivity | exact I].
Defined.

(** C5.  The sequential loop does not apply the per-call bound that the
    race tasks apply.  In the default plain sequence, run sequentially,
    Genius needs 15 seconds, more than the 10-second bound, and then
    returns the requested song: the sequential run waits for it and
    returns that result, records no timeout attempt and calls no further
    provider, where a bounded call would have been recorded as a timeout
    and followed by the next provider.  The same call inside a race task
    is cut off and reported as a timeout. *)
Lemma slow_sequential_call_is_not_cut_off :
  let r := fetch_lyrics_controller (genius_after 15) "Adele" "Hello"
             false false None false in
  timed_out 10 (after_seconds 15 hello_plain) = true
  /\ response r
     = Ok [("status", VStr "success"); ("data", VDict hello_plain)]
  /\ attempts r = []
  /\ invoked r = [1]
  /\ fetch_with_timeout "Genius" (fun _ _ _ => after_seconds 15 hello_plain)
                        "Adele" "Hello" false 10
     = [("api", VStr "Genius"); ("success", VBool false);
        ("reason", VStr "timeout")].
Proof. vm_compute. auto. Qed.

(* ------------------------------------------------------------------ *)
(** ** Custom sequences *)
(* ------------------------------------------------------------------ *)

Lemma distinct_count_le (l : list Z) : (distinct_count l <= length l)%nat.
Proof.
  unfold distinct_count. induction l as [|a l IH]; simpl; [lia |].
  destruct (in_dec Z.eq_dec a l); simpl; lia.
Qed.

Lemma distinct_count_full (l : list Z) :
  length l = distinct_count l -> List.NoDup l.
Proof.
  unfold distinct_count. induction l as [|a l IH]; simpl.
  - constructor.
  - pose proof (distinct_count_le l) as Hle. unfold distinct_count in Hle.
    destruct (in_dec Z.eq_dec a l) as [Hin|Hnin]; simpl; intros Hlen.
    + lia.
    + constructor; [| apply IH; lia].
      exact Hnin.
Qed.

Lemma invalid_sequence_true (fetcher_ids : list Z) :
  fetcher_ids = []
  \/ (exists x, In x fetcher_ids /\ (x < 1 \/ 6 < x))
  \/ (6 < length fetcher_ids)%nat
  \/ ~ List.NoDup fetcher_ids ->
  invalid_sequence fetcher_ids = true.
Proof.
  unfold invalid_sequence. intros [-> | [(x & Hin & Hx) | [Hlen | Hdup]]].
  - reflexivity.
  - assert (Hall : forallb (fun x => (1 <=? x) && (x <=? 6)) fetcher_ids
                   = false).
    { apply not_true_is_false. intros Hall.
      rewrite forallb_forall in Hall. specialize (Hall x Hin).
      apply andb_true_iff in Hall. lia. }
    rewrite Hall. simpl. now rewrite orb_true_r.
  - apply Nat.ltb_lt in Hlen. rewrite Hlen. now rewrite orb_true_r.
  - destruct (length fetcher_ids =? distinct_count fetcher_ids)%nat eqn:Heq.
    + apply Nat.eqb_eq in Heq. destruct Hdup. now apply distinct_count_full.
    + simpl. now rewrite orb_true_r.
Qed.

(** C6, as amended.  For every request and every custom sequence that
    the controller reads (the pass flag set, fast mode off, a sequence
    text that is not empty) whose list of provider indices is empty, holds
    an index outside 1..6, has more than six entries or repeats an index,
    the controller returns the "Invalid sequence" error, and no adapter
    has been called and no attempt recorded when it returns. *)
Theorem invalid_custom_sequence_is_rejected `{Builtins} (w : world)
    (artist_name song_title : string) (timestamps : bool)
    (sequence : string) (fetcher_ids : list Z) :
  sequence <> "" ->
  parse_sequence sequence = Ok fetcher_ids ->
  fetcher_ids = []
  \/ (exists x, In x fetcher_ids /\ (x < 1 \/ 6 < x))
  \/ (6 < length fetcher_ids)%nat
  \/ ~ List.NoDup fetcher_ids ->
  fetch_lyrics_controller w artist_name song_title timestamps true
                          (Some sequence) false
  = {| response :=
         Ok [("status", VStr "error");
             ("error",
              VDict [("message",
                      VStr "Invalid sequence: must be unique numbers between 1 and 6");
                     ("timestamp", VStr (utc_now w))])];
       attempts := [];
       invoked := [] |}.
Proof.
  intros Hne Hparse Hbad. unfold fetch_lyrics_controller, custom_sequence.
  destruct sequence as [|c s]; [congruence |]. cbn [Text.is_empty negb andb].
  rewrite Hparse, (invalid_sequence_true _ Hbad). reflexivity.
Qed.

Lemma invalid_custom_sequence_is_rejected_witness :
  fetch_lyrics_controller second_provider_matches "Adele" "Hello" true true
                          (Some "2, 3,2") false
  = {| response :=
         Ok [("status", VStr "error");
             ("error",
              VDict [("message",
                      VStr "Invalid sequence: must be unique numbers between 1 and 6");
                     ("timestamp", VStr (utc_now second_provider_matches))])];
       attempts := [];
       invoked := [] |}.
Proof.
  apply (invalid_custom_sequence_is_rejected second_provider_matches
           "Adele" "Hello" true "2, 3,2" [2; 3; 2]).
  - discriminate.
  - reflexivity.
  - right; right; right. intros Hnd.
    apply List.NoDup_cons_iff in Hnd. destruct Hnd as [Hnin _].
    apply Hnin. right; left. reflexivity.
Defined.

(** A sequence that does not parse is rejected as well, before any call. *)
Lemma malformed_custom_sequence_is_rejected `{Builtins} (w : world)
    (artist_name song_title : string) (timestamps : bool)
    (sequence : string) (e : exn) :
  sequence <> "" ->
  parse_sequence sequence = Raise e ->
  invoked (fetch_lyrics_controller w artist_name song_title timestamps true
                                   (Some sequence) false) = []
  /\ response (fetch_lyrics_controller w artist_name song_title timestamps
                 true (Some sequence) false)
     = Ok (error_response w
             "Invalid sequence format: must be comma-separated integers").
Proof.
  intros Hne Hparse. unfold fetch_lyrics_controller, custom_sequence.
  destruct sequence as [|c s]; [congruence |]. cbn [Text.is_empty negb andb].
  rewrite Hparse. auto.
Qed.

(** C6, counterexample to the claim as stated.  The custom sequence
    "9,9" holds an index outside 1..6 and repeats it; with the pass flag
    set and fast mode on, the controller does not read it: the adapters of
    LRCLIB and SimpMusic are called and the run returns a result.  And
    with fast mode off and the pass flag set, the empty sequence text is
    no custom sequence for the controller: the default sequence is run and
    adapters are called. *)
Lemma invalid_sequence_is_not_always_rejected :
  parse_sequence "9,9" = Ok [9; 9]
  /\ invalid_sequence [9; 9] = true
  /\ (let r := fetch_lyrics_controller both_match "Adele" "Hello" true true
                 (Some "9,9") true in
      invoked r = [2; 3]
      /\ response r = Ok [("status", VStr "success");
                          ("data", VDict (hello_synced "simpmusic"))])
  /\ parse_sequence "" = Ok []
  /\ invalid_sequence [] = true
  /\ (let r := fetch_lyrics_controller second_provider_matches "Adele"
                 "Hello" true true (Some "") false in
      invoked r = [2; 3]
      /\ response r = Ok [("status", VStr "success");
                          ("data", VDict (hello_synced "simpmusic"))]).
Proof. vm_compute. repeat split. Qed.

Example parse_sequence_examples :
  parse_sequence "2,3" = Ok [2; 3]
  /\ parse_sequence " 4 , ,1_0,-7" = Ok [4; 10; -7]
  /\ parse_sequence "," = Ok []
  /\ (exists e, parse_sequence "2,x" = Raise e).
Proof. repeat split. eexists. reflexivity. Qed.

(** [int] does not skip the separators 0x1c-0x1f, which [str.strip]
    removes: a piece made of a separator alone is dropped as blank, a
    piece that holds one beside an index is not blank and does not
    parse. *)
Example int_is_stricter_than_strip :
  parse_sequence (String (ascii_of_nat 28) ",5") = Ok [5]
  /\ (exists e, parse_sequence (String (ascii_of_nat 28) "5") = Raise e).
Proof. split; [reflexivity | eexists; reflexivity]. Qed.

(* ------------------------------------------------------------------ *)
(** ** Race mode *)
(* ------------------------------------------------------------------ *)

Section RaceProperties.
Context `{Builtins}.

Lemma fetch_with_timeout_shape (api_name : string) (f : fetcher)
    (artist_name song_title : string) (timestamps : bool) (timeout : Q) :
  task_shape (fetch_with_timeout api_name f artist_name song_title
                                 timestamps timeout).
Proof.
  unfold fetch_with_timeout, task_shape, failed_attempt, successful_attempt.
  destruct (timed_out _ _); [right; eauto |].
  destruct (outcome _) as [[d|]|e].
  - destruct (usable timestamps (Some d)) eqn:Hu; [| right; eauto].
    left. exists api_name, d. split; [reflexivity |].
    now apply usable_nonempty in Hu.
  - right; eauto.
  - destruct (exn_cls e); right; eauto.
Qed.

Lemma create_tasks_shape (w : world) (artist_name song_title : string)
    (timestamps : bool) (fetcher_ids : list Z) :
  Forall (fun task => task_shape (snd task))
         (create_tasks w artist_name song_title timestamps fetcher_ids).
Proof.
  induction fetcher_ids as [|fetcher_id rest IH]; simpl; [constructor |].
  destruct (all_fetchers w fetcher_id) as [[api_name [f|]]|]; auto.
  constructor; [apply fetch_with_timeout_shape | exact IH].
Qed.

Lemma race_done_spec (tasks : list (Z * dict)) (done : list nat)
    (attempts0 : list value) :
  Forall (fun task => task_shape (snd task)) tasks ->
  match race_done tasks done attempts0 with
  | (attempts, Some result) =>
      exists failed api_name d,
        attempts = (attempts0 ++ failed ++ [successful_attempt api_name d])%list
        /\ result = VDict d
        /\ truthy (VDict d) = true
        /\ Forall failed_attempt failed
  | (attempts, None) =>
      exists failed,
        attempts = (attempts0 ++ failed)%list /\ Forall failed_attempt failed
  end.
Proof.
  intros Htasks. revert attempts0.
  induction done as [|t rest IH]; intros attempts0; simpl.
  - exists []. split; [now rewrite app_nil_r | constructor].
  - destruct (nth_error tasks t) as [[fetcher_id attempt]|] eqn:Hnth;
      [| apply IH].
    assert (Hshape : task_shape attempt).
    { apply nth_error_In in Hnth. rewrite List.Forall_forall in Htasks.
      exact (Htasks _ Hnth). }
    destruct Hshape as [(api_name & d & Heq & Hd) | (api_name & reason & Heq)];
      injection Heq as ->.
    + cbn [get get_default String.eqb Ascii.eqb Bool.eqb truthy].
      exists [], api_name, d. repeat split; auto.
    + cbn [get get_default String.eqb Ascii.eqb Bool.eqb truthy].
      specialize (IH (attempts0
                      ++ [VDict [("api", VStr api_name);
                                 ("success", VBool false);
                                 ("reason", VStr reason)]])%list).
      destruct (race_done tasks rest _) as [attempts [result|]].
      * destruct IH as (failed & api' & d & -> & -> & Hd & Hfailed).
        eexists (_ :: failed), api', d. rewrite <- app_assoc.
        repeat split; auto. constructor; [| exact Hfailed].
        exists api_name, reason. reflexivity.
      * destruct IH as (failed & -> & Hfailed).
        eexists (_ :: failed). rewrite <- app_assoc. split; [reflexivity |].
        constructor; [| exact Hfailed]. exists api_name, reason. reflexivity.
Qed.

Lemma race_rounds_spec (tasks : list (Z * dict)) (rounds : list (list nat))
    (attempts0 : list value) :
  Forall (fun task => task_shape (snd task)) tasks ->
  match race_rounds tasks rounds attempts0 with
  | (Some result, attempts) =>
      exists failed api_name d,
        attempts = (attempts0 ++ failed ++ [successful_attempt api_name d])%list
        /\ result = VDict d
        /\ truthy (VDict d) = true
        /\ Forall failed_attempt failed
  | (None, attempts) =>
      exists failed,
        attempts = (attempts0 ++ failed)%list /\ Forall failed_attempt failed
  end.
Proof.
  intros Htasks. revert attempts0.
  induction rounds as [|done rest IH]; intros attempts0; simpl.
  - exists []. split; [now rewrite app_nil_r | constructor].
  - pose proof (race_done_spec tasks done attempts0 Htasks) as Hdone.
    destruct (race_done tasks done attempts0) as [attempts [result|]].
    + exact Hdone.
    + destruct Hdone as (failed & -> & Hfailed).
      specialize (IH (attempts0 ++ failed)%list).
      destruct (race_rounds tasks rest _) as [[result|] attempts].
      * destruct IH as (failed' & api_name & d & -> & -> & Hd & Hfailed').
        exists (failed ++ failed')%list, api_name, d.
        rewrite <- !app_assoc. repeat split; auto.
        apply Forall_app; auto.
      * destruct IH as (failed' & -> & Hfailed').
        exists (failed ++ failed')%list. rewrite <- app_assoc.
        split; [reflexivity |]. apply Forall_app; auto.
Qed.

(** Batch filtering passes over the failed attempts. *)
Lemma collect_valid_skips_failed (artist_name song_title : string)
    (threshold : Q) (failed rest : list value) :
  Forall failed_attempt failed ->
  collect_valid artist_name song_title threshold (failed ++ rest)
  = collect_valid artist_name song_title threshold rest.
Proof.
  induction 1 as [|attempt failed (api_name & reason & ->) _ IH]; simpl.
  - reflexivity.
  - rewrite IH. now destruct (collect_valid _ _ _ rest).
Qed.

Lemma race_verdict_spec (w : world) (artist_name song_title api_name : string)
    (failed : list value) (d : dict) (verdict : dict) :
  Forall failed_attempt failed ->
  truthy (VDict d) = true ->
  validate_lyrics_match artist_name song_title d (3 # 4) = Ok verdict ->
  exists resp,
    race_verdict w artist_name song_title (VDict d)
                 (failed ++ [successful_attempt api_name d]) = Ok resp
    /\ if truthy (get verdict "valid")
       then get resp "status" = VStr "success" /\ get resp "data" = VDict d
       else resp = error_response w
                     (none_matched_message artist_name song_title).
Proof.
  intros Hfailed Hd Hv. unfold race_verdict, validate_and_filter_results.
  rewrite (collect_valid_skips_failed _ _ _ _ _ Hfailed).
  unfold collect_valid, filter_attempt, successful_attempt.
  cbn [get get_default has_key String.eqb Ascii.eqb Bool.eqb truthy negb andb].
  cbn [truthy] in Hd. rewrite Hd, Hv. cbn [bind].
  destruct (truthy (get verdict "valid")) eqn:Hvalid; cbn [bind].
  - cbn [get get_default String.eqb Ascii.eqb Bool.eqb truthy length
         Nat.ltb Nat.leb first_valid bind].
    destruct (below_one _ || below_one _); eexists; (split; [reflexivity |]);
      split; reflexivity.
  - eexists. split; reflexivity.
Qed.






End RaceProperties.





(* ------------------------------------------------------------------ *)
(** ** The cache *)
(* ------------------------------------------------------------------ *)

Lemma later_than_float (now expiry : Q) :
  later_than now (VFloat expiry) = Ok (negb (Qle_bool now expiry)).
Proof. reflexivity. Qed.

Lemma Qle_bool_false (x y : Q) : (y < x)%Q -> Qle_bool x y = false.
Proof.
  intros Hlt. apply not_true_is_false. intros Hle.
  apply Qle_bool_iff in Hle. exact (Qlt_not_le _ _ Hlt Hle).
Qed.

(** Loading an entry whose expiry lies in the past reports it absent and
    removes its file. *)
Lemma load_expired (cfg : config) (now : Q) (d : disk) (key : string)
    (data : dict) (expiry : Q) :
  files d !! _get_cache_path cfg key = Some (Json (VDict data)) ->
  get_default data "expiry" (VInt 0) = VFloat expiry ->
  (expiry < now)%Q ->
  removable d (_get_cache_path cfg key) = true ->
  load_from_cache cfg now d key
  = (VNone,
     {| files := delete (_get_cache_path cfg key) (files d);
        writable := writable d; removable := removable d;
        ops := (ops d ++ [Remove (_get_cache_path cfg key)])%list |}).
Proof.
  intros Hfile Hexp Hlt Hrm. unfold load_from_cache. rewrite Hfile.
  unfold read_entry. rewrite Hexp, later_than_float.
  rewrite (Qle_bool_false _ _ Hlt). cbn [negb bind].
  unfold remove_quietly. now rewrite Hrm.
Qed.

(** C7.  On a disk where the entry file can be written, [save_to_cache]
    followed by [load_from_cache] of the same key returns the stored
    result unchanged, and leaves the disk as it is, as long as the time of
    the load is not past the expiry [now + CACHE_TTL]; once the expiry is
    in the past, the load returns [None] and the entry file is removed. *)
Theorem cache_round_trip (cfg : config) (now now' : Q) (d : disk)
    (key : string) (result : value) :
  writable d (_get_cache_path cfg key) = true ->
  let stored := save_to_cache cfg now d key result in
  ((now' <= now + inject_Z (CACHE_TTL cfg))%Q ->
   load_from_cache cfg now' stored key = (result, stored))
  /\ ((now + inject_Z (CACHE_TTL cfg) < now')%Q ->
      removable d (_get_cache_path cfg key) = true ->
      fst (load_from_cache cfg now' stored key) = VNone
      /\ files (snd (load_from_cache cfg now' stored key))
           !! _get_cache_path cfg key = None
      /\ ops (snd (load_from_cache cfg now' stored key))
         = (ops stored ++ [Remove (_get_cache_path cfg key)])%list).
Proof.
  intros Hw stored.
  assert (Hfile : files stored !! _get_cache_path cfg key
                  = Some (Json (VDict [("expiry",
                                        VFloat (now + inject_Z (CACHE_TTL cfg)));
                                       ("result", result)]))).
  { unfold stored, save_to_cache. rewrite Hw. cbn [files].
    apply lookup_insert_eq. }
  split.
  - intros Hfresh. unfold load_from_cache. rewrite Hfile.
    unfold read_entry.
    cbn [get get_default String.eqb Ascii.eqb Bool.eqb].
    rewrite later_than_float.
    apply Qle_bool_iff in Hfresh. rewrite Hfresh. reflexivity.
  - intros Hstale Hrm.
    assert (Hrm' : removable stored (_get_cache_path cfg key) = true).
    { unfold stored, save_to_cache. now rewrite Hw. }
    rewrite (load_expired cfg now' stored key _ _ Hfile eq_refl Hstale Hrm').
    cbn [fst snd files ops]. split; [reflexivity |].
    split; [apply lookup_delete_eq | reflexivity].
Qed.

Lemma cache_round_trip_witness :
  let result := VDict [("status", VStr "success");
                       ("data", VDict hello_plain)] in
  let stored := save_to_cache default_config 1000 empty_disk "f555" result in
  ((1100 <= 1000 + inject_Z (CACHE_TTL default_config))%Q ->
   load_from_cache default_config 1100 stored "f555" = (result, stored))
  /\ ((1000 + inject_Z (CACHE_TTL default_config) < 1100)%Q ->
      removable empty_disk (_get_cache_path default_config "f555") = true ->
      fst (load_from_cache default_config 1100 stored "f555") = VNone
      /\ files (snd (load_from_cache default_config 1100 stored "f555"))
           !! _get_cache_path default_config "f555" = None
      /\ ops (snd (load_from_cache default_config 1100 stored "f555"))
         = (ops stored
            ++ [Remove (_get_cache_path default_config "f555")])%list).
Proof.
  cbv zeta.
  apply (cache_round_trip default_config 1000 1100 empty_disk "f555"
           (VDict [("status", VStr "success"); ("data", VDict hello_plain)])).
  reflexivity.
Defined.

(** The two halves of the round trip on a concrete entry: a load within
    the time to live returns the response, a load after it returns
    [None] and removes the file. *)
Example cache_round_trip_example :
  let result := VDict [("status", VStr "success");
                       ("data", VDict hello_plain)] in
  let stored := save_to_cache default_config 1000 empty_disk "f555" result in
  _get_cache_path default_config "f555" = "cache_data/f555.json"
  /\ fst (load_from_cache default_config 1300 stored "f555") = result
  /\ fst (load_from_cache default_config 1301 stored "f555") = VNone
  /\ ops (snd (load_from_cache default_config 1301 stored "f555"))
     = [Write "cache_data/f555.json"; Remove "cache_data/f555.json"].
Proof. vm_compute. auto. Qed.

(* ------------------------------------------------------------------ *)
(** ** What the route writes to the cache *)
(* ------------------------------------------------------------------ *)

(** C9.  The caching step of the route writes to the cache only when the
    status of the response is "success" and its data payload holds lyric
    text under [lyrics], [plain_lyrics] or [lyrics_text]; for any other
    response, a successful one without lyric text included, the disk is
    left as it was. *)
Theorem cache_write_needs_lyrics (cfg : config) (now : Q) (d d' : disk)
    (cache_key : string) (result : dict) :
  cache_if_successful cfg now d cache_key result = Ok d' ->
  (d' <> d ->
   get result "status" = VStr "success"
   /\ exists data,
        get result "data" = VDict data
        /\ (truthy (get data "lyrics") = true
            \/ truthy (get data "plain_lyrics") = true
            \/ truthy (get data "lyrics_text") = true))
  /\ (get result "status" = VStr "success" ->
      (forall data,
         get_default result "data" (VDict []) = VDict data ->
         truthy (get data "lyrics") = false
         /\ truthy (get data "plain_lyrics") = false
         /\ truthy (get data "lyrics_text") = false) ->
      d' = d /\ ops d' = ops d).
Proof.
  unfold cache_if_successful, is_success. intros Hstep. split.
  - intros Hchanged.
    destruct (get result "status") as [| | | | |status| |] eqn:Hstatus;
      try (injection Hstep as <-; congruence).
    destruct (String.eqb status "success") eqn:Hs;
      [| injection Hstep as <-; congruence].
    apply String.eqb_eq in Hs. subst status. split; [reflexivity |].
    destruct (get_default result "data" (VDict [])) as [| | | | | | |data]
      eqn:Hdata; try discriminate.
    destruct (truthy (py_or _ _)) eqn:Hlyrics;
      [| injection Hstep as <-; congruence].
    assert (Hget : get result "data" = VDict data).
    { unfold get. clear - Hdata Hlyrics.
      induction result as [|[k v] r IH]; simpl in *.
      - injection Hdata as <-. discriminate.
      - destruct (String.eqb k "data"); auto. }
    exists data. split; [exact Hget |].
    unfold py_or in Hlyrics.
    destruct (truthy (get data "lyrics")); [auto |].
    destruct (truthy (get data "plain_lyrics")); auto.
  - intros Hstatus Hnone. rewrite Hstatus in Hstep. cbn in Hstep.
    destruct (get_default result "data" (VDict [])) as [| | | | | | |data]
      eqn:Hdata; try discriminate.
    destruct (Hnone data eq_refl) as (Hl & Hp & Ht).
    unfold py_or in Hstep. rewrite Hl, Hp, Ht in Hstep.
    injection Hstep as <-. auto.
Qed.

Lemma cache_write_needs_lyrics_witness :
  let result := [("status", VStr "success"); ("data", VDict hello_plain)] in
  let d' := save_to_cache default_config 1000 empty_disk "f555"
                          (VDict result) in
  (d' <> empty_disk ->
   get result "status" = VStr "success"
   /\ exists data,
        get result "data" = VDict data
        /\ (truthy (get data "lyrics") = true
            \/ truthy (get data "plain_lyrics") = true
            \/ truthy (get data "lyrics_text") = true))
  /\ (get result "status" = VStr "success" ->
      (forall data,
         get_default result "data" (VDict []) = VDict data ->
         truthy (get data "lyrics") = false
         /\ truthy (get data "plain_lyrics") = false
         /\ truthy (get data "lyrics_text") = false) ->
      d' = empty_disk /\ ops d' = ops empty_disk).
Proof.
  cbv zeta.
  apply (cache_write_needs_lyrics default_config 1000 empty_disk
           (save_to_cache default_config 1000 empty_disk "f555"
              (VDict [("status", VStr "success");
                      ("data", VDict hello_plain)]))
           "f555"
           [("status", VStr "success"); ("data", VDict hello_plain)]).
  reflexivity.
Defined.

(** A successful response whose payload holds a synchronised track and no
    lyric text is not written; an error response is not written either. *)
Example cache_skips_empty_success :
  cache_if_successful default_config 1000 empty_disk "f555"
    [("status", VStr "success");
     ("data", VDict [("artist", VStr "Adele"); ("title", VStr "Hello");
                     ("lyrics", VNone);
                     ("timed_lyrics", VList [VDict [("text", VStr "Hello")]])])]
  = Ok empty_disk
  /\ cache_if_successful default_config 1000 empty_disk "f555"
       [("status", VStr "error");
        ("error", VDict [("message", VStr "No lyrics found")])]
     = Ok empty_disk.
Proof. split; reflexivity. Qed.

(* ------------------------------------------------------------------ *)
(** ** The cache key *)
(* ------------------------------------------------------------------ *)

Lemma json_unescape_escape (c : ascii) (rest : list ascii) :
  json_unescape (json_escape c ++ rest) = Some (c, rest).
Proof.
  destruct c as [[] [] [] [] [] [] [] []]; reflexivity.
Qed.

Lemma json_unescape_quote (rest : list ascii) :
  json_unescape (dquote :: rest) = None.
Proof. reflexivity. Qed.

(** An escaped text followed by the closing quote can be read back in one
    way only. *)
Lemma json_escape_inj (l l' rest rest' : list ascii) :
  (flat_map json_escape l ++ dquote :: rest
   = flat_map json_escape l' ++ dquote :: rest')%list ->
  l = l' /\ rest = rest'.
Proof.
  revert l'. induction l as [|c l IH]; intros [|c' l']; simpl; intros Heq.
  - injection Heq as ->. auto.
  - apply (f_equal json_unescape) in Heq.
    rewrite <- app_assoc, json_unescape_escape in Heq. discriminate.
  - apply (f_equal json_unescape) in Heq.
    rewrite <- app_assoc, json_unescape_escape in Heq. discriminate.
  - apply (f_equal json_unescape) in Heq.
    rewrite <- !app_assoc, !json_unescape_escape in Heq.
    injection Heq as -> Heq. destruct (IH _ Heq) as [-> ->]. auto.
Qed.

Lemma chars_inj (s s' : string) : Text.chars s = Text.chars s' -> s = s'.
Proof.
  unfold Text.chars. intros Heq.
  rewrite <- (string_of_list_ascii_of_string s),
          <- (string_of_list_ascii_of_string s').
  now rewrite Heq.
Qed.

Lemma text_inj (l l' : list ascii) : Text.text l = Text.text l' -> l = l'.
Proof.
  unfold Text.text. intros Heq.
  rewrite <- (list_ascii_of_string_of_list_ascii l),
          <- (list_ascii_of_string_of_list_ascii l').
  now rewrite Heq.
Qed.

Lemma json_string_inj (s s' : string) (rest rest' : list ascii) :
  (json_string s ++ rest = json_string s' ++ rest')%list ->
  s = s' /\ rest = rest'.
Proof.
  unfold json_string. cbn [app]. rewrite <- !app_assoc. cbn [app].
  intros [= Heq]. destruct (json_escape_inj _ _ _ _ Heq) as [Hs ->].
  split; [now apply chars_inj | reflexivity].
Qed.

Lemma json_bool_inj (b b' : bool) (rest rest' : list ascii) :
  (json_field (FBool b) ++ rest = json_field (FBool b') ++ rest')%list ->
  b = b' /\ rest = rest'.
Proof.
  destruct b, b'; cbn; intros Heq; try discriminate;
    injection Heq as ->; auto.
Qed.

Lemma sorted_key_payload (artist song : string) (timestamps : bool)
    (sequence : option string) (fast mood metadata : bool) :
  sort_items (key_payload artist song timestamps sequence fast mood metadata)
  = [("artist", FStr (Text.lower (Text.strip artist)));
     ("fast", FBool fast);
     ("metadata", FBool metadata);
     ("mood", FBool mood);
     ("sequence", FStr (match sequence with Some s => s | None => "" end));
     ("song", FStr (Text.lower (Text.strip song)));
     ("timestamps", FBool timestamps);
     ("v", FStr CACHE_VERSION)].
Proof. reflexivity. Qed.

Lemma json_field_inj (f f' : field) (rest rest' : list ascii) :
  same_kind f f' ->
  (json_field f ++ rest = json_field f' ++ rest')%list ->
  f = f' /\ rest = rest'.
Proof.
  destruct f as [s|b], f' as [s'|b']; try contradiction; intros _ Heq.
  - apply json_string_inj in Heq. destruct Heq as [-> ->]. auto.
  - apply json_bool_inj in Heq. destruct Heq as [-> ->]. auto.
Qed.

Lemma json_items_inj (l l' : list (string * field)) (rest rest' : list ascii) :
  Forall2 same_slot l l' ->
  (json_items l ++ rest = json_items l' ++ rest')%list ->
  l = l' /\ rest = rest'.
Proof.
  intros Hslots. revert rest rest'.
  induction Hslots as [|[k v] [k' v'] r r' [Hk Hkind] Hr IH];
    intros rest rest' Heq.
  - auto.
  - cbn [fst snd] in Hk, Hkind. subst k'.
    destruct Hr as [|i i' r r' Hi Hr].
    + cbn [json_items] in Heq. rewrite <- !app_assoc in Heq.
      do 2 apply app_inv_head in Heq.
      destruct (json_field_inj _ _ _ _ Hkind Heq) as [-> ->]. auto.
    + change (json_items ((k, v) :: i :: r))
        with (json_string k ++ Text.chars ": " ++ json_field v
              ++ Text.chars ", " ++ json_items (i :: r))%list in Heq.
      change (json_items ((k, v') :: i' :: r'))
        with (json_string k ++ Text.chars ": " ++ json_field v'
              ++ Text.chars ", " ++ json_items (i' :: r'))%list in Heq.
      rewrite <- !app_assoc in Heq.
      do 2 apply app_inv_head in Heq.
      destruct (json_field_inj _ _ _ _ Hkind Heq) as [-> Heq'].
      apply app_inv_head in Heq'.
      destruct (IH _ _ Heq') as [Hl ->].
      split; [now rewrite Hl | reflexivity].
Qed.

(** The hashed text determines the canonical request. *)
Lemma hashed_text_inj (artist song : string) (timestamps : bool)
    (sequence : option string) (fast mood metadata : bool)
    (artist' song' : string) (timestamps' : bool)
    (sequence' : option string) (fast' mood' metadata' : bool) :
  hashed_text artist song timestamps sequence fast mood metadata
  = hashed_text artist' song' timestamps' sequence' fast' mood' metadata' ->
  canonical_request artist song timestamps sequence fast mood metadata
  = canonical_request artist' song' timestamps' sequence' fast' mood'
                      metadata'.
Proof.
  unfold hashed_text, json_dumps, canonical_request.
  rewrite !sorted_key_payload. intros Heq.
  apply text_inj in Heq. apply (f_equal (@tl ascii)) in Heq.
  cbn [tl] in Heq.
  apply json_items_inj in Heq.
  - destruct Heq as [Heq _]. now injection Heq as -> -> -> -> -> -> ->.
  - repeat constructor.
Qed.

Lemma text_length (l : list ascii) : String.length (Text.text l) = length l.
Proof. unfold Text.text. induction l; simpl; auto. Qed.

Lemma chars_text (l : list ascii) : Text.chars (Text.text l) = l.
Proof. apply list_ascii_of_string_of_list_ascii. Qed.

Lemma hex_digit_is_hex (n : Z) : is_hex (SHA256.hex_digit n) = true.
Proof.
  unfold SHA256.hex_digit. generalize (Z.to_nat n) as k. intros k.
  do 17 (destruct k as [|k]; [reflexivity |]). reflexivity.
Qed.

Lemma hex_word_is_hex (x : Z) : forallb is_hex (SHA256.hex_word x) = true.
Proof.
  unfold SHA256.hex_word. cbn [map forallb].
  now rewrite !hex_digit_is_hex.
Qed.

Lemma hexdigest_shape (data : list Z) :
  String.length (SHA256.hexdigest data) = 64%nat
  /\ forallb is_hex (Text.chars (SHA256.hexdigest data)) = true.
Proof.
  unfold SHA256.hexdigest. rewrite text_length, chars_text. split.
  - reflexivity.
  - rewrite !forallb_app, !hex_word_is_hex. reflexivity.
Qed.

(** C8, as amended.  The cache key is a fingerprint of 64 hexadecimal
    characters that depends on its seven arguments through their canonical
    form only (artist and song trimmed and lowercased, a missing sequence
    read as the empty string, the flags as given): two calls whose
    arguments have the same canonical form yield the same fingerprint, and
    the text that is hashed differs exactly when the canonical forms
    differ. *)
Theorem cache_key_fingerprint (artist song : string) (timestamps : bool)
    (sequence : option string) (fast mood metadata : bool)
    (artist' song' : string) (timestamps' : bool)
    (sequence' : option string) (fast' mood' metadata' : bool) :
  (String.length
     (make_cache_key artist song timestamps sequence fast mood metadata)
   = 64%nat
   /\ forallb is_hex
        (Text.chars
           (make_cache_key artist song timestamps sequence fast mood metadata))
      = true)
  /\ (canonical_request artist song timestamps sequence fast mood metadata
      = canonical_request artist' song' timestamps' sequence' fast' mood'
                          metadata' ->
      make_cache_key artist song timestamps sequence fast mood metadata
      = make_cache_key artist' song' timestamps' sequence' fast' mood'
                       metadata')
  /\ (hashed_text artist song timestamps sequence fast mood metadata
      = hashed_text artist' song' timestamps' sequence' fast' mood' metadata'
      <-> canonical_request artist song timestamps sequence fast mood metadata
          = canonical_request artist' song' timestamps' sequence' fast' mood'
                              metadata').
Proof.
  assert (Hsame :
    canonical_request artist song timestamps sequence fast mood metadata
    = canonical_request artist' song' timestamps' sequence' fast' mood'
                        metadata' ->
    hashed_text artist song timestamps sequence fast mood metadata
    = hashed_text artist' song' timestamps' sequence' fast' mood' metadata').
  { unfold canonical_request, hashed_text, key_payload.
    intros [= -> -> -> -> -> -> ->]. reflexivity. }
  split; [apply hexdigest_shape |]. split.
  - intros Hcanon. unfold make_cache_key.
    change (json_dumps (key_payload artist song timestamps sequence fast
                                    mood metadata))
      with (hashed_text artist song timestamps sequence fast mood metadata).
    change (json_dumps (key_payload artist' song' timestamps' sequence' fast'
                                    mood' metadata'))
      with (hashed_text artist' song' timestamps' sequence' fast' mood'
                        metadata').
    now rewrite (Hsame Hcanon).
  - split; [apply hashed_text_inj | exact Hsame].
Qed.

(** C8, counterexample to the claim as stated.  Changing the artist
    argument from "Adele" to "adele" or to " Adele ", the song argument
    from "Hello" to "HELLO", or the sequence argument from [None] to the
    empty string, leaves the fingerprint unchanged. *)
Lemma cache_key_unchanged_by_some_changes :
  "Adele" <> "adele"
  /\ make_cache_key "Adele" "Hello" true (Some "2,3") false false false
     = make_cache_key "adele" "Hello" true (Some "2,3") false false false
  /\ make_cache_key "Adele" "Hello" true (Some "2,3") false false false
     = make_cache_key " Adele " "HELLO" true (Some "2,3") false false false
  /\ Some "" <> (None : option string)
  /\ make_cache_key "Adele" "Hello" true (Some "") false false false
     = make_cache_key "Adele" "Hello" true None false false false.
Proof.
  split; [discriminate |]. split; [reflexivity |]. split; [reflexivity |].
  split; [discriminate | reflexivity].
Qed.

(* ================================================================== *)
(** * Further properties of the orchestration *)
(* ================================================================== *)

Section OrchestrationProperties.
Context `{Builtins}.

(** The race task of an adapter succeeds exactly when the call ends within
    the bound with a candidate; the attempt then carries that candidate. *)
Lemma fetch_with_timeout_success (api_name : string) (f : fetcher)
    (artist_name song_title : string) (timestamps : bool) (timeout : Q) :
  truthy (get (fetch_with_timeout api_name f artist_name song_title
                                  timestamps timeout) "success") = true
  <-> timed_out timeout (f artist_name song_title timestamps) = false
      /\ exists d,
           candidate timestamps (f artist_name song_title timestamps) = Some d
           /\ fetch_with_timeout api_name f artist_name song_title
                                 timestamps timeout
              = [("api", VStr api_name); ("result", VDict d);
                 ("success", VBool true)].
Proof.
  unfold fetch_with_timeout, candidate.
  destruct (timed_out _ _); [split; [discriminate | intros [? _]; discriminate] |].
  destruct (outcome _) as [[d|]|e].
  - destruct (usable timestamps (Some d)).
    + split; [intros _ | reflexivity]. split; [reflexivity |]. eauto.
    + split; [discriminate | intros [_ (d' & ? & _)]; discriminate].
  - split; [discriminate | intros [_ (d' & ? & _)]; discriminate].
  - split; [destruct (exn_cls e); discriminate
           | intros [_ (d' & ? & _)]; discriminate].
Qed.

(** Every task of a race belongs to a configured provider of the
    sequence. *)
Lemma create_tasks_origin (w : world) (artist_name song_title : string)
    (timestamps : bool) (fetcher_ids : list Z) (fetcher_id : Z) (t : dict) :
  In (fetcher_id, t)
     (create_tasks w artist_name song_title timestamps fetcher_ids) ->
  In fetcher_id fetcher_ids
  /\ exists api_name f,
       all_fetchers w fetcher_id = Some (api_name, Some f)
       /\ t = fetch_with_timeout api_name f artist_name song_title
                                 timestamps 10.
Proof.
  induction fetcher_ids as [|i rest IH]; simpl; [intros [] |].
  destruct (all_fetchers w i) as [[api_name [f|]]|] eqn:Hall.
  - intros [[= <- <-] | Hin].
    + split; [now left | eauto].
    + destruct (IH Hin) as [Hi Ht]. split; [now right | exact Ht].
  - intros Hin. destruct (IH Hin) as [Hi Ht]. split; [now right | exact Ht].
  - intros Hin. destruct (IH Hin) as [Hi Ht]. split; [now right | exact Ht].
Qed.

Lemma create_tasks_started (w : world) (artist_name song_title : string)
    (timestamps : bool) (fetcher_ids : list Z) :
  map fst (create_tasks w artist_name song_title timestamps fetcher_ids)
  = List.filter (configured w) fetcher_ids.
Proof.
  induction fetcher_ids as [|i rest IH]; simpl; [reflexivity |].
  unfold configured at 1.
  destruct (all_fetchers w i) as [[api_name [f|]]|]; simpl; now rewrite IH.
Qed.

(** A result returned from inside the race loop is the result of a
    successful task. *)
Lemma race_done_origin (tasks : list (Z * dict)) (done : list nat)
    (attempts0 attempts : list value) (result : value) :
  race_done tasks done attempts0 = (attempts, Some result) ->
  exists fetcher_id t,
    In (fetcher_id, t) tasks
    /\ truthy (get t "success") = true
    /\ result = get t "result".
Proof.
  revert attempts0. induction done as [|i rest IH]; simpl; intros attempts0.
  - discriminate.
  - destruct (nth_error tasks i) as [[fetcher_id t]|] eqn:Hnth; [| apply IH].
    destruct (truthy (get t "success")) eqn:Hs; [| apply IH].
    intros [= _ <-]. exists fetcher_id, t.
    split; [eapply nth_error_In; eauto | auto].
Qed.

Lemma race_rounds_origin (tasks : list (Z * dict)) (rounds : list (list nat))
    (attempts0 attempts : list value) (result : value) :
  race_rounds tasks rounds attempts0 = (Some result, attempts) ->
  exists fetcher_id t,
    In (fetcher_id, t) tasks
    /\ truthy (get t "success") = true
    /\ result = get t "result".
Proof.
  revert attempts0. induction rounds as [|done rest IH]; simpl;
    intros attempts0.
  - discriminate.
  - destruct (race_done tasks done attempts0) as [att [r|]] eqn:Hdone.
    + intros [= <- _]. eapply race_done_origin; eauto.
    + apply IH.
Qed.

End OrchestrationProperties.

Section ReturnedResults.
Context `{Builtins}.

Lemma sequential_step_returns (artist_name song_title api_name : string)
    (timestamps : bool) (f : fetcher) (resp : dict) :
  sequential_step artist_name song_title timestamps api_name f = inl resp ->
  exists d,
    candidate timestamps (f artist_name song_title timestamps) = Some d
    /\ validates artist_name song_title d
    /\ resp = [("status", VStr "success"); ("data", VDict d)].
Proof.
  unfold sequential_step, candidate.
  destruct (outcome _) as [[d|]|e]; try discriminate.
  destruct (usable timestamps (Some d)) eqn:Hu; [| discriminate].
  rewrite (validate_single _ _ _ _ (usable_nonempty _ _ Hu)).
  destruct (validate_lyrics_match _ _ d _) as [verdict|e] eqn:Hv;
    [| discriminate].
  destruct (truthy (get verdict "valid")) eqn:Hvalid; [| discriminate].
  cbn. intros [= <-]. exists d. repeat split. exists verdict. auto.
Qed.

Lemma sequential_loop_returns (w : world) (artist_name song_title : string)
    (timestamps : bool) (fetcher_ids : list Z) (attempts0 : list value)
    (invoked0 : list Z) (resp : dict) :
  response (sequential_loop w artist_name song_title timestamps fetcher_ids
                            attempts0 invoked0) = Ok resp ->
  get resp "status" = VStr "success" ->
  exists fetcher_id api_name f d,
    In fetcher_id fetcher_ids
    /\ all_fetchers w fetcher_id = Some (api_name, Some f)
    /\ candidate timestamps (f artist_name song_title timestamps) = Some d
    /\ validates artist_name song_title d
    /\ get resp "data" = VDict d.
Proof.
  revert attempts0 invoked0.
  induction fetcher_ids as [|i rest IH]; intros attempts0 invoked0;
    cbn [sequential_loop].
  - cbn [response]. intros [= <-]. discriminate.
  - destruct (all_fetchers w i) as [[api_name [f|]]|] eqn:Hall.
    + destruct (sequential_step _ _ _ api_name f) as [r|attempt] eqn:Hstep.
      * cbn [response]. intros [= <-] _.
        destruct (sequential_step_returns _ _ _ _ _ _ Hstep)
          as (d & Hc & Hv & ->).
        exists i, api_name, f, d. repeat split; auto. now left.
      * intros Hr Hs. destruct (IH _ _ Hr Hs) as (j & n & g & d & Hin & Hrest).
        exists j, n, g, d. split; [now right | exact Hrest].
    + intros Hr Hs. destruct (IH _ _ Hr Hs) as (j & n & g & d & Hin & Hrest).
      exists j, n, g, d. split; [now right | exact Hrest].
    + cbn [response]. discriminate.
Qed.

Lemma race_verdict_returns (w : world)
    (artist_name song_title api_name : string) (failed : list value)
    (d resp : dict) :
  Forall failed_attempt failed ->
  truthy (VDict d) = true ->
  race_verdict w artist_name song_title (VDict d)
               (failed ++ [successful_attempt api_name d]) = Ok resp ->
  get resp "status" = VStr "success" ->
  validates artist_name song_title d /\ get resp "data" = VDict d.
Proof.
  intros Hfailed Hd Hrace Hstatus.
  destruct (validate_lyrics_match artist_name song_title d (3 # 4))
    as [verdict|e] eqn:Hv.
  - destruct (race_verdict_spec w artist_name song_title api_name failed d
                verdict Hfailed Hd Hv) as (resp' & Hresp' & Hcases).
    rewrite Hrace in Hresp'. injection Hresp' as <-.
    destruct (truthy (get verdict "valid")) eqn:Hvalid.
    + split; [exists verdict; auto | tauto].
    + subst resp. discriminate.
  - exfalso. revert Hrace. unfold race_verdict, validate_and_filter_results.
    rewrite (collect_valid_skips_failed _ _ _ _ _ Hfailed).
    unfold collect_valid, filter_attempt, successful_attempt.
    cbn [get get_default has_key String.eqb Ascii.eqb Bool.eqb truthy negb
         andb].
    cbn [truthy] in Hd. rewrite Hd, Hv. discriminate.
Qed.

Lemma run_sequence_returns (w : world) (artist_name song_title : string)
    (timestamps parallel : bool) (fetcher_ids : list Z) (resp : dict) :
  response (run_sequence w artist_name song_title timestamps parallel
                         fetcher_ids) = Ok resp ->
  get resp "status" = VStr "success" ->
  exists fetcher_id api_name f d,
    In fetcher_id fetcher_ids
    /\ all_fetchers w fetcher_id = Some (api_name, Some f)
    /\ candidate timestamps (f artist_name song_title timestamps) = Some d
    /\ validates artist_name song_title d
    /\ get resp "data" = VDict d.
Proof.
  unfold run_sequence. destruct parallel; [| apply sequential_loop_returns].
  unfold fetch_lyrics_parallel.
  pose proof (create_tasks_shape w artist_name song_title timestamps
                fetcher_ids) as Hshape.
  destruct (create_tasks _ _ _ _ fetcher_ids) as [|task tasks] eqn:Htasks.
  - cbn. intros [= <-]. discriminate.
  - pose proof (race_rounds_spec (task :: tasks) (completion w) [] Hshape)
      as Hspec.
    destruct (race_rounds _ _ _) as [[r|] batch] eqn:Hrounds.
    + destruct Hspec as (failed & api & d & -> & -> & Hd & Hfailed).
      cbn [response app]. cbn [truthy] in Hd. cbn [truthy]. rewrite Hd.
      intros Hrace Hstatus.
      destruct (race_verdict_returns w _ _ api failed d resp Hfailed Hd
                  Hrace Hstatus) as [Hvalid Hdata].
      destruct (race_rounds_origin _ _ _ _ _ Hrounds)
        as (i & t & Hin & Hsuccess & Hres).
      rewrite <- Htasks in Hin.
      destruct (create_tasks_origin _ _ _ _ _ _ _ Hin)
        as (Hi & n & f & Hall & ->).
      apply fetch_with_timeout_success in Hsuccess.
      destruct Hsuccess as (_ & d' & Hc & Heq). rewrite Heq in Hres.
      cbn in Hres. injection Hres as ->.
      exists i, n, f, d'. auto.
    + cbn. intros [= <-]. discriminate.
Qed.

(** X1.  Whatever the mode and the sequence, a response of the controller
    with the status "success" carries as data a candidate that an adapter
    registered in the provider table has returned for this request and
    that the matcher has accepted: no result reaches the caller without
    validation. *)
Theorem success_is_a_validated_candidate (w : world)
    (artist_name song_title : string) (timestamps pass_param : bool)
    (sequence : option string) (fast_mode : bool) (resp : dict) :
  response (fetch_lyrics_controller w artist_name song_title timestamps
                                    pass_param sequence fast_mode) = Ok resp ->
  get resp "status" = VStr "success" ->
  exists fetcher_id api_name f d,
    all_fetchers w fetcher_id = Some (api_name, Some f)
    /\ candidate timestamps (f artist_name song_title timestamps) = Some d
    /\ validates artist_name song_title d
    /\ get resp "data" = VDict d.
Proof.
  unfold fetch_lyrics_controller.
  assert (Hrun : forall parallel ids,
    response (run_sequence w artist_name song_title timestamps parallel ids)
      = Ok resp ->
    get resp "status" = VStr "success" ->
    exists fetcher_id api_name f d,
      all_fetchers w fetcher_id = Some (api_name, Some f)
      /\ candidate timestamps (f artist_name song_title timestamps) = Some d
      /\ validates artist_name song_title d
      /\ get resp "data" = VDict d).
  { intros parallel ids Hr Hs.
    destruct (run_sequence_returns _ _ _ _ _ _ _ Hr Hs)
      as (i & n & f & d & _ & Hrest). eauto. }
  destruct fast_mode; [apply Hrun |].
  destruct (custom_sequence pass_param sequence) as [s|]; [| apply Hrun].
  destruct (parse_sequence s) as [ids|e].
  - destruct (invalid_sequence ids); [| apply Hrun].
    cbn. intros [= <-]. discriminate.
  - cbn. intros [= <-]. discriminate.
Qed.

End ReturnedResults.

Lemma success_is_a_validated_candidate_witness :
  exists fetcher_id api_name f d,
    all_fetchers second_provider_matches fetcher_id = Some (api_name, Some f)
    /\ candidate true (f "Adele" "Hello" true) = Some d
    /\ validates "Adele" "Hello" d
    /\ get [("status", VStr "success");
            ("data", VDict (hello_synced "simpmusic"))] "data" = VDict d.
Proof.
  apply (success_is_a_validated_candidate second_provider_matches
           "Adele" "Hello" true false None false
           [("status", VStr "success");
            ("data", VDict (hello_synced "simpmusic"))]).
  - vm_compute. reflexivity.
  - reflexivity.
Defined.

Section Exhaustion.
Context `{Builtins}.

Lemma sequential_loop_exhausted (w : world) (artist_name song_title : string)
    (timestamps : bool) (fetcher_ids : list Z) (attempts0 : list value)
    (invoked0 : list Z) :
  Forall (yields_no_valid_candidate w artist_name song_title timestamps)
         fetcher_ids ->
  exists recorded,
    sequential_loop w artist_name song_title timestamps fetcher_ids
                    attempts0 invoked0
    = {| response :=
           Ok (error_response w (no_lyrics_message artist_name song_title));
         attempts := (attempts0 ++ recorded)%list;
         invoked := (invoked0 ++ List.filter (configured w) fetcher_ids)%list |}
    /\ Forall2 (skipped_attempt w) fetcher_ids recorded.
Proof.
  intros Hall. revert attempts0 invoked0.
  induction Hall as [|q rest Hq Hrest IH]; intros attempts0 invoked0.
  - exists []. split; [| constructor]. cbn. now rewrite !app_nil_r.
  - destruct Hq as (nm & registered & Hentry & Hrej).
    cbn [sequential_loop List.filter].
    replace (configured w q)
      with (match registered with Some _ => true | None => false end)
      by (unfold configured; now rewrite Hentry).
    rewrite Hentry. destruct registered as [fq|].
    + destruct (sequential_step_rejects artist_name song_title nm timestamps
                  fq (Hrej fq eq_refl)) as (attempt & status & -> & Hatt & Hin).
      destruct (IH (attempts0 ++ [attempt])%list (invoked0 ++ [q])%list)
        as (recorded & -> & Hrec).
      exists (attempt :: recorded). split.
      * f_equal; rewrite <- app_assoc; reflexivity.
      * constructor; [| exact Hrec].
        exists status. unfold api_name_of. rewrite Hentry.
        split; [exact Hatt |]. simpl in Hin |- *. tauto.
    + destruct (IH (attempts0
                    ++ [VDict [("api", VStr nm);
                               ("status", VStr "not_configured")]])%list
                   invoked0) as (recorded & -> & Hrec).
      eexists (_ :: recorded). split.
      * f_equal. rewrite <- app_assoc. reflexivity.
      * constructor; [| exact Hrec].
        exists "not_configured". unfold api_name_of. rewrite Hentry.
        split; [eexists; reflexivity | simpl; auto].
Qed.

End Exhaustion.

(** X2.  When no provider of the sequence hands over a candidate that
    validates, the sequential run ends with the "No lyrics found" error,
    after having called every configured provider of the sequence once, in
    order, and recorded one attempt for each provider of the sequence. *)
Theorem sequential_run_exhausted `{Builtins} (w : world)
    (artist_name song_title : string) (timestamps : bool)
    (fetcher_ids : list Z) :
  Forall (yields_no_valid_candidate w artist_name song_title timestamps)
         fetcher_ids ->
  let r := run_sequence w artist_name song_title timestamps false
                        fetcher_ids in
  response r
  = Ok [("status", VStr "error");
        ("error",
         VDict [("message",
                 VStr ("No lyrics found for '" ++ song_title ++ "' by '"
                       ++ artist_name ++ "'"));
                ("timestamp", VStr (utc_now w))])]
  /\ invoked r = List.filter (configured w) fetcher_ids
  /\ Forall2 (skipped_attempt w) fetcher_ids (attempts r).
Proof.
  intros Hall. cbv zeta. unfold run_sequence.
  destruct (sequential_loop_exhausted w artist_name song_title timestamps
              fetcher_ids [] [] Hall) as (recorded & -> & Hrec).
  cbn. auto.
Qed.

Lemma sequential_run_exhausted_witness :
  let r := run_sequence nothing_found "Adele" "Hello" false false [2; 3; 4; 5] in
  response r
  = Ok [("status", VStr "error");
        ("error",
         VDict [("message",
                 VStr ("No lyrics found for '" ++ "Hello" ++ "' by '"
                       ++ "Adele" ++ "'"));
                ("timestamp", VStr (utc_now nothing_found))])]
  /\ invoked r = List.filter (configured nothing_found) [2; 3; 4; 5]
  /\ Forall2 (skipped_attempt nothing_found) [2; 3; 4; 5] (attempts r).
Proof.
  apply (sequential_run_exhausted nothing_found "Adele" "Hello" false
           [2; 3; 4; 5]).
  repeat constructor.
  - eexists _, _. split; [reflexivity |].
    intros f [= <-] d. discriminate.
  - eexists _, _. split; [reflexivity |].
    intros f [= <-] d. discriminate.
  - eexists _, _. split; [reflexivity |].
    intros f [= <-] d [= <-] (verdict & Hv & Hvalid).
    vm_compute in Hv. injection Hv as <-. discriminate.
  - eexists _, _. split; [reflexivity |]. discriminate.
Defined.

(** What the exhausted run above leaves behind. *)
Example exhausted_attempts :
  attempts (run_sequence nothing_found "Adele" "Hello" false false [2; 3; 4; 5])
  = [VDict [("api", VStr "LRCLIB"); ("status", VStr "error");
            ("message", VStr "connection refused")];
     VDict [("api", VStr "SimpMusic"); ("status", VStr "no_results")];
     VDict [("api", VStr "YouTube Music"); ("status", VStr "validation_failed")];
     VDict [("api", VStr "Lyrics.ovh"); ("status", VStr "not_configured")]].
Proof. vm_compute. reflexivity. Qed.

Section Absorption.
Context `{Builtins}.

Lemma sequential_loop_responds (w : world) (artist_name song_title : string)
    (timestamps : bool) (fetcher_ids : list Z) (attempts0 : list value)
    (invoked0 : list Z) :
  Forall (fun i => fetcher_entry i <> None) fetcher_ids ->
  exists resp,
    response (sequential_loop w artist_name song_title timestamps
                              fetcher_ids attempts0 invoked0) = Ok resp.
Proof.
  intros Hids. revert attempts0 invoked0.
  induction Hids as [|i rest Hi Hrest IH]; intros attempts0 invoked0;
    cbn [sequential_loop].
  - eexists. reflexivity.
  - unfold all_fetchers.
    destruct (fetcher_entry i) as [[api_name key]|]; [| congruence].
    destruct (ALL_FETCHERS w key) as [f|]; [| apply IH].
    destruct (sequential_step _ _ _ api_name f); [| apply IH].
    eexists. reflexivity.
Qed.

Lemma valid_sequence_in_table (fetcher_ids : list Z) :
  invalid_sequence fetcher_ids = false ->
  Forall (fun i => fetcher_entry i <> None) fetcher_ids.
Proof.
  unfold invalid_sequence. intros Hvalid.
  apply orb_false_iff in Hvalid. destruct Hvalid as [Hvalid _].
  apply orb_false_iff in Hvalid. destruct Hvalid as [Hvalid _].
  apply orb_false_iff in Hvalid. destruct Hvalid as [_ Hrange].
  apply negb_false_iff in Hrange. rewrite forallb_forall in Hrange.
  apply List.Forall_forall. intros i Hin. specialize (Hrange i Hin).
  apply andb_true_iff in Hrange. destruct Hrange as [Hlo Hhi].
  apply Z.leb_le in Hlo. apply Z.leb_le in Hhi.
  assert (Hcases : i = 1 \/ i = 2 \/ i = 3 \/ i = 4 \/ i = 5 \/ i = 6) by lia.
  destruct Hcases as [-> | [-> | [-> | [-> | [-> | ->]]]]]; discriminate.
Qed.

End Absorption.

(** X3.  An exception escapes the controller only from a race: when fast
    mode is off, a response that is an exception means that a custom
    sequence of more than one provider was run.  A sequential run absorbs
    every exception of an adapter or of the matcher as an error attempt
    and always returns a response. *)
Theorem exception_escapes_only_from_race `{Builtins} (w : world)
    (artist_name song_title : string) (timestamps pass_param : bool)
    (sequence : option string) (e : exn) :
  response (fetch_lyrics_controller w artist_name song_title timestamps
                                    pass_param sequence false) = Raise e ->
  exists s fetcher_ids,
    custom_sequence pass_param sequence = Some s
    /\ parse_sequence s = Ok fetcher_ids
    /\ (1 < length fetcher_ids)%nat.
Proof.
  unfold fetch_lyrics_controller.
  destruct (custom_sequence pass_param sequence) as [s|].
  - destruct (parse_sequence s) as [ids|e'] eqn:Hparse; [| discriminate].
    destruct (invalid_sequence ids) eqn:Hvalid; [discriminate |].
    destruct (1 <? length ids)%nat eqn:Hlen.
    + intros _. exists s, ids. apply Nat.ltb_lt in Hlen. auto.
    + unfold run_sequence.
      destruct (sequential_loop_responds w artist_name song_title timestamps
                  ids [] [] (valid_sequence_in_table ids Hvalid))
        as (resp & ->). discriminate.
  - unfold run_sequence.
    destruct (sequential_loop_responds w artist_name song_title timestamps
                (if timestamps then DEFAULT_SYNCED_SEQUENCE
                 else DEFAULT_PLAIN_SEQUENCE) [] []) as (resp & ->);
      [| discriminate].
    destruct timestamps; repeat constructor; discriminate.
Qed.

Lemma exception_escapes_only_from_race_witness :
  exists s fetcher_ids,
    custom_sequence true (Some "2,3") = Some s
    /\ parse_sequence s = Ok fetcher_ids
    /\ (1 < length fetcher_ids)%nat.
Proof.
  apply (exception_escapes_only_from_race bad_artist_world "Adele" "Hello"
           false true (Some "2,3")
           (Exn TypeError "expected string or bytes-like object")).
  vm_compute. reflexivity.
Defined.

(** The same result in a sequential run is recorded as an error attempt
    and the run goes on to its end. *)
Example sequential_absorbs_matcher_error :
  let r := fetch_lyrics_controller bad_artist_world "Adele" "Hello"
             false true (Some "2") false in
  response r
  = Ok (error_response bad_artist_world (no_lyrics_message "Adele" "Hello"))
  /\ attempts r
     = [VDict [("api", VStr "LRCLIB"); ("status", VStr "error");
               ("message", VStr "expected string or bytes-like object")]].
Proof. vm_compute. auto. Qed.

(** X4.  One call per provider and run: in both modes the adapters called
    by a run are, in sequence order, a prefix of the configured providers
    of the fetch sequence; a race starts all of them (or none, when none is
    configured), and no provider outside the sequence is ever called. *)
Theorem invoked_is_prefix_of_sequence `{Builtins} (w : world)
    (artist_name song_title : string) (timestamps parallel : bool)
    (fetcher_ids : list Z) :
  (exists rest,
     List.filter (configured w) fetcher_ids
     = (invoked (run_sequence w artist_name song_title timestamps parallel
                              fetcher_ids) ++ rest)%list)
  /\ (parallel = true ->
      invoked (run_sequence w artist_name song_title timestamps true
                            fetcher_ids)
      = List.filter (configured w) fetcher_ids).
Proof.
  assert (Hrace :
    invoked (run_sequence w artist_name song_title timestamps true fetcher_ids)
    = List.filter (configured w) fetcher_ids).
  { unfold run_sequence, fetch_lyrics_parallel.
    rewrite <- (create_tasks_started w artist_name song_title timestamps).
    destruct (create_tasks _ _ _ _ fetcher_ids) as [|task tasks].
    - reflexivity.
    - destruct (race_rounds _ _ _) as [r batch]. reflexivity. }
  split; [| intros _; exact Hrace].
  destruct parallel.
  - exists []. now rewrite app_nil_r, Hrace.
  - unfold run_sequence.
    assert (Hloop : forall ids attempts0 invoked0,
      exists rest,
        (invoked0 ++ List.filter (configured w) ids)%list
        = (invoked (sequential_loop w artist_name song_title timestamps ids
                                    attempts0 invoked0) ++ rest)%list).
    { induction ids as [|i ids IH]; intros attempts0 invoked0;
        cbn [sequential_loop List.filter].
      - exists []. reflexivity.
      - unfold configured at 1.
        destruct (all_fetchers w i) as [[api_name [f|]]|] eqn:Hentry.
        + destruct (sequential_step _ _ _ api_name f).
          * cbn [invoked]. exists (List.filter (configured w) ids).
            now rewrite <- app_assoc.
          * destruct (IH (attempts0 ++ [v])%list (invoked0 ++ [i])%list)
              as (rest & Hrest).
            exists rest. rewrite <- Hrest, <- app_assoc. reflexivity.
        + apply IH.
        + cbn [invoked]. eexists. reflexivity. }
    destruct (Hloop fetcher_ids [] []) as (rest & Hrest). exists rest.
    exact Hrest.
Qed.

(** X5.  When every configured provider of the sequence fails within the
    race (its call exceeds the bound, raises, or hands over no candidate),
    the race ends with the "No lyrics found" error, in whatever order the
    tasks complete. *)
Theorem race_without_success `{Builtins} (w : world)
    (artist_name song_title : string) (timestamps : bool)
    (fetcher_ids : list Z) :
  (forall fetcher_id api_name f,
     In fetcher_id fetcher_ids ->
     all_fetchers w fetcher_id = Some (api_name, Some f) ->
     timed_out 10 (f artist_name song_title timestamps) = true
     \/ candidate timestamps (f artist_name song_title timestamps) = None) ->
  response (run_sequence w artist_name song_title timestamps true fetcher_ids)
  = Ok [("status", VStr "error");
        ("error",
         VDict [("message",
                 VStr ("No lyrics found for '" ++ song_title ++ "' by '"
                       ++ artist_name ++ "'"));
                ("timestamp", VStr (utc_now w))])].
Proof.
  intros Hfail. unfold run_sequence, fetch_lyrics_parallel.
  destruct (create_tasks _ _ _ _ fetcher_ids) as [|task tasks] eqn:Htasks.
  - reflexivity.
  - destruct (race_rounds _ _ _) as [[r|] batch] eqn:Hrounds;
      [| reflexivity].
    destruct (race_rounds_origin _ _ _ _ _ Hrounds)
      as (i & t & Hin & Hsuccess & _).
    rewrite <- Htasks in Hin.
    destruct (create_tasks_origin _ _ _ _ _ _ _ Hin) as (Hi & n & f & Hentry & ->).
    apply fetch_with_timeout_success in Hsuccess.
    destruct Hsuccess as (Hintime & d & Hcand & _).
    destruct (Hfail i n f Hi Hentry) as [Hslow | Hnone]; congruence.
Qed.

Lemma race_without_success_witness :
  response (run_sequence nothing_found "Adele" "Hello" false true [2; 3])
  = Ok [("status", VStr "error");
        ("error",
         VDict [("message",
                 VStr ("No lyrics found for '" ++ "Hello" ++ "' by '"
                       ++ "Adele" ++ "'"));
                ("timestamp", VStr (utc_now nothing_found))])].
Proof.
  apply (race_without_success nothing_found "Adele" "Hello" false [2; 3]).
  intros fetcher_id api_name f [<- | [<- | []]] [= <- <-]; right; reflexivity.
Defined.

(* ================================================================== *)
(** * Further properties of the matcher *)
(* ================================================================== *)

Section Thresholds.
Context `{Builtins}.

Lemma Qge_bool_lower (x t t' : Q) :
  (t' <= t)%Q -> Qge_bool x t = true -> Qge_bool x t' = true.
Proof.
  intros Hle Hge. apply Qge_bool_iff. apply Qge_bool_iff in Hge.
  eapply Qle_trans; eauto.
Qed.

Lemma artist_check_lower (t t' : Q) (returned_artists : list string)
    (raw returned_song req tag : string) :
  (t' <= t)%Q ->
  artist_check t returned_artists raw returned_song req = Some tag ->
  exists tag',
    artist_check t' returned_artists raw returned_song req = Some tag'.
Proof.
  intros Hle. unfold artist_check.
  destruct (existsb (fun ret => Qge_bool (get_similarity_ratio req ret) t)
                    returned_artists) eqn:Ht.
  - intros _. apply existsb_exists in Ht. destruct Ht as (ret & Hin & Hge).
    assert (Ht' : existsb (fun ret => Qge_bool (get_similarity_ratio req ret) t')
                          returned_artists = true).
    { apply existsb_exists. exists ret. split; [exact Hin |].
      eapply Qge_bool_lower; eauto. }
    rewrite Ht'. eexists. reflexivity.
  - intros Hrest.
    destruct (existsb (fun ret => Qge_bool (get_similarity_ratio req ret) t')
                      returned_artists); [eexists; reflexivity |].
    rewrite Hrest. eexists. reflexivity.
Qed.

Lemma artist_loop_lower (t t' : Q) (returned_artists : list string)
    (raw returned_song : string) (requested_artists : list string) :
  (t' <= t)%Q ->
  fst (artist_loop t returned_artists raw returned_song requested_artists)
    = true ->
  fst (artist_loop t' returned_artists raw returned_song requested_artists)
    = true.
Proof.
  intros Hle. induction requested_artists as [|req rest IH]; simpl.
  - discriminate.
  - destruct (artist_check t returned_artists raw returned_song req)
      as [tag|] eqn:Hc.
    + intros _.
      destruct (artist_check_lower t t' _ _ _ _ _ Hle Hc) as (tag' & ->).
      reflexivity.
    + intros Hrest.
      destruct (artist_check t' returned_artists raw returned_song req);
        [reflexivity | auto].
Qed.

End Thresholds.

(** X8.  Lowering the threshold never turns an accepted candidate into a
    rejected one: a candidate that the matcher accepts at a threshold is
    accepted at every lower threshold. *)
Theorem acceptance_survives_lower_threshold `{Builtins}
    (requested_artist requested_song : string) (result : dict)
    (threshold threshold' : Q) (verdict : dict) :
  (threshold' <= threshold)%Q ->
  validate_lyrics_match requested_artist requested_song result threshold
    = Ok verdict ->
  get verdict "valid" = VBool true ->
  exists verdict',
    validate_lyrics_match requested_artist requested_song result threshold'
      = Ok verdict'
    /\ get verdict' "valid" = VBool true.
Proof.
  intros Hle Hv Hvalid.
  destruct (extract_artist_song_from_result result) as [[arts song]|e]
    eqn:Hex.
  - assert (Harts : arts = [] \/ arts <> [])
      by (destruct arts; [left | right]; congruence).
    destruct Harts as [Harts | Harts].
    { rewrite (validate_missing_metadata _ _ _ _ _ _ Hex (or_introl Harts))
        in Hv. injection Hv as <-. discriminate. }
    assert (Hsong : song = "" \/ song <> "")
      by (destruct song; [left | right]; congruence).
    destruct Hsong as [Hsong | Hsong].
    { rewrite (validate_missing_metadata _ _ _ _ _ _ Hex (or_intror Hsong))
        in Hv. injection Hv as <-. discriminate. }
    rewrite (validate_with_metadata _ _ _ _ _ _ Hex Harts Hsong) in Hv.
    rewrite (validate_with_metadata _ _ _ _ _ _ Hex Harts Hsong).
    injection Hv as <-. eexists. split; [reflexivity |].
    cbn [get get_default String.eqb Ascii.eqb Bool.eqb] in Hvalid |- *.
    injection Hvalid as Hvalid. apply andb_true_iff in Hvalid.
    destruct Hvalid as [Hfound Hsim].
    rewrite (artist_loop_lower _ _ _ _ _ _ Hle Hfound),
            (Qge_bool_lower _ _ _ Hle Hsim).
    reflexivity.
  - unfold validate_lyrics_match in Hv. rewrite Hex in Hv. discriminate.
Qed.

Lemma acceptance_survives_lower_threshold_witness :
  exists verdict',
    validate_lyrics_match "Ed Sheeran" "Shape of You"
      [("artist", VStr "Ed Sheeran, Stormzy");
       ("song", VStr "Shape Of You (Remix)")] (1 # 2) = Ok verdict'
    /\ get verdict' "valid" = VBool true.
Proof.
  apply (acceptance_survives_lower_threshold "Ed Sheeran" "Shape of You"
           [("artist", VStr "Ed Sheeran, Stormzy");
            ("song", VStr "Shape Of You (Remix)")] (3 # 4) (1 # 2)
           [("valid", VBool true);
            ("reason", VStr "Matched via Artist List");
            ("returned_artists", VList [VStr "ed sheeran"; VStr "stormzy"]);
            ("returned_song", VStr "shape of you remix");
            ("song_match", VFloat (4 # 5))]).
  - vm_compute. discriminate.
  - vm_compute. reflexivity.
  - reflexivity.
Defined.

Section Readable.
Context `{Builtins}.

Lemma map_res_readable (l : list value) :
  Forall (fun a => truthy a = true -> exists s, a = VStr s) l ->
  exists names, map_res normalize_item (List.filter truthy l) = Ok names.
Proof.
  induction 1 as [|a l Ha _ IH]; simpl.
  - eexists. reflexivity.
  - destruct (truthy a) eqn:Ht; [| exact IH].
    destruct (Ha eq_refl) as (s & ->). destruct IH as (names & Hnames).
    simpl. rewrite Hnames. eexists. reflexivity.
Qed.

Lemma py_or_readable (x y : value) :
  readable_artist x -> readable_artist y -> readable_artist (py_or x y).
Proof. unfold py_or. now destruct (truthy x). Qed.

End Readable.

(** X9.  The matcher raises only on unreadable artist metadata: when none
    of the artist fields of a result is a list holding a non-empty object
    that is not text, validation returns a verdict, whatever else the
    result holds. *)
Theorem validation_returns_on_readable_metadata `{Builtins}
    (requested_artist requested_song : string) (result : dict)
    (threshold : Q) :
  Forall (fun key => readable_artist (get result key)) artist_keys ->
  exists verdict,
    validate_lyrics_match requested_artist requested_song result threshold
      = Ok verdict.
Proof.
  intros Hkeys.
  assert (Hex : exists arts song,
            extract_artist_song_from_result result = Ok (arts, song)).
  { unfold extract_artist_song_from_result.
    inversion Hkeys as [|k1 l1 H1 Hk1]; subst.
    inversion Hk1 as [|k2 l2 H2 Hk2]; subst.
    inversion Hk2 as [|k3 l3 H3 Hk3]; subst.
    inversion Hk3 as [|k4 l4 H4 _]; subst.
    pose proof (py_or_readable _ _
                  (py_or_readable _ _ (py_or_readable _ _ H1 H2) H3) H4)
      as Hartist.
    destruct (py_or (py_or (py_or (get result "artist") (get result "artists"))
                           (get result "artist_name"))
                    (get result "trackArtist")) as [| | | | | |l|];
      try (do 2 eexists; reflexivity).
    destruct (map_res_readable l Hartist) as (names & ->).
    do 2 eexists. reflexivity. }
  destruct Hex as (arts & song & Hex).
  assert (Harts : arts = [] \/ arts <> [])
    by (destruct arts; [left | right]; congruence).
  destruct Harts as [Harts | Harts].
  { rewrite (validate_missing_metadata _ _ _ _ _ _ Hex (or_introl Harts)).
    eauto. }
  assert (Hsong : song = "" \/ song <> "")
    by (destruct song; [left | right]; congruence).
  destruct Hsong as [Hsong | Hsong].
  { rewrite (validate_missing_metadata _ _ _ _ _ _ Hex (or_intror Hsong)).
    eauto. }
  rewrite (validate_with_metadata requested_artist requested_song result
             threshold arts song Hex Harts Hsong).
  eauto.
Qed.

Lemma validation_returns_on_readable_metadata_witness :
  exists verdict,
    validate_lyrics_match "Adele" "Hello"
      [("artists", VList [VStr "Adele"; VNone; VStr ""]);
       ("name", VInt 7)] (3 # 4) = Ok verdict.
Proof.
  apply (validation_returns_on_readable_metadata "Adele" "Hello"
           [("artists", VList [VStr "Adele"; VNone; VStr ""]);
            ("name", VInt 7)] (3 # 4)).
  repeat constructor; cbn; try discriminate. intros _. eauto.
Defined.

(** A list of artists that holds a number makes the matcher raise. *)
Example validation_raises_on_number :
  validate_lyrics_match "Adele" "Hello" hello_bad_artist (3 # 4)
  = Raise (Exn TypeError "expected string or bytes-like object").
Proof. reflexivity. Qed.

(* ------------------------------------------------------------------ *)
(** ** Normal forms *)
(* ------------------------------------------------------------------ *)

Lemma blank_is_space (c : ascii) : Ascii.eqb c " " = true -> Text.is_space c = true.
Proof. intros Hc. apply Ascii.eqb_eq in Hc. now subst c. Qed.

Lemma lower_char_facts (c : ascii) :
  Text.is_space (Text.lower_char c) = Text.is_space c
  /\ Ascii.eqb (Text.lower_char c) " " = Ascii.eqb c " "
  /\ (Text.is_word c = true -> normal_char (Text.lower_char c) = true)
  /\ (normal_char c = true ->
      Text.lower_char c = c
      /\ Text.is_word c || Text.is_space c = true).
Proof.
  destruct c as [[] [] [] [] [] [] [] []]; vm_compute;
    repeat split; intros; try reflexivity; try discriminate.
Qed.

Lemma lstrip_idem (l : list ascii) :
  Text.lstrip_chars (Text.lstrip_chars l) = Text.lstrip_chars l.
Proof.
  induction l as [|c r IH]; simpl; [reflexivity |].
  destruct (Text.is_space c) eqn:Hc; [exact IH |]. simpl. now rewrite Hc.
Qed.

(** What [lstrip] removes is a run of white space in front. *)
Lemma lstrip_split (l : list ascii) :
  exists p, l = (p ++ Text.lstrip_chars l)%list.
Proof.
  induction l as [|c r (p & Hp)]; simpl.
  - exists []. reflexivity.
  - destruct (Text.is_space c).
    + exists (c :: p). simpl. now rewrite <- Hp.
    + exists []. reflexivity.
Qed.

Lemma lstrip_keeps_last (m : list ascii) (c : ascii) :
  Text.is_space c = false ->
  exists m', Text.lstrip_chars (m ++ [c]) = (m' ++ [c])%list.
Proof.
  intros Hc. induction m as [|a m (m' & IH)]; simpl.
  - rewrite Hc. exists []. reflexivity.
  - destruct (Text.is_space a).
    + exists m'. exact IH.
    + exists (a :: m). reflexivity.
Qed.

Lemma strip_chars_stripped (l : list ascii) :
  Text.lstrip_chars (strip_chars l) = strip_chars l
  /\ Text.lstrip_chars (rev (strip_chars l)) = rev (strip_chars l).
Proof.
  unfold strip_chars. split.
  - pose proof (lstrip_idem l) as Hidem.
    destruct (Text.lstrip_chars l) as [|c r] eqn:Hl; [reflexivity |].
    assert (Hc : Text.is_space c = false).
    { simpl in Hidem. destruct (Text.is_space c); [| reflexivity].
      exfalso. pose proof (lstrip_split r) as (p & Hp).
      apply (f_equal (@length ascii)) in Hidem.
      apply (f_equal (@length ascii)) in Hp.
      rewrite length_app in Hp. simpl in Hidem. lia. }
    simpl. destruct (lstrip_keeps_last (rev r) c Hc) as (m' & ->).
    rewrite rev_app_distr. simpl. now rewrite Hc.
  - rewrite rev_involutive. apply lstrip_idem.
Qed.

Lemma strip_chars_fixed (l : list ascii) :
  Text.lstrip_chars l = l -> Text.lstrip_chars (rev l) = rev l ->
  strip_chars l = l.
Proof.
  unfold strip_chars. intros -> ->. apply rev_involutive.
Qed.

(** [strip] keeps a middle part of the text. *)
Lemma strip_chars_middle (l : list ascii) :
  exists p q, l = (p ++ strip_chars l ++ q)%list.
Proof.
  unfold strip_chars.
  destruct (lstrip_split l) as (p & Hp).
  destruct (lstrip_split (rev (Text.lstrip_chars l))) as (q & Hq).
  exists p, (rev q). rewrite <- rev_app_distr, <- Hq, rev_involutive.
  exact Hp.
Qed.

Lemma single_spaced_weaken (b : bool) (l : list ascii) :
  single_spaced b l = true -> single_spaced false l = true.
Proof.
  destruct l as [|c r]; simpl; [reflexivity |].
  destruct (Ascii.eqb c " "); [| auto].
  intros Hs. apply andb_true_iff in Hs. now destruct Hs as [_ ->].
Qed.

Lemma single_spaced_prefix (b : bool) (l q : list ascii) :
  single_spaced b (l ++ q) = true -> single_spaced b l = true.
Proof.
  revert b. induction l as [|c l IH]; intros b; simpl; [reflexivity |].
  destruct (Ascii.eqb c " "); intros Hs;
    apply andb_true_iff in Hs; destruct Hs as [-> Hs]; simpl; eauto.
Qed.

Lemma single_spaced_suffix (b : bool) (p l : list ascii) :
  single_spaced b (p ++ l) = true -> single_spaced false l = true.
Proof.
  revert b. induction p as [|c p IH]; intros b; simpl.
  - apply single_spaced_weaken.
  - destruct (Ascii.eqb c " "); intros Hs;
      apply andb_true_iff in Hs; destruct Hs as [_ Hs]; eauto.
Qed.

Lemma single_spaced_middle (p l q : list ascii) (b : bool) :
  single_spaced b (p ++ l ++ q) = true -> single_spaced false l = true.
Proof.
  intros Hs. apply single_spaced_suffix in Hs.
  now apply single_spaced_prefix in Hs.
Qed.

Lemma not_blank (c : ascii) : Text.is_space c = false -> Ascii.eqb c " " = false.
Proof.
  intros Hc. destruct (Ascii.eqb c " ") eqn:Hb; [| reflexivity].
  apply blank_is_space in Hb. congruence.
Qed.

Lemma collapse_single_spaced (b : bool) (l : list ascii) :
  single_spaced b (Regex.collapse_spaces b l) = true.
Proof.
  revert b. induction l as [|c r IH]; intros b; simpl; [reflexivity |].
  destruct (Text.is_space c) eqn:Hc.
  - destruct b; [apply IH |]. simpl. apply IH.
  - simpl. rewrite (not_blank c Hc), Hc. simpl. apply IH.
Qed.

Lemma collapse_fixed (b : bool) (l : list ascii) :
  single_spaced b l = true -> Regex.collapse_spaces b l = l.
Proof.
  revert b. induction l as [|c r IH]; intros b; simpl; [reflexivity |].
  destruct (Ascii.eqb c " ") eqn:Hb; intros Hs;
    apply andb_true_iff in Hs; destruct Hs as [Hhead Hs].
  - rewrite (blank_is_space c Hb). apply negb_true_iff in Hhead. subst b.
    apply Ascii.eqb_eq in Hb. subst c. now rewrite (IH true Hs).
  - apply negb_true_iff in Hhead. rewrite Hhead. now rewrite (IH false Hs).
Qed.

Lemma collapse_chars (b : bool) (l : list ascii) :
  forallb (fun c => Text.is_word c || Text.is_space c) l = true ->
  forallb (fun c => Text.is_word c || Ascii.eqb c " ")
          (Regex.collapse_spaces b l) = true.
Proof.
  revert b. induction l as [|c r IH]; intros b; simpl; [reflexivity |].
  intros Hall. apply andb_true_iff in Hall. destruct Hall as [Hc Hr].
  destruct (Text.is_space c) eqn:Hs.
  - destruct b; [now apply IH |]. simpl. now apply IH.
  - simpl. rewrite orb_false_r in Hc. rewrite Hc. simpl. now apply IH.
Qed.

Lemma drop_punctuation_chars (l : list ascii) :
  forallb (fun c => Text.is_word c || Text.is_space c)
          (Regex.drop_punctuation l) = true.
Proof.
  unfold Regex.drop_punctuation. apply forallb_forall.
  intros c Hin. now apply filter_In in Hin.
Qed.

Lemma lower_chars (l : list ascii) :
  forallb (fun c => Text.is_word c || Ascii.eqb c " ") l = true ->
  forallb normal_char (map Text.lower_char l) = true.
Proof.
  induction l as [|c r IH]; simpl; [reflexivity |].
  intros Hall. apply andb_true_iff in Hall. destruct Hall as [Hc Hr].
  rewrite (IH Hr), andb_true_r.
  destruct (lower_char_facts c) as (_ & Hblank & Hword & _).
  apply orb_true_iff in Hc. destruct Hc as [Hc | Hc]; [now apply Hword |].
  unfold normal_char. rewrite Hblank, Hc. apply orb_true_r.
Qed.

Lemma lower_single_spaced (b : bool) (l : list ascii) :
  single_spaced b (map Text.lower_char l) = single_spaced b l.
Proof.
  revert b. induction l as [|c r IH]; intros b; simpl; [reflexivity |].
  destruct (lower_char_facts c) as (Hspace & Hblank & _).
  rewrite Hblank, Hspace, !IH. reflexivity.
Qed.

Lemma forallb_middle {A : Type} (P : A -> bool) (p l q : list A) :
  forallb P (p ++ l ++ q) = true -> forallb P l = true.
Proof.
  rewrite !forallb_app. intros Hall.
  apply andb_true_iff in Hall. destruct Hall as [_ Hall].
  now apply andb_true_iff in Hall.
Qed.

(** The result of the normalisation steps is in normal form. *)
Lemma normalize_chars_normal (l : list ascii) :
  forallb normal_char (normalize_chars l) = true
  /\ single_spaced false (normalize_chars l) = true
  /\ Text.lstrip_chars (normalize_chars l) = normalize_chars l
  /\ Text.lstrip_chars (rev (normalize_chars l)) = rev (normalize_chars l).
Proof.
  unfold normalize_chars.
  set (t := map Text.lower_char
              (Regex.collapse_spaces false (Regex.drop_punctuation l))).
  assert (Hchars : forallb normal_char t = true).
  { apply lower_chars, collapse_chars, drop_punctuation_chars. }
  assert (Hspaced : single_spaced false t = true).
  { unfold t. rewrite lower_single_spaced. apply collapse_single_spaced. }
  destruct (strip_chars_middle t) as (p & q & Ht).
  split; [| split].
  - apply (forallb_middle normal_char p _ q). now rewrite <- Ht.
  - apply (single_spaced_middle p _ q false). now rewrite <- Ht.
  - apply strip_chars_stripped.
Qed.

(** A text in normal form is left as it is by every step. *)
Lemma normalize_chars_fixed (l : list ascii) :
  forallb normal_char l = true ->
  single_spaced false l = true ->
  Text.lstrip_chars l = l ->
  Text.lstrip_chars (rev l) = rev l ->
  normalize_chars l = l.
Proof.
  intros Hchars Hspaced Hleft Hright. unfold normalize_chars.
  assert (Hdrop : Regex.drop_punctuation l = l).
  { unfold Regex.drop_punctuation. clear - Hchars.
    induction l as [|c r IH]; simpl in *; [reflexivity |].
    apply andb_true_iff in Hchars. destruct Hchars as [Hc Hr].
    destruct (lower_char_facts c) as (_ & _ & _ & Hn).
    destruct (Hn Hc) as [_ ->]. now rewrite (IH Hr). }
  assert (Hlower : map Text.lower_char l = l).
  { clear - Hchars. induction l as [|c r IH]; simpl in *; [reflexivity |].
    apply andb_true_iff in Hchars. destruct Hchars as [Hc Hr].
    destruct (lower_char_facts c) as (_ & _ & _ & Hn).
    destruct (Hn Hc) as [-> _]. now rewrite (IH Hr). }
  rewrite Hdrop, (collapse_fixed false l Hspaced), Hlower.
  now apply strip_chars_fixed.
Qed.

Lemma normalize_string_chars (s : string) :
  normalize_string s
  = if Text.is_empty s then "" else Text.text (normalize_chars (Text.chars s)).
Proof.
  unfold normalize_string, normalize_chars, strip_chars, Text.strip,
    Text.lower.
  destruct (Text.is_empty s); [reflexivity |].
  now rewrite !chars_text.
Qed.

Lemma text_empty (l : list ascii) : Text.is_empty (Text.text l) = true -> l = [].
Proof. destruct l; [reflexivity | discriminate]. Qed.

(** X10.  On ASCII text [normalize_string] yields a canonical form and is
    idempotent: its result holds only lowercase letters, digits,
    underscores and single blanks, starts and ends with no white space,
    and normalising it again returns it unchanged. *)
Theorem normalize_string_is_canonical (s : string) :
  ascii_text s ->
  normalize_string (normalize_string s) = normalize_string s
  /\ forallb normal_char (Text.chars (normalize_string s)) = true
  /\ single_spaced false (Text.chars (normalize_string s)) = true
  /\ Text.strip (normalize_string s) = normalize_string s.
Proof.
  intros _.
  assert (Hnf : exists l,
            normalize_string s = Text.text l
            /\ forallb normal_char l = true
            /\ single_spaced false l = true
            /\ Text.lstrip_chars l = l
            /\ Text.lstrip_chars (rev l) = rev l).
  { rewrite normalize_string_chars. destruct (Text.is_empty s).
    - exists []. repeat split.
    - eexists. split; [reflexivity |]. apply normalize_chars_normal. }
  destruct Hnf as (l & -> & Hchars & Hspaced & Hleft & Hright).
  rewrite chars_text. repeat split; auto.
  - rewrite normalize_string_chars.
    destruct (Text.is_empty (Text.text l)) eqn:He.
    + now rewrite (text_empty l He).
    + rewrite chars_text. f_equal. now apply normalize_chars_fixed.
  - unfold Text.strip. rewrite chars_text. f_equal.
    now apply (strip_chars_fixed l).
Qed.

Lemma normalize_string_is_canonical_witness :
  normalize_string "  The Weeknd,   feat. DAFT_Punk! " = "the weeknd feat daft_punk"
  /\ normalize_string (normalize_string "  The Weeknd,   feat. DAFT_Punk! ")
     = normalize_string "  The Weeknd,   feat. DAFT_Punk! ".
Proof.
  split; [reflexivity |].
  apply (normalize_string_is_canonical "  The Weeknd,   feat. DAFT_Punk! ").
  reflexivity.
Defined.

(* ------------------------------------------------------------------ *)
(** ** The similarity ratio *)
(* ------------------------------------------------------------------ *)

Lemma next_row_bounded (pop : ascii -> bool) (ai : ascii) (i j0 diag : nat)
    (row : list nat) (b : list ascii) :
  (diag <= i)%nat -> (diag <= j0)%nat ->
  row_bounded i j0 row ->
  row_bounded (S i) j0 (Difflib.next_row pop ai diag row b).
Proof.
  revert j0 diag row. induction b as [|bj b IH]; intros j0 diag row Hdi Hdj Hrow.
  - intros n k Hn. destruct row; simpl in Hn; destruct n; discriminate Hn.
  - destruct row as [|rj row];
      [intros n k Hn; simpl in Hn; destruct n; discriminate Hn |].
    simpl. intros n k. destruct n as [|n]; simpl.
    + intros [= <-]. destruct (Ascii.eqb ai bj && negb (pop bj)); lia.
    + intros Hn.
      assert (Hrj : (rj <= i)%nat /\ (rj <= j0 + 0 + 1)%nat)
        by (apply (Hrow O rj); reflexivity).
      assert (Htail : row_bounded i (S j0) row).
      { intros m q Hm. specialize (Hrow (S m) q Hm). lia. }
      destruct (IH (S j0) rj row ltac:(lia) ltac:(lia) Htail n k Hn). lia.
Qed.

Lemma next_row_length (pop : ascii -> bool) (ai : ascii) (diag : nat)
    (row : list nat) (b : list ascii) :
  length row = length b ->
  length (Difflib.next_row pop ai diag row b) = length b.
Proof.
  revert diag row. induction b as [|bj b IH]; intros diag row Hlen.
  - destruct row; reflexivity.
  - destruct row as [|rj row]; [discriminate |]. simpl.
    rewrite IH; [reflexivity |]. simpl in Hlen. lia.
Qed.

Lemma scan_row_inside (la lb i j0 : nat) (row : list nat)
    (best : nat * nat * nat) :
  (i < la)%nat -> (j0 + length row <= lb)%nat ->
  row_bounded (S i) j0 row ->
  block_inside la lb best ->
  block_inside la lb (Difflib.scan_row i j0 row best).
Proof.
  revert j0 best. induction row as [|k row IH]; intros j0 best Hi Hlen Hrow Hbest.
  - exact Hbest.
  - simpl. destruct best as [[bi bj] bestsize]. apply IH.
    + exact Hi.
    + simpl in Hlen. lia.
    + intros n q Hn. specialize (Hrow (S n) q Hn). lia.
    + assert (Hk : (k <= S i)%nat /\ (k <= j0 + 0 + 1)%nat)
        by (apply (Hrow O k); reflexivity).
      destruct (bestsize <? k)%nat; [| exact Hbest].
      simpl in Hlen |- *. lia.
Qed.

Lemma longest_rows_inside (pop : ascii -> bool) (a b : list ascii)
    (la i : nat) (row : list nat) (best : nat * nat * nat) :
  (i + length a <= la)%nat -> length row = length b ->
  row_bounded i 0 row ->
  block_inside la (length b) best ->
  block_inside la (length b) (Difflib.longest_rows pop a b i row best).
Proof.
  revert i row best. induction a as [|ai a IH]; intros i row best Hi Hlen Hrow Hbest.
  - exact Hbest.
  - simpl in Hi |- *.
    assert (Hrow' : row_bounded (S i) 0 (Difflib.next_row pop ai 0 row b))
      by (apply next_row_bounded; [lia | lia | exact Hrow]).
    assert (Hlen' : length (Difflib.next_row pop ai 0 row b) = length b)
      by now apply next_row_length.
    apply IH; [lia | exact Hlen' | |].
    + intros n k Hn. destruct (Hrow' n k Hn). lia.
    + apply scan_row_inside; [lia | lia | exact Hrow' | exact Hbest].
Qed.

Lemma extend_left_inside (fuel : nat) (a b : list ascii) (la lb : nat)
    (best : nat * nat * nat) :
  block_inside la lb best ->
  block_inside la lb (Difflib.extend_left fuel a b best).
Proof.
  revert best. induction fuel as [|fuel IH]; intros [[i j] k] Hbest; simpl.
  - exact Hbest.
  - destruct ((0 <? i)%nat && (0 <? j)%nat && _) eqn:Hc; [| exact Hbest].
    apply IH. apply andb_true_iff in Hc. destruct Hc as [Hc _].
    apply andb_true_iff in Hc. destruct Hc as [Hi Hj].
    apply Nat.ltb_lt in Hi. apply Nat.ltb_lt in Hj. simpl in Hbest |- *. lia.
Qed.

Lemma extend_right_inside (fuel : nat) (a b : list ascii)
    (best : nat * nat * nat) :
  block_inside (length a) (length b) best ->
  block_inside (length a) (length b) (Difflib.extend_right fuel a b best).
Proof.
  revert best. induction fuel as [|fuel IH]; intros [[i j] k] Hbest; simpl.
  - exact Hbest.
  - destruct ((i + k <? length a)%nat && (j + k <? length b)%nat && _) eqn:Hc;
      [| exact Hbest].
    apply IH. apply andb_true_iff in Hc. destruct Hc as [Hc _].
    apply andb_true_iff in Hc. destruct Hc as [Hi Hj].
    apply Nat.ltb_lt in Hi. apply Nat.ltb_lt in Hj. simpl. lia.
Qed.

(** The longest matching block lies inside both texts. *)
Lemma find_longest_match_inside (pop : ascii -> bool) (a b : list ascii) :
  block_inside (length a) (length b) (Difflib.find_longest_match pop a b).
Proof.
  unfold Difflib.find_longest_match.
  apply extend_right_inside, extend_left_inside, longest_rows_inside.
  - simpl. lia.
  - apply repeat_length.
  - intros n k Hn. apply nth_error_In in Hn. apply repeat_spec in Hn. lia.
  - simpl. lia.
Qed.

(** The matching blocks never count more characters than a text has. *)
Lemma matches_bounded (fuel : nat) (pop : ascii -> bool) (a b : list ascii) :
  (Difflib.matches fuel pop a b <= length a)%nat
  /\ (Difflib.matches fuel pop a b <= length b)%nat.
Proof.
  revert a b. induction fuel as [|fuel IH]; intros a b; simpl; [lia |].
  pose proof (find_longest_match_inside pop a b) as Hin.
  destruct (Difflib.find_longest_match pop a b) as [[i j] k].
  simpl in Hin. destruct k as [|k]; [lia |].
  pose proof (IH (firstn i a) (firstn j b)) as Hleft.
  pose proof (IH (skipn (i + S k) a) (skipn (j + S k) b)) as Hright.
  rewrite !length_firstn in Hleft. rewrite !length_skipn in Hright.
  destruct ((0 <? i)%nat && (0 <? j)%nat);
    destruct ((i + S k <? length a)%nat && (j + S k <? length b)%nat); lia.
Qed.

(** X11.  The similarity ratio is a score between 0 and 1: for all texts,
    [get_similarity_ratio] returns a number in the closed unit interval,
    and 0 when one of them normalises to the empty string. *)
Theorem similarity_ratio_in_unit_interval (str1 str2 : string) :
  (0 <= get_similarity_ratio str1 str2)%Q
  /\ (get_similarity_ratio str1 str2 <= 1)%Q
  /\ (normalize_string str1 = "" \/ normalize_string str2 = "" ->
      get_similarity_ratio str1 str2 = 0%Q).
Proof.
  unfold get_similarity_ratio.
  destruct (Text.is_empty (normalize_string str1)
            || Text.is_empty (normalize_string str2)) eqn:He.
  - repeat split; try discriminate.
  - assert (Hratio : forall x y,
              (0 <= Difflib.ratio x y)%Q /\ (Difflib.ratio x y <= 1)%Q).
    { intros x y. unfold Difflib.ratio.
      destruct (length (Text.chars x) + length (Text.chars y))%nat
        as [|total] eqn:Htotal.
      - split; discriminate.
      - destruct (matches_bounded (S (length (Text.chars x)))
                    (Difflib.popular (Text.chars y))
                    (Text.chars x) (Text.chars y)) as [Ha Hb].
        unfold Qle. cbn [Qnum Qden].
        assert (Hden : Zpos (Pos.of_nat (S total)) = Z.of_nat (S total)).
        { rewrite <- positive_nat_Z. now rewrite Nat2Pos.id. }
        rewrite Hden. split; lia. }
    destruct (Hratio (normalize_string str1) (normalize_string str2))
      as [Hlo Hhi].
    repeat split; auto.
    intros [Hempty | Hempty]; rewrite Hempty in He;
      [| rewrite orb_true_r in He]; discriminate He.
Qed.

(* ------------------------------------------------------------------ *)
(** ** The cache: hits, broken entries, interference *)
(* ------------------------------------------------------------------ *)

Lemma not_later_iff (now q : Q) :
  @Ok bool (negb (Qle_bool now q)) = Ok false <-> (now <= q)%Q.
Proof.
  rewrite <- Qle_bool_iff. destruct (Qle_bool now q); cbn [negb];
    split; intros Hq; try reflexivity; discriminate Hq.
Qed.

(** The comparison [time() > expiry] is made and false exactly for an
    expiry that has not passed. *)
Lemma later_than_fresh (now : Q) (v : value) :
  later_than now v = Ok false <-> not_passed now v.
Proof.
  destruct v as [|b|z|q|[]|s|l|items]; cbn [later_than not_passed];
    try apply not_later_iff;
    try (split; [intros Hq; discriminate Hq | intros []]);
    split; auto.
Qed.

(** What [read_entry] yields on a fresh entry, and only there. *)
Lemma read_entry_fresh (now : Q) (f : file) (result : value) :
  read_entry now f = Ok (Some result) <-> fresh_entry now f result.
Proof.
  split.
  - destruct f as [|[| | | | | | |data]]; try discriminate. unfold read_entry.
    destruct (later_than now (get_default data "expiry" (VInt 0)))
      as [[|]|e] eqn:Hlater; cbn [bind]; try discriminate.
    intros [= <-]. exists data. split; [reflexivity |].
    split; [now apply later_than_fresh | reflexivity].
  - intros (data & -> & Hfresh & <-). unfold read_entry.
    apply later_than_fresh in Hfresh. now rewrite Hfresh.
Qed.

Lemma load_without_file (cfg : config) (now : Q) (d : disk) (key : string) :
  load_from_cache cfg now (without_file d (_get_cache_path cfg key)) key
  = (VNone, without_file d (_get_cache_path cfg key)).
Proof.
  unfold load_from_cache, without_file. cbn [files].
  now rewrite lookup_delete_eq.
Qed.

(** X12.  A cache hit is a fresh entry: [load_from_cache] returns the
    stored result of a file that holds a fresh entry (a JSON object whose
    expiry has not passed: a number that the clock has not gone beyond,
    positive infinity, or [nan], with which the comparison [time() > expiry]
    is false) and leaves the disk alone; and whenever it returns something
    other than [None], the file of the key holds a fresh entry for what is
    returned and the disk is as before. *)
Theorem cache_hit_is_a_fresh_entry (cfg : config) (now : Q) (d : disk)
    (key : string) :
  (forall f result,
     files d !! _get_cache_path cfg key = Some f ->
     fresh_entry now f result ->
     load_from_cache cfg now d key = (result, d))
  /\ (forall result d',
        load_from_cache cfg now d key = (result, d') ->
        result <> VNone ->
        d' = d
        /\ exists f,
             files d !! _get_cache_path cfg key = Some f
             /\ fresh_entry now f result).
Proof.
  split.
  - intros f result Hfile Hfresh. unfold load_from_cache. rewrite Hfile.
    apply read_entry_fresh in Hfresh. now rewrite Hfresh.
  - intros result d' Hload Hsome. unfold load_from_cache in Hload.
    destruct (files d !! _get_cache_path cfg key) as [f|] eqn:Hfile.
    + destruct (read_entry now f) as [[stored|]|e] eqn:Hread;
        injection Hload as <- <-; try congruence.
      split; [reflexivity |]. exists f. split; [reflexivity |].
      now apply read_entry_fresh.
    + injection Hload as <- <-. congruence.
Qed.

(** X13.  A file that does not hold a fresh entry (unreadable text, JSON
    that is no object, an expiry that the clock cannot be compared with,
    such as a text or [null], or one that has passed, negative infinity
    included) is never served: the load returns [None]; where the file can
    be removed it is removed, and a later load finds no file and changes
    nothing; where it cannot, the disk stays as it was.  An expiry [nan]
    never passes, so that such an entry is fresh and stays. *)
Theorem broken_entry_is_discarded (cfg : config) (now now' : Q) (d : disk)
    (key : string) (f : file) :
  files d !! _get_cache_path cfg key = Some f ->
  (forall result, ~ fresh_entry now f result) ->
  let path := _get_cache_path cfg key in
  (removable d path = true ->
   load_from_cache cfg now d key = (VNone, without_file d path)
   /\ files (without_file d path) !! path = None
   /\ load_from_cache cfg now' (without_file d path) key
      = (VNone, without_file d path))
  /\ (removable d path = false ->
      load_from_cache cfg now d key = (VNone, d)).
Proof.
  intros Hfile Hbroken path.
  assert (Hload : load_from_cache cfg now d key
                  = (VNone, remove_quietly d path)).
  { unfold load_from_cache, path. rewrite Hfile.
    destruct (read_entry now f) as [[stored|]|e] eqn:Hread; try reflexivity.
    apply read_entry_fresh in Hread. now destruct (Hbroken stored). }
  split; intros Hrm; rewrite Hload; unfold remove_quietly; rewrite Hrm.
  - repeat split.
    + cbn [without_file files]. apply lookup_delete_eq.
    + apply load_without_file.
  - reflexivity.
Qed.

Lemma broken_entry_is_discarded_witness :
  let d := {| files := {[ _get_cache_path default_config hello_key := Garbage ]};
              writable := fun _ => true; removable := fun _ => true;
              ops := [] |} in
  fst (load_from_cache default_config 10 d hello_key) = VNone
  /\ files (snd (load_from_cache default_config 10 d hello_key))
       !! _get_cache_path default_config hello_key = None.
Proof.
  intros d.
  assert (Hfile : files d !! _get_cache_path default_config hello_key
                  = Some Garbage) by apply lookup_singleton_eq.
  assert (Hbroken : forall result, ~ fresh_entry 10 Garbage result)
    by (intros result (data & Habs & _); discriminate Habs).
  destruct (broken_entry_is_discarded default_config 10 10 d hello_key
              Garbage Hfile Hbroken) as [Hremoved _].
  destruct (Hremoved eq_refl) as (Hload & Hgone & _).
  rewrite Hload. split; [reflexivity | exact Hgone].
Defined.

(** An entry whose expiry is [nan] is served at every time and never
    removed. *)
Example nan_expiry_is_served (now : Q) :
  let d := {| files := {[ _get_cache_path default_config hello_key :=
                            Json (VDict [("expiry", VSpecial NaN);
                                         ("result", hello_response)]) ]};
              writable := fun _ => true; removable := fun _ => true;
              ops := [] |} in
  load_from_cache default_config now d hello_key = (hello_response, d).
Proof.
  intros d. unfold load_from_cache.
  replace (files d !! _get_cache_path default_config hello_key)
    with (Some (Json (VDict [("expiry", VSpecial NaN);
                             ("result", hello_response)])))
    by (symmetry; apply lookup_singleton_eq).
  reflexivity.
Qed.

(** X14.  A load never writes and touches no entry but its own: the files
    under every other path are as before, and the operations carried out
    are none or the single removal of the file of the key. *)
Theorem load_touches_only_its_entry (cfg : config) (now : Q) (d : disk)
    (key : string) :
  let path := _get_cache_path cfg key in
  let d' := snd (load_from_cache cfg now d key) in
  (forall other, other <> path -> files d' !! other = files d !! other)
  /\ (ops d' = ops d \/ ops d' = (ops d ++ [Remove path])%list)
  /\ (forall other, files d' !! other <> None -> files d !! other <> None).
Proof.
  intros path d'.
  assert (Hcases : d' = d \/ d' = without_file d path).
  { unfold d', load_from_cache. fold path.
    destruct (files d !! path) as [f|]; [| now left].
    destruct (read_entry now f) as [[stored|]|e]; cbn [snd];
      try (now left);
      unfold remove_quietly; destruct (removable d path);
      try (now left); now right. }
  destruct Hcases as [-> | ->].
  - repeat split; auto.
  - cbn [without_file files ops]. repeat split.
    + intros other Hother. now apply lookup_delete_ne.
    + now right.
    + intros other Hsome Hnone. apply Hsome.
      destruct (decide (path = other)) as [<- | Hne].
      * apply lookup_delete_eq.
      * rewrite lookup_delete_ne by exact Hne. exact Hnone.
Qed.

(** X15.  The last save wins: after two saves under one key, a load before
    the expiry of the second returns the second result. *)
Theorem last_save_wins (cfg : config) (now1 now2 now' : Q) (d : disk)
    (key : string) (first second : value) :
  writable d (_get_cache_path cfg key) = true ->
  (now' <= now2 + inject_Z (CACHE_TTL cfg))%Q ->
  let stored :=
    save_to_cache cfg now2 (save_to_cache cfg now1 d key first) key second in
  load_from_cache cfg now' stored key = (second, stored).
Proof.
  intros Hw Hfresh stored.
  assert (Hfile : files stored !! _get_cache_path cfg key
                  = Some (Json (VDict [("expiry",
                                        VFloat (now2 + inject_Z (CACHE_TTL cfg)));
                                       ("result", second)]))).
  { unfold stored, save_to_cache. rewrite Hw. cbn [writable]. rewrite Hw.
    cbn [files]. apply lookup_insert_eq. }
  unfold load_from_cache. rewrite Hfile. unfold read_entry.
  cbn [get get_default String.eqb Ascii.eqb Bool.eqb].
  rewrite later_than_float. apply Qle_bool_iff in Hfresh.
  now rewrite Hfresh.
Qed.

Lemma last_save_wins_witness :
  let stored :=
    save_to_cache default_config 20
      (save_to_cache default_config 10 empty_disk hello_key skyfall_response)
      hello_key hello_response in
  load_from_cache default_config 100 stored hello_key
  = (hello_response, stored).
Proof.
  apply (last_save_wins default_config 10 20 100 empty_disk hello_key
           skyfall_response hello_response).
  - reflexivity.
  - unfold Qle. simpl. lia.
Defined.

Lemma append_assoc (a b c : string) : (a ++ b) ++ c = a ++ b ++ c.
Proof.
  induction a as [|x a IH]; [reflexivity |].
  change (String x ((a ++ b) ++ c) = String x (a ++ b ++ c)).
  now rewrite IH.
Qed.

Lemma chars_append (a b : string) :
  Text.chars (a ++ b) = (Text.chars a ++ Text.chars b)%list.
Proof.
  unfold Text.chars. induction a as [|x a IH]; [reflexivity |].
  change (x :: list_ascii_of_string (a ++ b)
          = x :: (list_ascii_of_string a ++ list_ascii_of_string b)%list).
  now rewrite IH.
Qed.

Lemma append_inv_head (p a b : string) : p ++ a = p ++ b -> a = b.
Proof.
  intros Heq. apply chars_inj. apply (f_equal Text.chars) in Heq.
  rewrite !chars_append in Heq. now apply app_inv_head in Heq.
Qed.

Lemma append_inv_tail (a b q : string) : a ++ q = b ++ q -> a = b.
Proof.
  intros Heq. apply chars_inj. apply (f_equal Text.chars) in Heq.
  rewrite !chars_append in Heq. now apply app_inv_tail in Heq.
Qed.

Lemma join_tail (a b : string) :
  match rev (Text.chars a) with
  | [] => b
  | "/"%char :: _ => a ++ b
  | _ => a ++ "/" ++ b
  end = dir_prefix a ++ b.
Proof.
  unfold dir_prefix. destruct (rev (Text.chars a)) as [|x l]; [reflexivity |].
  destruct x as [[] [] [] [] [] [] [] []];
    try reflexivity; now rewrite append_assoc.
Qed.

(** Joining a directory and a name that does not start with a separator
    puts the name under the directory. *)
Lemma path_join_relative (a b : string) (c : ascii) (r : list ascii) :
  Text.chars b = c :: r -> c <> "/"%char ->
  path_join a b = dir_prefix a ++ b.
Proof.
  intros Hb Hc. unfold path_join. rewrite Hb.
  destruct c as [[] [] [] [] [] [] [] []];
    try (exact (join_tail a b)); now destruct Hc.
Qed.

Lemma hex_cache_path (cfg : config) (key : string) :
  forallb is_hex (Text.chars key) = true ->
  _get_cache_path cfg key = dir_prefix (CACHE_DIR cfg) ++ key ++ ".json".
Proof.
  intros Hhex. unfold _get_cache_path.
  destruct key as [|c key].
  - now apply (path_join_relative _ _ "."%char (Text.chars "json")).
  - apply (path_join_relative _ _ c (Text.chars (key ++ ".json"))).
    + reflexivity.
    + intros ->. discriminate Hhex.
Qed.

(** Keys of hexadecimal characters have files of their own. *)
Lemma hex_cache_path_inj (cfg : config) (key1 key2 : string) :
  forallb is_hex (Text.chars key1) = true ->
  forallb is_hex (Text.chars key2) = true ->
  _get_cache_path cfg key1 = _get_cache_path cfg key2 -> key1 = key2.
Proof.
  intros H1 H2. rewrite !hex_cache_path by assumption. intros Heq.
  apply append_inv_head in Heq. now apply append_inv_tail in Heq.
Qed.

(** X16.  Entries of different fingerprints do not interfere: for two
    different keys of hexadecimal characters, as [make_cache_key] returns
    them, a save under one changes neither the file nor the outcome of a
    load of the other, and a load of one, whatever it discards, leaves the
    file of the other as it was. *)
Theorem entries_do_not_interfere (cfg : config) (now now' : Q) (d : disk)
    (key1 key2 : string) (result : value) :
  forallb is_hex (Text.chars key1) = true ->
  forallb is_hex (Text.chars key2) = true ->
  key1 <> key2 ->
  let saved := save_to_cache cfg now d key1 result in
  let loaded := snd (load_from_cache cfg now' d key1) in
  files saved !! _get_cache_path cfg key2 = files d !! _get_cache_path cfg key2
  /\ fst (load_from_cache cfg now' saved key2)
     = fst (load_from_cache cfg now' d key2)
  /\ files loaded !! _get_cache_path cfg key2
     = files d !! _get_cache_path cfg key2.
Proof.
  intros H1 H2 Hne saved loaded.
  assert (Hpath : _get_cache_path cfg key1 <> _get_cache_path cfg key2)
    by (intros Heq; apply Hne; now apply (hex_cache_path_inj cfg)).
  assert (Hsaved : files saved !! _get_cache_path cfg key2
                   = files d !! _get_cache_path cfg key2).
  { unfold saved, save_to_cache.
    destruct (writable d (_get_cache_path cfg key1)); [| reflexivity].
    cbn [files]. now apply lookup_insert_ne. }
  repeat split.
  - exact Hsaved.
  - unfold load_from_cache. rewrite Hsaved.
    destruct (files d !! _get_cache_path cfg key2) as [f|]; [| reflexivity].
    now destruct (read_entry now' f) as [[stored|]|e].
  - unfold loaded, load_from_cache.
    destruct (files d !! _get_cache_path cfg key1) as [f|]; [| reflexivity].
    destruct (read_entry now' f) as [[stored|]|e]; cbn [snd];
      try reflexivity;
      unfold remove_quietly;
      destruct (removable d (_get_cache_path cfg key1));
      try reflexivity; cbn [files]; now apply lookup_delete_ne.
Qed.

Lemma entries_do_not_interfere_witness :
  let saved :=
    save_to_cache default_config 10 empty_disk hello_key hello_response in
  fst (load_from_cache default_config 20
         (save_to_cache default_config 15 saved skyfall_key skyfall_response)
         hello_key)
  = hello_response.
Proof.
  intros saved.
  assert (Hhello : forallb is_hex (Text.chars hello_key) = true)
    by apply hexdigest_shape.
  assert (Hsky : forallb is_hex (Text.chars skyfall_key) = true)
    by apply hexdigest_shape.
  assert (Hne : skyfall_key <> hello_key) by (vm_compute; discriminate).
  destruct (entries_do_not_interfere default_config 15 20 saved
              skyfall_key hello_key skyfall_response Hsky Hhello Hne)
    as (_ & Hload & _).
  rewrite Hload.
  assert (Hround : load_from_cache default_config 20 saved hello_key
                   = (hello_response, saved)).
  { unfold saved, load_from_cache, save_to_cache. cbn [empty_disk writable files].
    rewrite lookup_insert_eq. reflexivity. }
  rewrite Hround. reflexivity.
Defined.

(* ------------------------------------------------------------------ *)
(** ** The mood analysis *)
(* ------------------------------------------------------------------ *)

Lemma Qgt_bool_true (x y : Q) : Qgt_bool x y = true <-> (y < x)%Q.
Proof.
  unfold Qgt_bool. rewrite negb_true_iff. split.
  - intros Hle. apply Qnot_le_lt. intros Habs.
    apply Qle_bool_iff in Habs. congruence.
  - intros Hlt. now apply Qle_bool_false.
Qed.

Lemma Qgt_bool_false (x y : Q) : Qgt_bool x y = false <-> (x <= y)%Q.
Proof.
  unfold Qgt_bool. rewrite negb_false_iff. apply Qle_bool_iff.
Qed.

Lemma Qlt_bool_true (x y : Q) : Qlt_bool x y = true <-> (x < y)%Q.
Proof. apply Qgt_bool_true. Qed.

Lemma Qlt_bool_false (x y : Q) : Qlt_bool x y = false <-> (y <= x)%Q.
Proof. apply Qgt_bool_false. Qed.

Ltac compare_floats :=
  repeat match goal with
  | |- context [Qgt_bool ?x ?y] =>
      let Hc := fresh "Hc" in
      destruct (Qgt_bool x y) eqn:Hc;
      [apply Qgt_bool_true in Hc | apply Qgt_bool_false in Hc]
  | |- context [Qlt_bool ?x ?y] =>
      let Hc := fresh "Hc" in
      destruct (Qlt_bool x y) eqn:Hc;
      [apply Qlt_bool_true in Hc | apply Qlt_bool_false in Hc]
  end.

Lemma long_text_not_empty (text : string) :
  (10 <= Text.len (Text.strip text))%nat -> Text.is_empty text = false.
Proof. destruct text; [vm_compute; lia | reflexivity]. Qed.

Section MoodAnalysis.
Context `{TextBlob}.

(** X17.  For a text of at least ten characters that TextBlob scores,
    the mood of [analyze_sentiment] and its description name the same side
    of the scale, except at the polarity -0.1, where the mood is "Neutral"
    and the description "Mildly Negative"; and a "Neutral" mood always
    comes with the strength "Weak". *)
Theorem mood_label_and_description (lyrics_text : string)
    (polarity subjectivity : Q) :
  (10 <= Text.len (Text.strip lyrics_text))%nat ->
  sentiment lyrics_text = Ok (polarity, subjectivity) ->
  let analysis := analyze_sentiment lyrics_text in
  (~ polarity == - (1 # 10) -> mood_agrees analysis)
  /\ (polarity == - (1 # 10) ->
      get analysis "mood" = VStr "Neutral"
      /\ get analysis "overall_mood" = VStr "Mildly Negative")
  /\ (get analysis "mood" = VStr "Neutral" ->
      get analysis "mood_strength" = VStr "Weak").
Proof.
  intros Hlong Hblob analysis. unfold analysis, analyze_sentiment.
  rewrite (long_text_not_empty _ Hlong).
  apply Nat.ltb_ge in Hlong. rewrite Hlong. cbn [orb]. rewrite Hblob.
  cbn [get get_default String.eqb Ascii.eqb Bool.eqb].
  split; [| split].
  - intros Hne. unfold mood_agrees, generate_mood_description.
    cbn [get get_default String.eqb Ascii.eqb Bool.eqb].
    do 2 eexists. split; [reflexivity |]. split; [reflexivity |].
    compare_floats; try lra; simpl; try tauto.
  - intros Heq. unfold generate_mood_description.
    split; compare_floats; try lra; reflexivity.
  - intros Hmood.
    assert (Habs : (Qabs polarity <= 1 # 10)%Q).
    { apply Qabs_Qle_condition. revert Hmood.
      compare_floats; intros Hmood; try discriminate Hmood. split; lra. }
    clear Hmood. compare_floats; try lra; reflexivity.
Qed.
End MoodAnalysis.

Lemma mood_label_and_description_witness :
  get (@analyze_sentiment sample_blob sample_lyrics) "mood" = VStr "Neutral"
  /\ get (@analyze_sentiment sample_blob sample_lyrics) "overall_mood"
     = VStr "Mildly Negative".
Proof.
  destruct (@mood_label_and_description sample_blob sample_lyrics
              (- (1 # 10)) (1 # 2)) as (_ & Hboundary & _).
  - vm_compute. lia.
  - reflexivity.
  - apply Hboundary. reflexivity.
Defined.

Lemma frequency_bump (counts : list (string * Z)) (word w : string) :
  frequency (bump counts word) w
  = frequency counts w + (if String.eqb word w then 1 else 0).
Proof.
  unfold frequency. induction counts as [|[k n] counts IH]; simpl.
  - destruct (String.eqb word w); reflexivity.
  - destruct (String.eqb k word) eqn:Hk; simpl.
    + apply String.eqb_eq in Hk. subst k.
      destruct (String.eqb word w); simpl; lia.
    + destruct (String.eqb k w) eqn:Hw; simpl.
      * apply String.eqb_eq in Hw. subst k.
        rewrite String.eqb_sym, Hk. lia.
      * exact IH.
Qed.

Lemma bump_keys (counts : list (string * Z)) (word w : string) :
  In w (map fst (bump counts word)) <-> w = word \/ In w (map fst counts).
Proof.
  induction counts as [|[k n] counts IH]; simpl.
  - intuition.
  - destruct (String.eqb k word) eqn:Hk; simpl.
    + apply String.eqb_eq in Hk. subst k. intuition.
    + rewrite IH. intuition.
Qed.

Lemma bump_NoDup (counts : list (string * Z)) (word : string) :
  List.NoDup (map fst counts) -> List.NoDup (map fst (bump counts word)).
Proof.
  induction counts as [|[k n] counts IH]; simpl; intros Hnd.
  - constructor; [intros [] | constructor].
  - apply List.NoDup_cons_iff in Hnd. destruct Hnd as [Hk Hnd].
    destruct (String.eqb k word) eqn:Hkw; simpl.
    + constructor; assumption.
    + constructor; [| now apply IH].
      rewrite bump_keys. intros [-> | Hin]; [| contradiction].
      now rewrite String.eqb_refl in Hkw.
Qed.

Lemma frequency_in (counts : list (string * Z)) (w : string) (f : Z) :
  List.NoDup (map fst counts) -> In (w, f) counts -> frequency counts w = f.
Proof.
  unfold frequency. induction counts as [|[k n] counts IH]; simpl; intros Hnd Hin.
  - destruct Hin.
  - apply List.NoDup_cons_iff in Hnd. destruct Hnd as [Hk Hnd].
    destruct Hin as [[= -> ->] | Hin].
    + now rewrite String.eqb_refl.
    + destruct (String.eqb k w) eqn:Hkw.
      * apply String.eqb_eq in Hkw. subst k. destruct Hk.
        apply in_map_iff. now exists (w, f).
      * now apply IH.
Qed.

Lemma fold_bump_frequency (words : list string) (counts : list (string * Z))
    (w : string) :
  frequency (fold_left bump words counts) w
  = frequency counts w + occurrences w words.
Proof.
  unfold occurrences. revert counts.
  induction words as [|x words IH]; intros counts; simpl.
  - lia.
  - rewrite IH, frequency_bump. rewrite (String.eqb_sym w x).
    destruct (String.eqb x w); simpl length; lia.
Qed.

Lemma fold_bump_keys (words : list string) (counts : list (string * Z))
    (w : string) :
  In w (map fst (fold_left bump words counts))
  <-> In w words \/ In w (map fst counts).
Proof.
  revert counts. induction words as [|x words IH]; intros counts; simpl.
  - intuition.
  - rewrite IH, bump_keys. intuition.
Qed.

Lemma fold_bump_NoDup (words : list string) (counts : list (string * Z)) :
  List.NoDup (map fst counts) ->
  List.NoDup (map fst (fold_left bump words counts)).
Proof.
  revert counts. induction words as [|x words IH]; intros counts Hnd; simpl.
  - exact Hnd.
  - apply IH. now apply bump_NoDup.
Qed.

Section CountedWords.
Context `{TextBlob}.

Lemma count_words_folds (words : list string)
    (positive_words negative_words : list (string * Z))
    (counts : list (string * Z) * list (string * Z)) :
  count_words words positive_words negative_words = Ok counts ->
  fst counts = fold_left bump (List.filter is_positive words) positive_words
  /\ snd counts
     = fold_left bump (List.filter is_negative words) negative_words.
Proof.
  revert positive_words negative_words.
  induction words as [|word words IH]; intros pos neg; simpl.
  - intros [= <-]. split; reflexivity.
  - unfold is_positive, is_negative.
    destruct (sentiment word) as [scores|e]; [| discriminate]. cbn [bind].
    destruct (Qgt_bool (fst scores) (1 # 10)); cbn [negb andb].
    + apply IH.
    + destruct (Qlt_bool (fst scores) (- (1 # 10))); apply IH.
Qed.
End CountedWords.

Lemma insert_by_frequency_perm (item : string * Z) (l : list (string * Z)) :
  Permutation (insert_by_frequency item l) (item :: l).
Proof.
  induction l as [|y l IH]; simpl; [reflexivity |].
  destruct (snd y <? snd item); [reflexivity |].
  rewrite IH. apply perm_swap.
Qed.

Lemma insert_by_frequency_sorted (item : string * Z) (l : list (string * Z)) :
  descending l -> descending (insert_by_frequency item l).
Proof.
  unfold descending. induction l as [|y l IH]; simpl; intros Hs.
  - repeat constructor.
  - apply StronglySorted_inv in Hs. destruct Hs as [Hs Hy].
    destruct (snd y <? snd item) eqn:Hlt.
    + apply Z.ltb_lt in Hlt. constructor.
      * now constructor.
      * constructor; [lia |].
        rewrite List.Forall_forall in Hy |- *. intros x Hx.
        specialize (Hy x Hx). lia.
    + apply Z.ltb_ge in Hlt. constructor; [now apply IH |].
      rewrite List.Forall_forall in Hy |- *. intros x Hx.
      apply (Permutation_in _ (insert_by_frequency_perm item l)) in Hx.
      destruct Hx as [<- | Hx]; [exact Hlt | now apply Hy].
Qed.

Lemma sorted_by_frequency_spec (counts : list (string * Z)) :
  Permutation (sorted_by_frequency counts) counts
  /\ descending (sorted_by_frequency counts).
Proof.
  unfold sorted_by_frequency.
  assert (Hgen : forall acc,
            descending acc ->
            Permutation
              (fold_left (fun sorted item => insert_by_frequency item sorted)
                         counts acc) (acc ++ counts)%list
            /\ descending
                 (fold_left (fun sorted item => insert_by_frequency item sorted)
                            counts acc)).
  { induction counts as [|x counts IH]; intros acc Hacc; simpl.
    - rewrite app_nil_r. split; [reflexivity | exact Hacc].
    - destruct (IH (insert_by_frequency x acc)
                   (insert_by_frequency_sorted x acc Hacc)) as [Hp Hs].
      split; [| exact Hs]. rewrite Hp, insert_by_frequency_perm.
      simpl. apply Permutation_middle. }
  apply (Hgen []). constructor.
Qed.

Lemma in_firstn {A : Type} (n : nat) (l : list A) (x : A) :
  In x (firstn n l) -> In x l.
Proof.
  intros Hin. rewrite <- (firstn_skipn n l). apply in_or_app. now left.
Qed.

Lemma firstn_descending (n : nat) (l : list (string * Z)) :
  descending l -> descending (firstn n l).
Proof.
  unfold descending. revert n. induction l as [|x l IH]; intros n Hs.
  - destruct n; constructor.
  - destruct n as [|n]; [constructor |]. simpl.
    apply StronglySorted_inv in Hs. destruct Hs as [Hs Hx].
    constructor; [now apply IH |].
    rewrite List.Forall_forall in Hx |- *. intros y Hy.
    apply Hx. exact (in_firstn n l y Hy).
Qed.

Lemma firstn_NoDup_keys (n : nat) (l : list (string * Z)) :
  List.NoDup (map fst l) -> List.NoDup (map fst (firstn n l)).
Proof.
  revert n. induction l as [|x l IH]; intros n Hnd.
  - destruct n; constructor.
  - destruct n as [|n]; [constructor |]. simpl in Hnd |- *.
    apply List.NoDup_cons_iff in Hnd. destruct Hnd as [Hx Hnd].
    constructor; [| now apply IH].
    intros Hin. apply Hx. apply in_map_iff in Hin.
    destruct Hin as (y & Hy & Hin). apply in_map_iff. exists y.
    split; [exact Hy | exact (in_firstn n l y Hin)].
Qed.

Lemma slice_to_firstn {A : Type} (items : list A) (top_n : Z) :
  exists n, slice_to items top_n = firstn n items
            /\ (0 <= top_n -> n = Z.to_nat top_n).
Proof.
  unfold slice_to. destruct (top_n <? 0) eqn:Hneg; eexists; split;
    try reflexivity.
  apply Z.ltb_lt in Hneg. lia.
Qed.

(** The top list made of a table of counts. *)
Lemma top_list_spec (counts : list (string * Z)) (top_n : Z) :
  List.NoDup (map fst counts) ->
  let top := slice_to (sorted_by_frequency counts) top_n in
  (0 <= top_n -> Z.of_nat (length top) <= top_n)
  /\ descending top
  /\ List.NoDup (map fst top)
  /\ (forall w f, In (w, f) top -> frequency counts w = f).
Proof.
  intros Hnd top.
  destruct (sorted_by_frequency_spec counts) as [Hperm Hsorted].
  destruct (slice_to_firstn (sorted_by_frequency counts) top_n)
    as (n & Htop & Hn).
  unfold top. rewrite Htop.
  assert (Hnd' : List.NoDup (map fst (sorted_by_frequency counts))).
  { apply (Permutation_NoDup (l := map fst counts)); [| exact Hnd].
    apply Permutation_map. now symmetry. }
  repeat split.
  - intros Hpos. rewrite (Hn Hpos). rewrite length_firstn. lia.
  - now apply firstn_descending.
  - now apply firstn_NoDup_keys.
  - intros w f Hin. apply frequency_in; [exact Hnd |].
    apply (Permutation_in _ Hperm). exact (in_firstn _ _ _ Hin).
Qed.

Lemma occurrences_filter (keep : string -> bool) (w : string)
    (words : list string) :
  keep w = true ->
  occurrences w (List.filter keep words) = occurrences w words.
Proof.
  intros Hkeep. unfold occurrences. f_equal. f_equal.
  induction words as [|x words IH]; simpl; [reflexivity |].
  destruct (String.eqb w x) eqn:Hwx.
  - apply String.eqb_eq in Hwx. subst x. rewrite Hkeep. simpl.
    rewrite String.eqb_refl. now rewrite IH.
  - destruct (keep x); simpl; [rewrite Hwx |]; exact IH.
Qed.

Lemma occurrences_in (w : string) (words : list string) :
  In w words -> 1 <= occurrences w words.
Proof.
  unfold occurrences. induction words as [|x words IH]; simpl; [tauto |].
  intros [-> | Hin].
  - rewrite String.eqb_refl. simpl length. lia.
  - destruct (String.eqb w x); simpl length; [lia | now apply IH].
Qed.

(** The entries of a top list cut from the counts of the words that
    [keep] selects. *)
Lemma top_list_counts (keep : string -> bool) (words : list string)
    (top_n : Z) (w : string) (f : Z) :
  In (w, f)
     (slice_to (sorted_by_frequency
                  (fold_left bump (List.filter keep words) [])) top_n) ->
  keep w = true /\ f = occurrences w words /\ 1 <= f.
Proof.
  intros Hin.
  assert (Hnd : List.NoDup
                  (map fst (fold_left bump (List.filter keep words) [])))
    by (apply fold_bump_NoDup; constructor).
  destruct (top_list_spec _ top_n Hnd) as (_ & _ & _ & Hfreq).
  pose proof (Hfreq w f Hin) as Hf.
  rewrite fold_bump_frequency in Hf. cbn [frequency find] in Hf.
  assert (Hkey : In w (List.filter keep words)).
  { destruct (slice_to_firstn
                (sorted_by_frequency
                   (fold_left bump (List.filter keep words) [])) top_n)
      as (n & Htop & _).
    rewrite Htop in Hin. apply in_firstn in Hin.
    apply (Permutation_in _ (proj1 (sorted_by_frequency_spec _))) in Hin.
    apply (in_map fst) in Hin. apply fold_bump_keys in Hin.
    destruct Hin as [Hin | []]. exact Hin. }
  apply filter_In in Hkey. destruct Hkey as [Hw Hkeep].
  rewrite (occurrences_filter keep w words Hkeep) in Hf.
  repeat split; [exact Hkeep | lia |].
  pose proof (occurrences_in w words Hw). lia.
Qed.

Section WordFrequency.
Context `{TextBlob}.

Lemma top_list_of_nil (keep : string -> bool) (lyrics_text : string)
    (top_n : Z) :
  top_list_of keep lyrics_text top_n [].
Proof.
  unfold top_list_of, descending. split; [simpl; lia |].
  split; [constructor |]. split; [constructor |].
  intros tagged w f _ [].
Qed.

Lemma top_list_of_counts (keep : string -> bool) (lyrics_text : string)
    (top_n : Z) (tagged : list (string * string)) :
  tags lyrics_text = Ok tagged ->
  top_list_of keep lyrics_text top_n
    (slice_to (sorted_by_frequency
                 (fold_left bump
                            (List.filter keep (selected_words tagged)) []))
              top_n).
Proof.
  intros Htags.
  assert (Hnd : List.NoDup
                  (map fst
                       (fold_left bump
                          (List.filter keep (selected_words tagged)) [])))
    by (apply fold_bump_NoDup; constructor).
  destruct (top_list_spec _ top_n Hnd) as (Hlen & Hsorted & Hkeys & _).
  unfold top_list_of. split; [exact Hlen |]. split; [exact Hsorted |].
  split; [exact Hkeys |].
  intros tagged' w f Htags' Hin. rewrite Htags in Htags'.
  injection Htags' as <-.
  exact (top_list_counts keep (selected_words tagged) top_n w f Hin).
Qed.

(** X18.  [analyze_word_frequency] always returns two lists of word
    items, each a top list: at most [top_n] entries for a [top_n] that is
    not negative, by decreasing frequency, no word twice; a word of the
    positive list has a polarity above 0.1 on its own, one of the negative
    list a polarity below -0.1, and the frequency of each is the number of
    its occurrences among the lowercased nouns and adjectives of the
    text. *)
Theorem top_words_are_counted (lyrics_text : string) (top_n : Z) :
  exists top_positive top_negative,
    analyze_word_frequency lyrics_text top_n
    = [("positive_words", word_items top_positive);
       ("negative_words", word_items top_negative)]
    /\ top_list_of is_positive lyrics_text top_n top_positive
    /\ top_list_of is_negative lyrics_text top_n top_negative.
Proof.
  assert (Hempty : exists top_positive top_negative : list (string * Z),
            [("positive_words", VList []); ("negative_words", VList [])]
            = [("positive_words", word_items top_positive);
               ("negative_words", word_items top_negative)]
            /\ top_list_of is_positive lyrics_text top_n top_positive
            /\ top_list_of is_negative lyrics_text top_n top_negative).
  { exists [], []. split; [reflexivity |]. split; apply top_list_of_nil. }
  unfold analyze_word_frequency.
  destruct (Text.is_empty lyrics_text); [exact Hempty |].
  destruct (top_words lyrics_text top_n) as [[top_positive top_negative]|e]
    eqn:Htop; [| exact Hempty].
  clear Hempty. exists top_positive, top_negative.
  split; [reflexivity |].
  unfold top_words in Htop.
  destruct (tags lyrics_text) as [tagged|e] eqn:Htags; [| discriminate Htop].
  cbn [bind] in Htop. fold (selected_words tagged) in Htop.
  destruct (count_words (selected_words tagged) [] []) as [counts|e]
    eqn:Hcounts; [| discriminate Htop].
  cbn [bind] in Htop. injection Htop as <- <-.
  destruct (count_words_folds _ _ _ _ Hcounts) as [-> ->].
  split; now apply top_list_of_counts.
Qed.
End WordFrequency.

Example top_words_of_the_sample :
  @analyze_word_frequency sample_blob sample_lyrics 5
  = [("positive_words", word_items [("happy", 2); ("love", 1)]);
     ("negative_words", word_items [("dark", 3)])].
Proof. reflexivity. Qed.

Lemma join_items_returns (sep : string) (items : list value) :
  (exists text, join_items sep items = Ok text)
  <-> forallb is_text items = true.
Proof.
  unfold join_items.
  assert (Hmap : (exists texts,
                    map_res (fun item =>
                               match item with
                               | VStr s => Ok s
                               | _ => Raise (Exn TypeError
                                      "sequence item: expected str instance")
                               end) items = Ok texts)
                 <-> forallb is_text items = true).
  { induction items as [|item items IH]; simpl.
    - split; [reflexivity | intros _; eexists; reflexivity].
    - destruct item; simpl;
        try (split; [intros [texts Habs]; discriminate Habs | discriminate]).
      rewrite <- IH. split.
      + intros [texts Htexts].
        destruct (map_res _ items) as [rest|e]; [| discriminate Htexts].
        now exists rest.
      + intros [rest ->]. eexists. reflexivity. }
  rewrite <- Hmap. split.
  - intros [text Htext].
    destruct (map_res _ items) as [texts|e]; [| discriminate Htext].
    now exists texts.
  - intros [texts ->]. eexists. reflexivity.
Qed.

Lemma item_texts_returns (lines : list value) :
  (exists text,
     (try texts <- map_res item_text lines in
      try joined <- join_items " " texts in Ok (VStr joined)) = Ok text)
  <-> forallb readable_line lines = true.
Proof.
  split.
  - intros [text Htext].
    destruct (map_res item_text lines) as [texts|e] eqn:Hmap;
      [| discriminate Htext].
    cbn [bind] in Htext.
    assert (Hjoin : forallb is_text texts = true).
    { apply (join_items_returns " ").
      destruct (join_items " " texts) as [joined|e]; [| discriminate Htext].
      now exists joined. }
    clear Htext. revert texts Hmap Hjoin.
    induction lines as [|item lines IH]; intros texts Hmap Hjoin;
      [reflexivity |].
    simpl in Hmap. destruct item; try discriminate Hmap.
    cbn [item_text bind] in Hmap.
    destruct (map_res item_text lines) as [rest|e]; [| discriminate Hmap].
    cbn [bind] in Hmap. injection Hmap as <-. simpl in Hjoin |- *.
    apply andb_true_iff in Hjoin. destruct Hjoin as [-> Hrest].
    now apply (IH rest).
  - intros Hlines.
    assert (Hmap : exists texts,
              map_res item_text lines = Ok texts
              /\ forallb is_text texts = true).
    { induction lines as [|item lines IH]; [exists []; now split |].
      simpl in Hlines. apply andb_true_iff in Hlines.
      destruct Hlines as [Hitem Hlines].
      destruct (IH Hlines) as (rest & Hrest & Htexts).
      destruct item; try discriminate Hitem.
      cbn [readable_line] in Hitem. cbn [map_res item_text bind].
      rewrite Hrest. cbn [bind].
      eexists. split; [reflexivity |]. cbn [forallb].
      now rewrite Hitem. }
    destruct Hmap as (texts & -> & Htexts). cbn [bind].
    apply (join_items_returns " ") in Htexts. destruct Htexts as [joined ->].
    eexists. reflexivity.
Qed.

Section LyricText.
Context `{Builtins}.

(** X19.  [extract_lyrics_text] returns a text exactly when what the
    result holds under [timed_lyrics] can be read (a dictionary of texts, a
    list of dictionaries whose [text] is text, or neither a dictionary nor
    a list) and raises otherwise; timed lines, when the result has them,
    decide the text alone, whatever the lyric fields hold: with an empty
    list of timed lines the text is empty. *)
Theorem extract_lyrics_text_reads_timed_lines (result : dict) :
  ((exists text, extract_lyrics_text result = Ok text)
   <-> readable_timed_lyrics (get result "timed_lyrics") = true)
  /\ (timed_lines (get result "timed_lyrics") = true ->
      forall other,
        get other "timed_lyrics" = get result "timed_lyrics" ->
        extract_lyrics_text other = extract_lyrics_text result)
  /\ (get result "timed_lyrics" = VList [] ->
      extract_lyrics_text result = Ok "").
Proof.
  unfold extract_lyrics_text. split; [| split].
  - destruct (get result "timed_lyrics") as [| | | | | |lines|lines];
      cbn [readable_timed_lyrics bind];
      try (split; [reflexivity | intros _; eexists; reflexivity]).
    + rewrite <- item_texts_returns. split.
      * intros [text Htext].
        destruct (try texts <- map_res item_text lines in _) as [v|e];
          [now exists v | discriminate Htext].
      * intros [v ->]. eexists. reflexivity.
    + assert (Hvalues : forallb (fun kv : string * value => is_text (snd kv))
                                lines
                        = forallb is_text (map snd lines))
        by (induction lines as [|kv lines IH]; simpl; congruence).
      rewrite Hvalues, <- (join_items_returns " "). split.
      * intros [text Htext].
        destruct (join_items " " (map snd lines)) as [joined|e];
          [now exists joined | discriminate Htext].
      * intros [joined ->]. eexists. reflexivity.
  - intros Htimed other Hsame. rewrite Hsame.
    destruct (get result "timed_lyrics"); try discriminate Htimed;
      reflexivity.
  - intros ->. reflexivity.
Qed.
End LyricText.

(* ------------------------------------------------------------------ *)
(** ** The [/lyrics/] route *)
(* ------------------------------------------------------------------ *)

Lemma get_default_present (d : dict) (key : string) (a b : value) :
  get_default d key a = get_default d key b
  \/ (get_default d key a = a /\ get_default d key b = b).
Proof.
  induction d as [|[k v] d IH]; simpl; [now right |].
  destruct (String.eqb k key); [now left | exact IH].
Qed.

Lemma get_set_item_other (d : dict) (key other : string) (v dflt : value) :
  key <> other ->
  get_default (set_item d key v) other dflt = get_default d other dflt.
Proof.
  intros Hne. induction d as [|[k w] d IH]; simpl.
  - destruct (String.eqb_spec key other); [contradiction | reflexivity].
  - destruct (String.eqb_spec k key) as [-> | Hk]; simpl.
    + destruct (String.eqb_spec key other); [contradiction | reflexivity].
    + destruct (String.eqb k other); [reflexivity | exact IH].
Qed.

Lemma is_success_set_item (result : dict) (key : string) (v : value) :
  key <> "status" ->
  is_success (set_item result key v) = is_success result.
Proof.
  intros Hne. unfold is_success, get.
  now rewrite get_set_item_other.
Qed.

Lemma is_success_truthy (result : dict) :
  is_success result = true -> truthy (VDict result) = true.
Proof. destruct result; [discriminate | reflexivity]. Qed.

Lemma load_cases (cfg : config) (now : Q) (d : disk) (key : string) :
  snd (load_from_cache cfg now d key) = d
  \/ snd (load_from_cache cfg now d key)
     = without_file d (_get_cache_path cfg key).
Proof.
  unfold load_from_cache.
  destruct (files d !! _get_cache_path cfg key) as [f|]; [| now left].
  destruct (read_entry now f) as [[stored|]|e]; cbn [snd];
    try (now left);
    unfold remove_quietly;
    destruct (removable d (_get_cache_path cfg key));
    try (now left); now right.
Qed.

Lemma load_ops (cfg : config) (now : Q) (d : disk) (key : string) :
  let d' := snd (load_from_cache cfg now d key) in
  writable d' = writable d
  /\ (forall p, In (Write p) (ops d') -> In (Write p) (ops d)).
Proof.
  intros d'. unfold d'. destruct (load_cases cfg now d key) as [-> | ->].
  - now split.
  - cbn [without_file writable ops]. split; [reflexivity |].
    intros p Hin. apply in_app_or in Hin.
    destruct Hin as [Hin | [Hin | []]]; [exact Hin | discriminate Hin].
Qed.

Section RouteProperties.
Context `{Builtins} `{TextBlob}.

Lemma lyrics_refused (srv : server) (now later : Q) (stamp : string)
    (d : disk) (args : list (string * string)) :
  acceptable args = false ->
  exists message,
    lyrics srv now later stamp d args
    = {| answer := Ok {| body := route_error message None stamp;
                         status_code := 400 |};
         storage := d; fetched := None |}.
Proof.
  unfold acceptable, lyrics. fold (requested_artist args).
  fold (requested_song args).
  destruct (Text.is_empty (requested_artist args)
            || Text.is_empty (requested_song args)); cbn [negb andb].
  - intros _. eexists. reflexivity.
  - intros Hseq. apply negb_false_iff in Hseq. rewrite Hseq.
    eexists. reflexivity.
Qed.

(** Steps 2 to 5 for the request [args]. *)
Lemma lyrics_accepted (srv : server) (now later : Q) (stamp : string)
    (d : disk) (args : list (string * string)) :
  acceptable args = true ->
  lyrics srv now later stamp d args
  = let '(cached, d) :=
      load_from_cache (settings srv) now d (request_key args) in
    if truthy cached
    then {| answer := Ok {| body := cached; status_code := 200 |};
            storage := d; fetched := None |}
    else fetch_fresh srv later stamp d (requested_artist args)
           (requested_song args) (wants_timestamps args)
           (args_flag args "pass") (args_get args "sequence")
           (args_flag args "fast") (args_flag args "mood")
           (args_flag args "metadata") (request_key args).
Proof.
  unfold acceptable, lyrics. fold (requested_artist args).
  fold (requested_song args).
  destruct (Text.is_empty (requested_artist args)
            || Text.is_empty (requested_song args)); cbn [negb andb];
    [discriminate |].
  intros Hseq. apply negb_true_iff in Hseq. rewrite Hseq.
  reflexivity.
Qed.

Lemma finish_caches (srv : server) (later : Q) (d d' : disk)
    (artist song cache_key : string) (analyze_mood include_metadata : bool)
    (result result' : dict) :
  finish srv later d artist song cache_key analyze_mood include_metadata
         result = Ok (result', d') ->
  cache_if_successful (settings srv) later d cache_key result' = Ok d'.
Proof.
  unfold finish.
  destruct (if analyze_mood && is_success result
            then analyze_mood_step result else Ok result) as [result1|e];
    [| discriminate].
  cbn [bind].
  destruct (cache_if_successful _ _ _ _ _) as [d2|e] eqn:Hcache;
    [| discriminate].
  cbn [bind]. intros [= <- <-]. exact Hcache.
Qed.

Lemma cache_if_successful_cases (cfg : config) (later : Q) (d d' : disk)
    (cache_key : string) (result : dict) :
  cache_if_successful cfg later d cache_key result = Ok d' ->
  d' = d
  \/ (d' = save_to_cache cfg later d cache_key (VDict result)
      /\ is_success result = true /\ has_lyric_text result).
Proof.
  unfold cache_if_successful.
  destruct (is_success result) eqn:Hs; [| intros [= <-]; now left].
  destruct (get_default result "data" (VDict [])) as [| | | | | | |data] eqn:Hd;
    try discriminate.
  destruct (truthy _) eqn:Ht; intros [= <-]; [| now left].
  right. repeat split. exists data. split; [| exact Ht].
  destruct (get_default_present result "data" VNone (VDict []))
    as [Heq | [_ Hdefault]].
  - unfold get. now rewrite Heq.
  - rewrite Hdefault in Hd. injection Hd as <-. discriminate Ht.
Qed.

Lemma cache_if_successful_stores (cfg : config) (later : Q) (d : disk)
    (cache_key : string) (result : dict) :
  is_success result = true -> has_lyric_text result ->
  cache_if_successful cfg later d cache_key result
  = Ok (save_to_cache cfg later d cache_key (VDict result)).
Proof.
  intros Hs (data & Hdata & Ht). unfold cache_if_successful. rewrite Hs.
  destruct (get_default_present result "data" VNone (VDict []))
    as [Heq | [Hnone _]].
  - rewrite <- Heq. unfold get in Hdata. rewrite Hdata. now rewrite Ht.
  - unfold get in Hdata. rewrite Hnone in Hdata. discriminate Hdata.
Qed.


Lemma fetch_fresh_started (srv : server) (later : Q) (stamp : string)
    (d : disk) (artist song : string) (timestamps pass_param : bool)
    (sequence : option string) (fast_mode analyze_mood include_metadata : bool)
    (cache_key : string) :
  fetched (fetch_fresh srv later stamp d artist song timestamps pass_param
                       sequence fast_mode analyze_mood include_metadata
                       cache_key)
  = Some (fetch_lyrics_controller (providers srv) artist song timestamps
                                  pass_param sequence fast_mode).
Proof.
  unfold fetch_fresh. destruct (run_async srv _) as [result|e];
    [| reflexivity].
  now destruct (finish _ _ _ _ _ _ _ _ _) as [[result' d']|e].
Qed.

(** A reply of [fetch_fresh] with the status code 200 is the outcome of the
    steps 3 to 5 on the response of the controller. *)
Lemma fetch_fresh_ok (srv : server) (later : Q) (stamp : string)
    (d : disk) (artist song : string) (timestamps pass_param : bool)
    (sequence : option string) (fast_mode analyze_mood include_metadata : bool)
    (cache_key : string) (content : value) :
  let s := fetch_fresh srv later stamp d artist song timestamps pass_param
                       sequence fast_mode analyze_mood include_metadata
                       cache_key in
  answer s = Ok {| body := content; status_code := 200 |} ->
  exists fetched_result result,
    content = VDict result
    /\ finish srv later d artist song cache_key analyze_mood include_metadata
              fetched_result = Ok (result, storage s).
Proof.
  unfold fetch_fresh. destruct (run_async srv _) as [fetched_result|e].
  - destruct (finish _ _ _ _ _ _ _ _ _) as [[result d']|e'] eqn:Hfinish;
      cbn [answer storage]; [| discriminate].
    intros [= <-]. now exists fetched_result, result.
  - cbn [answer]. destruct (exn_cls e); discriminate.
Qed.

(** The disk after [fetch_fresh]: as before, or with the entry of the
    response that is sent. *)
Lemma fetch_fresh_storage (srv : server) (later : Q) (stamp : string)
    (d : disk) (artist song : string) (timestamps pass_param : bool)
    (sequence : option string) (fast_mode analyze_mood include_metadata : bool)
    (cache_key : string) :
  let s := fetch_fresh srv later stamp d artist song timestamps pass_param
                       sequence fast_mode analyze_mood include_metadata
                       cache_key in
  storage s = d
  \/ exists result,
       answer s = Ok {| body := VDict result; status_code := 200 |}
       /\ storage s
          = save_to_cache (settings srv) later d cache_key (VDict result)
       /\ is_success result = true /\ has_lyric_text result.
Proof.
  unfold fetch_fresh. destruct (run_async srv _) as [fetched_result|e];
    [| now left].
  destruct (finish _ _ _ _ _ _ _ _ _) as [[result d']|e'] eqn:Hfinish;
    cbn [answer storage]; [| now left].
  apply finish_caches in Hfinish.
  apply cache_if_successful_cases in Hfinish.
  destruct Hfinish as [-> | (-> & Hs & Ht)]; [now left |].
  right. now exists result.
Qed.

(** X20.  A request without an artist or a song (blank ones included), or
    with the flag [pass] and no sequence, is answered with the status code
    400 before anything else happens: the disk is untouched and the
    controller is not started; every other request is answered with
    another status code. *)
Theorem unacceptable_request_is_refused (srv : server) (now later : Q)
    (stamp : string) (d : disk) (args : list (string * string)) :
  (acceptable args = false ->
   exists message,
     lyrics srv now later stamp d args
     = {| answer := Ok {| body := route_error message None stamp;
                          status_code := 400 |};
          storage := d; fetched := None |})
  /\ (acceptable args = true ->
      ~ replies (lyrics srv now later stamp d args) 400).
Proof.
  split; [apply lyrics_refused |].
  intros Hacc [content Hreply]. rewrite (lyrics_accepted _ _ _ _ _ _ Hacc) in Hreply.
  destruct (load_from_cache _ _ _ _) as [cached d1].
  destruct (truthy cached); [discriminate Hreply |].
  unfold fetch_fresh in Hreply.
  destruct (run_async srv _) as [result|e].
  - destruct (finish _ _ _ _ _ _ _ _ _) as [[result' d']|e'];
      discriminate Hreply.
  - cbn [answer] in Hreply. destruct (exn_cls e); discriminate Hreply.
Qed.

Lemma lyrics_hit (srv : server) (now later : Q)
    (stamp : string) (d : disk) (args : list (string * string))
    (f : file) (cached : value) :
  acceptable args = true ->
  files d !! request_path srv args = Some f ->
  fresh_entry now f cached ->
  truthy cached = true ->
  lyrics srv now later stamp d args
  = {| answer := Ok {| body := cached; status_code := 200 |};
       storage := d; fetched := None |}.
Proof.
  intros Hacc Hfile Hfresh Ht. rewrite (lyrics_accepted _ _ _ _ _ _ Hacc).
  unfold request_path in Hfile. revert Hfile.
  generalize (request_key args). intros key Hfile.
  assert (Hload : load_from_cache (settings srv) now d key = (cached, d)).
  { unfold load_from_cache. rewrite Hfile.
    apply read_entry_fresh in Hfresh. now rewrite Hfresh. }
  rewrite Hload. now rewrite Ht.
Qed.

Lemma same_request_key (args args' : list (string * string)) :
  same_request args args' -> request_key args' = request_key args.
Proof.
  unfold same_request, canonical_request, request_key, make_cache_key,
    key_payload.
  intros [= -> -> -> -> -> -> ->]. reflexivity.
Qed.

(** X22.  Once the route has answered a request from the providers with
    a successful response that holds lyric text, on a disk where the entry
    can be written, every acceptable request with the same cache key (the
    same request, or one that differs in the case or the outer white space
    of artist and song, or in parameters that the key leaves out) is
    answered with that response from the cache until the entry expires,
    without a run of the controller, whatever the providers would return
    by then. *)
Theorem stored_response_is_served_again (srv srv' : server)
    (now later now' later' : Q) (stamp stamp' : string) (d : disk)
    (args args' : list (string * string)) (result : dict) :
  let first := lyrics srv now later stamp d args in
  fetched first <> None ->
  answer first = Ok {| body := VDict result; status_code := 200 |} ->
  is_success result = true ->
  has_lyric_text result ->
  writable d (request_path srv args) = true ->
  settings srv' = settings srv ->
  (now' <= later + inject_Z (CACHE_TTL (settings srv)))%Q ->
  acceptable args' = true ->
  same_request args args' ->
  lyrics srv' now' later' stamp' (storage first) args'
  = {| answer := Ok {| body := VDict result; status_code := 200 |};
       storage := storage first; fetched := None |}.
Proof.
  intros first Hfetched Hanswer Hs Ht Hw Hcfg Hfresh Hacc' Hsame.
  assert (Hacc : acceptable args = true).
  { destruct (acceptable args) eqn:Hacc; [reflexivity |].
    destruct (lyrics_refused srv now later stamp d args Hacc) as [m Hm].
    unfold first in Hfetched. rewrite Hm in Hfetched. now destruct Hfetched. }
  assert (Hstored : storage first
                    = save_to_cache (settings srv) later
                        (snd (load_from_cache (settings srv) now d
                                              (request_key args)))
                        (request_key args) (VDict result)).
  { unfold first in *. rewrite (lyrics_accepted _ _ _ _ _ _ Hacc) in *.
    destruct (load_from_cache _ _ _ _) as [cached d1]. cbn [snd].
    destruct (truthy cached); [now destruct Hfetched |].
    destruct (fetch_fresh_ok _ _ _ _ _ _ _ _ _ _ _ _ _ _ Hanswer)
      as (fetched_result & result' & [= <-] & Hfinish).
    apply finish_caches in Hfinish.
    rewrite (cache_if_successful_stores _ _ _ _ _ Hs Ht) in Hfinish.
    now injection Hfinish as <-. }
  pose proof (load_ops (settings srv) now d (request_key args)) as [Hw1 _].
  set (d1 := snd (load_from_cache (settings srv) now d (request_key args)))
    in *.
  assert (Hw' : writable d1 (request_path srv args) = true)
    by now rewrite Hw1.
  apply (lyrics_hit srv' now' later' stamp'
           (storage first) args' (entry_of srv later result)).
  - exact Hacc'.
  - rewrite Hstored. unfold save_to_cache, request_path in *.
    rewrite Hw'. cbn [files].
    rewrite Hcfg, (same_request_key args args' Hsame).
    apply lookup_insert_eq.
  - exists [("expiry", VFloat (later + inject_Z (CACHE_TTL (settings srv))));
            ("result", VDict result)].
    repeat split; auto.
  - now apply is_success_truthy.
Qed.


(** X21.  When the file of the request's cache key holds a fresh entry
    with a non-empty result, the route answers with this result and the
    status code 200, starts no run of the controller and leaves the disk as
    it is. *)
Theorem cache_hit_answers_without_fetching (srv : server) (now later : Q)
    (stamp : string) (d : disk) (args : list (string * string))
    (f : file) (cached : value) :
  acceptable args = true ->
  files d !! request_path srv args = Some f ->
  fresh_entry now f cached ->
  truthy cached = true ->
  lyrics srv now later stamp d args
  = {| answer := Ok {| body := cached; status_code := 200 |};
       storage := d; fetched := None |}.
Proof. apply lyrics_hit. Qed.

(** X23.  The route writes nothing but the response it sends: a file
    written while a request is handled is the entry of the request's own
    cache key, it holds the body of the reply, and the reply has the status
    code 200, the status "success" and lyric text; the controller was
    run. *)
Theorem route_stores_only_what_it_answers (srv : server) (now later : Q)
    (stamp : string) (d : disk) (args : list (string * string))
    (p : string) :
  let s := lyrics srv now later stamp d args in
  In (Write p) (ops (storage s)) ->
  ~ In (Write p) (ops d) ->
  p = request_path srv args
  /\ fetched s <> None
  /\ exists result,
       answer s = Ok {| body := VDict result; status_code := 200 |}
       /\ is_success result = true
       /\ has_lyric_text result
       /\ files (storage s) !! p = Some (entry_of srv later result).
Proof.
  intros s Hin Hnew. unfold s in *. clear s. unfold request_path.
  destruct (acceptable args) eqn:Hacc.
  - rewrite (lyrics_accepted _ _ _ _ _ _ Hacc) in *.
    pose proof (load_ops (settings srv) now d (request_key args)) as [_ Hold].
    destruct (load_from_cache _ _ _ _) as [cached d1]. cbn [snd] in Hold.
    destruct (truthy cached).
    + cbn [storage] in Hin. destruct Hnew. now apply Hold.
    + rewrite fetch_fresh_started.
      destruct (fetch_fresh_storage srv later stamp d1 (requested_artist args)
                  (requested_song args) (wants_timestamps args)
                  (args_flag args "pass") (args_get args "sequence")
                  (args_flag args "fast") (args_flag args "mood")
                  (args_flag args "metadata") (request_key args))
        as [Hsame | (result & Hanswer & Hstore & Hs & Ht)].
      * rewrite Hsame in Hin. destruct Hnew. now apply Hold.
      * rewrite Hstore in Hin |- *. unfold save_to_cache in Hin |- *.
        destruct (writable d1
                    (_get_cache_path (settings srv) (request_key args)));
          [| destruct Hnew; now apply Hold].
        cbn [ops files] in Hin |- *. apply in_app_or in Hin.
        destruct Hin as [Hin | [[= <-] | []]];
          [destruct Hnew; now apply Hold |].
        split; [reflexivity |]. split; [discriminate |].
        exists result. repeat split; auto. apply lookup_insert_eq.
  - destruct (lyrics_refused srv now later stamp d args Hacc) as [m Hm].
    rewrite Hm in Hin. cbn [storage] in Hin. contradiction.
Qed.


Lemma is_success_status (result : dict) :
  is_success result = true <-> get result "status" = VStr "success".
Proof.
  unfold is_success. split.
  - destruct (get result "status"); try discriminate.
    intros Heq. apply String.eqb_eq in Heq. now subst.
  - intros ->. reflexivity.
Qed.

(** A response of the controller with the status "success" carries a
    dictionary as data. *)
Lemma controller_success_data (w : world) (artist_name song_title : string)
    (timestamps pass_param : bool) (sequence : option string)
    (fast_mode : bool) (resp : dict) :
  response (fetch_lyrics_controller w artist_name song_title timestamps
                                    pass_param sequence fast_mode) = Ok resp ->
  is_success resp = true ->
  exists data, get resp "data" = VDict data.
Proof.
  intros Hresp Hs. apply is_success_status in Hs. revert Hresp Hs.
  unfold fetch_lyrics_controller.
  assert (Hrun : forall parallel ids,
    response (run_sequence w artist_name song_title timestamps parallel ids)
      = Ok resp ->
    get resp "status" = VStr "success" ->
    exists data, get resp "data" = VDict data).
  { intros parallel ids Hr Hs.
    destruct (run_sequence_returns _ _ _ _ _ _ _ Hr Hs)
      as (i & n & f & data & _ & _ & _ & _ & Hdata). eauto. }
  destruct fast_mode; [apply Hrun |].
  destruct (custom_sequence pass_param sequence) as [s|]; [| apply Hrun].
  destruct (parse_sequence s) as [ids|e].
  - destruct (invalid_sequence ids); [| apply Hrun].
    cbn. intros [= <-]. discriminate.
  - cbn. intros [= <-]. discriminate.
Qed.

Lemma run_async_ok (srv : server) (r : run) (result : dict) :
  run_async srv r = Ok result -> response r = Ok result.
Proof.
  unfold run_async. destruct (overdue srv r); [discriminate |].
  destruct (response r) as [result'|e]; [congruence |].
  destruct (exn_cls e); discriminate.
Qed.

(** The steps 3 to 5 fail only in the extraction of the lyric text. *)
Lemma finish_raises (srv : server) (later : Q) (d : disk)
    (artist song cache_key : string) (analyze_mood include_metadata : bool)
    (result data : dict) (e : exn) :
  (is_success result = true -> get result "data" = VDict data) ->
  finish srv later d artist song cache_key analyze_mood include_metadata
         result = Raise e ->
  analyze_mood = true /\ is_success result = true
  /\ extract_lyrics_text data = Raise e.
Proof.
  intros Hdata. unfold finish.
  assert (Hcache : forall result',
            is_success result' = is_success result ->
            get_default result' "data" (VDict [])
            = get_default result "data" (VDict []) ->
            cache_if_successful (settings srv) later d cache_key result'
            <> Raise e).
  { intros result' Hs' Hd'. unfold cache_if_successful. rewrite Hs', Hd'.
    destruct (is_success result) eqn:Hs; [| discriminate].
    specialize (Hdata eq_refl).
    destruct (get_default_present result "data" VNone (VDict []))
      as [Heq | [Hnone _]].
    - rewrite <- Heq. unfold get in Hdata. rewrite Hdata.
      destruct (truthy _); discriminate.
    - unfold get in Hdata. rewrite Hnone in Hdata. discriminate Hdata. }
  assert (Hmeta : forall result',
            is_success result' = is_success result ->
            get_default result' "data" (VDict [])
            = get_default result "data" (VDict []) ->
            (try d0 <- cache_if_successful (settings srv) later d cache_key
                         (if include_metadata && is_success result'
                          then set_item result' "metadata"
                                        (song_metadata srv artist song)
                          else result') in
             Ok (if include_metadata && is_success result'
                 then set_item result' "metadata"
                               (song_metadata srv artist song)
                 else result', d0)) <> Raise e).
  { intros result' Hs' Hd' Habs.
    destruct (cache_if_successful _ _ _ _ _) as [d0|e0] eqn:Hc;
      [discriminate Habs |].
    cbn [bind] in Habs. injection Habs as ->. revert Hc. apply Hcache.
    - destruct (include_metadata && is_success result'); [| exact Hs'].
      rewrite is_success_set_item by discriminate. exact Hs'.
    - destruct (include_metadata && is_success result'); [| exact Hd'].
      rewrite get_set_item_other by discriminate. exact Hd'. }
  destruct (analyze_mood && is_success result) eqn:Hmood.
  - apply andb_true_iff in Hmood. destruct Hmood as [-> Hs].
    specialize (Hdata Hs). unfold analyze_mood_step.
    destruct (get_default_present result "data" VNone (VDict []))
      as [Heq | [Hnone _]];
      [| unfold get in Hdata; rewrite Hnone in Hdata; discriminate Hdata].
    rewrite <- Heq. unfold get in Hdata. rewrite Hdata.
    destruct (extract_lyrics_text data) as [lyrics_text|e0] eqn:Hextract.
    + cbn [bind]. intros Habs. exfalso. revert Habs.
      destruct (negb (Text.is_empty lyrics_text)); cbn [bind];
        apply Hmeta;
        try (rewrite is_success_set_item by discriminate; reflexivity);
        rewrite get_set_item_other by discriminate; reflexivity.
    + cbn [bind]. intros [= ->]. auto.
  - cbn [bind]. intros Habs. exfalso. revert Habs. now apply Hmeta.
Qed.

(** X24.  An exception escapes the view function only in the mood
    analysis: the request asked for it, the controller returned a
    successful response, and [extract_lyrics_text] raised the exception on
    its data; nothing is written to the cache then. *)
Theorem view_raises_only_in_mood_analysis (srv : server) (now later : Q)
    (stamp : string) (d : disk) (args : list (string * string)) (e : exn) :
  let s := lyrics srv now later stamp d args in
  answer s = Raise e ->
  args_flag args "mood" = true
  /\ exists r result data,
       fetched s = Some r
       /\ response r = Ok result
       /\ get result "status" = VStr "success"
       /\ get result "data" = VDict data
       /\ extract_lyrics_text data = Raise e
       /\ forall p, In (Write p) (ops (storage s)) -> In (Write p) (ops d).
Proof.
  intros s Hraise. unfold s in *. clear s.
  destruct (acceptable args) eqn:Hacc.
  - rewrite (lyrics_accepted _ _ _ _ _ _ Hacc) in *.
    pose proof (load_ops (settings srv) now d (request_key args)) as [_ Hold].
    destruct (load_from_cache _ _ _ _) as [cached d1]. cbn [snd] in Hold.
    destruct (truthy cached); [discriminate Hraise |].
    rewrite fetch_fresh_started. unfold fetch_fresh in *.
    destruct (run_async srv _) as [result|e0] eqn:Hrun.
    + apply run_async_ok in Hrun.
      destruct (finish _ _ _ _ _ _ _ _ _) as [[result' d']|e'] eqn:Hfinish;
        [discriminate Hraise |].
      cbn [answer storage] in *. injection Hraise as ->.
      destruct (is_success result) eqn:Hs.
      * destruct (controller_success_data _ _ _ _ _ _ _ _ Hrun Hs)
          as [data Hdata].
        destruct (finish_raises _ _ _ _ _ _ _ _ _ data _
                    (fun _ => Hdata) Hfinish) as (Hmood & _ & Hextract).
        split; [exact Hmood |]. eexists; exists result, data.
        split; [reflexivity |]. split; [exact Hrun |].
        split; [now apply is_success_status |].
        split; [exact Hdata |]. split; [exact Hextract | exact Hold].
      * assert (Hnever : is_success result = true ->
                           get result "data" = VDict [])
          by (intros Habs; rewrite Hs in Habs; discriminate Habs).
        destruct (finish_raises _ _ _ _ _ _ _ _ _ [] _ Hnever Hfinish)
          as (_ & Habs & _). rewrite Hs in Habs. discriminate Habs.
    + cbn [answer] in Hraise. destruct (exn_cls e0); discriminate Hraise.
  - destruct (lyrics_refused srv now later stamp d args Hacc) as [m Hm].
    rewrite Hm in Hraise. discriminate Hraise.
Qed.

End RouteProperties.

Lemma cache_hit_answers_without_fetching_witness :
  let entry :=
    Json (VDict [("expiry", VFloat 310); ("result", hello_response)]) in
  let d :=
    {| files := {[ request_path offline_server hello_args := entry ]};
       writable := fun _ => true; removable := fun _ => true; ops := [] |} in
  @lyrics cpython_str sample_blob offline_server 20 21 "2024-01-01T00:00:20"
          d hello_args
  = {| answer := Ok {| body := hello_response; status_code := 200 |};
       storage := d; fetched := None |}.
Proof.
  intros entry d.
  apply (@cache_hit_answers_without_fetching cpython_str sample_blob
           offline_server 20 21 "2024-01-01T00:00:20" d hello_args entry
           hello_response).
  - reflexivity.
  - apply lookup_singleton_eq.
  - exists [("expiry", VFloat 310); ("result", hello_response)].
    repeat split. cbn. unfold Qle. simpl. lia.
  - reflexivity.
Defined.

Lemma stored_response_is_served_again_witness :
  let first :=
    @lyrics cpython_str sample_blob hello_server 10 11 "2024-01-01T00:00:10"
            empty_disk hello_args in
  @lyrics cpython_str sample_blob offline_server 100 101
          "2024-01-01T00:01:40" (storage first) respelled_args
  = {| answer := Ok {| body := VDict hello_reply; status_code := 200 |};
       storage := storage first; fetched := None |}.
Proof.
  apply (@stored_response_is_served_again cpython_str sample_blob
           hello_server offline_server 10 11 100 101 "2024-01-01T00:00:10"
           "2024-01-01T00:01:40" empty_disk hello_args respelled_args
           hello_reply).
  - vm_compute. discriminate.
  - vm_compute. reflexivity.
  - reflexivity.
  - eexists. split; reflexivity.
  - reflexivity.
  - reflexivity.
  - unfold Qle. simpl. lia.
  - reflexivity.
  - reflexivity.
Defined.

Lemma route_stores_only_what_it_answers_witness :
  let first :=
    @lyrics cpython_str sample_blob hello_server 10 11 "2024-01-01T00:00:10"
            empty_disk hello_args in
  exists result,
    answer first = Ok {| body := VDict result; status_code := 200 |}
    /\ files (storage first) !! request_path hello_server hello_args
       = Some (entry_of hello_server 11 result).
Proof.
  intros first.
  destruct (@route_stores_only_what_it_answers cpython_str sample_blob
              hello_server 10 11 "2024-01-01T00:00:10" empty_disk hello_args
              (request_path hello_server hello_args))
    as (_ & _ & result & Hanswer & _ & _ & Hfile).
  - vm_compute. left. reflexivity.
  - intros [].
  - exists result. split; [exact Hanswer | exact Hfile].
Defined.

Lemma view_raises_only_in_mood_analysis_witness :
  exists data,
    @extract_lyrics_text cpython_str data
    = Raise (Exn AttributeError "object has no attribute 'get'").
Proof.
  destruct (@view_raises_only_in_mood_analysis cpython_str sample_blob
              bare_lines_server 10 11 "2024-01-01T00:00:10" empty_disk
              mood_args (Exn AttributeError "object has no attribute 'get'"))
    as (_ & r & result & data & _ & _ & _ & _ & Hextract & _).
  - vm_compute. reflexivity.
  - exists data. exact Hextract.
Defined.

(* ------------------------------------------------------------------ *)
(** ** The two [/lyrics/] routes *)
(* ------------------------------------------------------------------ *)

Ltac settle_replies :=
  unfold replies, Main.http_exception in *;
  cbn [answer fetched storage exn_cls exn_msg] in *;
  repeat match goal with
  | |- _ /\ _ => split
  | |- _ <-> _ => split
  | |- forall _, _ => intro
  | Hc : ex _ |- _ => destruct Hc
  end;
  solve [reflexivity | congruence | eexists; reflexivity | assumption].

Section TwinRoutes.
Context `{Builtins} `{TextBlob}.

Lemma main_finish_without_mood (srv : server) (later : Q) (d : disk)
    (artist song cache_key : string) (metadata : bool) (result : dict) :
  Main.finish srv later d artist song cache_key false metadata result
  = finish srv later d artist song cache_key false metadata result.
Proof. reflexivity. Qed.

Lemma args_get_or_empty (args : list (string * string)) (key : string) :
  match args_get args key with Some v => v | None => "" end
  = args_get_default args key "".
Proof. reflexivity. Qed.

Lemma cache_step_raises_alike (cfg : config) (later : Q) (d : disk)
    (cache_key : string) (result result' : dict) (e : exn) :
  is_success result' = is_success result ->
  get_default result' "data" (VDict [])
  = get_default result "data" (VDict []) ->
  cache_if_successful cfg later d cache_key result = Raise e ->
  cache_if_successful cfg later d cache_key result' = Raise e.
Proof.
  unfold cache_if_successful. intros -> ->.
  destruct (is_success result); [| discriminate].
  destruct (get_default result "data" (VDict [])); try (intros Hr; exact Hr);
    destruct (truthy _); discriminate.
Qed.

(** The last two steps on a response and on the same response with a mood
    analysis. *)
Lemma finish_tail_raises_alike (srv : server) (later : Q) (d : disk)
    (artist song cache_key : string) (metadata : bool)
    (result result' : dict) (e : exn) :
  is_success result' = is_success result ->
  get_default result' "data" (VDict [])
  = get_default result "data" (VDict []) ->
  finish srv later d artist song cache_key false metadata result = Raise e ->
  finish srv later d artist song cache_key false metadata result' = Raise e.
Proof.
  intros Hs Hd. unfold finish. cbn [andb bind]. rewrite Hs.
  destruct (cache_if_successful _ _ _ _
              (if metadata && is_success result then _ else result))
    as [d1|e1] eqn:Hc; [discriminate |].
  cbn [bind]. intros [= ->].
  erewrite cache_step_raises_alike; [reflexivity | | | exact Hc].
  - destruct (metadata && is_success result); [| exact Hs].
    now rewrite !is_success_set_item by discriminate.
  - destruct (metadata && is_success result); [| exact Hd].
    now rewrite !get_set_item_other by discriminate.
Qed.

Lemma finish_with_mood (srv : server) (later : Q) (d : disk)
    (artist song cache_key : string) (metadata : bool) (result : dict) :
  finish srv later d artist song cache_key true metadata result
  = if is_success result
    then try analysed <- analyze_mood_step result in
         finish srv later d artist song cache_key false metadata analysed
    else finish srv later d artist song cache_key false metadata result.
Proof.
  unfold finish. cbn [andb]. destruct (is_success result); reflexivity.
Qed.

Lemma main_finish_with_mood (srv : server) (later : Q) (d : disk)
    (artist song cache_key : string) (metadata : bool) (result : dict) :
  Main.finish srv later d artist song cache_key true metadata result
  = if is_success result
    then try analysed <- Main.analyze_mood_step result in
         finish srv later d artist song cache_key false metadata analysed
    else finish srv later d artist song cache_key false metadata result.
Proof.
  unfold Main.finish, finish. cbn [andb].
  destruct (is_success result); reflexivity.
Qed.

(** The two routes raise alike in their last three steps. *)
Lemma twin_finish_raises (srv : server) (later : Q) (d : disk)
    (artist song cache_key : string) (mood metadata : bool)
    (result : dict) (e : exn) :
  Main.finish srv later d artist song cache_key mood metadata result = Raise e
  <-> finish srv later d artist song cache_key mood metadata result = Raise e.
Proof.
  destruct mood; [| reflexivity].
  rewrite finish_with_mood, main_finish_with_mood.
  destruct (is_success result); [| reflexivity].
  unfold Main.analyze_mood_step, analyze_mood_step.
  destruct (get_default result "data" (VDict [])); try reflexivity.
  destruct (extract_lyrics_text items) as [lyrics_text|e0]; [| reflexivity].
  cbn [bind]. destruct (negb (Text.is_empty lyrics_text)); [reflexivity |].
  cbn [bind]. split; apply finish_tail_raises_alike.
  - now rewrite is_success_set_item by discriminate.
  - now rewrite get_set_item_other by discriminate.
  - now rewrite is_success_set_item by discriminate.
  - now rewrite get_set_item_other by discriminate.
Qed.

(** X25.  The handler of [src/main.py], called with the parameter values
    that the view function of [src/router.py] reads from its query string,
    and that view function treat the request alike: they start the
    controller in the same cases, refuse the same requests with the status
    code 400 and let the same exceptions escape; where the first answers
    500 so does the second, and where the second answers 504 so does the
    first; and without mood analysis they leave the same disk and send the
    same body with the status code 200.  How the framework of [src/main.py]
    derives these parameters from a query string of its own is not part of
    the statement. *)
Theorem twin_routes_agree (srv : server) (now later : Q) (stamp : string)
    (d : disk) (args : list (string * string))
    (artist song : option string) (timestamps timestamp pass_param : bool)
    (sequence : option string) (fast mood metadata : bool) :
  read_from args artist song timestamps timestamp pass_param sequence fast
            mood metadata ->
  let flask := lyrics srv now later stamp d args in
  let fastapi :=
    Main.lyrics srv now later stamp d artist song timestamps timestamp
                pass_param sequence fast mood metadata in
  fetched fastapi = fetched flask
  /\ (replies fastapi 400 <-> replies flask 400)
  /\ (forall e, answer fastapi = Raise e <-> answer flask = Raise e)
  /\ (replies fastapi 500 -> replies flask 500)
  /\ (replies flask 504 -> replies fastapi 504)
  /\ (mood = false ->
      storage fastapi = storage flask
      /\ forall content,
           answer fastapi = Ok {| body := content; status_code := 200 |}
           <-> answer flask = Ok {| body := content; status_code := 200 |}).
Proof.
  intros (-> & -> & -> & -> & -> & -> & -> & -> & ->) flask fastapi.
  unfold flask, fastapi, Main.lyrics.
  rewrite !args_get_or_empty. clear flask fastapi.
  fold (requested_artist args). fold (requested_song args).
  fold (wants_timestamps args).
  destruct (acceptable args) eqn:Hacc.
  - rewrite (lyrics_accepted _ _ _ _ _ _ Hacc).
    unfold acceptable in Hacc. apply andb_true_iff in Hacc.
    destruct Hacc as [Hnames Hseq].
    apply negb_true_iff in Hnames. apply negb_true_iff in Hseq.
    rewrite Hnames, Hseq. fold (request_key args).
    generalize (request_key args). intros key.
    destruct (load_from_cache (settings srv) now d key) as [cached d1].
    destruct (truthy cached); [settle_replies |].
    unfold fetch_fresh, run_async.
    set (r := fetch_lyrics_controller (providers srv) (requested_artist args)
                (requested_song args) (wants_timestamps args)
                (args_flag args "pass") (args_get args "sequence")
                (args_flag args "fast")).
    destruct (overdue srv r) as [e0|];
      [destruct e0 as [[] msg]; settle_replies |].
    destruct (response r) as [result|e0];
      [| destruct e0 as [[] msg]; settle_replies].
    pose proof (twin_finish_raises srv later d1 (requested_artist args)
                  (requested_song args) key (args_flag args "mood")
                  (args_flag args "metadata") result) as Hraise.
    destruct (args_flag args "mood") eqn:Hmood.
    + destruct (Main.finish _ _ _ _ _ _ _ _ _) as [[rm dm]|em];
        destruct (finish _ _ _ _ _ _ _ _ _) as [[rf df]|ef];
        try (destruct (proj1 (Hraise _) eq_refl); fail);
        try (destruct (proj2 (Hraise _) eq_refl); fail);
        try settle_replies.
      * pose proof (proj2 (Hraise ef) eq_refl) as Hx. discriminate Hx.
      * pose proof (proj1 (Hraise em) eq_refl) as Hx. discriminate Hx.
      * pose proof (proj1 (Hraise em) eq_refl) as Hx. injection Hx as ->.
        settle_replies.
    + rewrite main_finish_without_mood.
      destruct (finish _ _ _ _ _ _ _ _ _) as [[rf df]|ef]; settle_replies.
  - destruct (lyrics_refused srv now later stamp d args Hacc) as [m Hm].
    rewrite Hm. unfold acceptable in Hacc.
    destruct (Text.is_empty (requested_artist args)
              || Text.is_empty (requested_song args));
      cbn [negb andb] in Hacc |- *; [settle_replies |].
    apply negb_false_iff in Hacc. rewrite Hacc. settle_replies.
Qed.
End TwinRoutes.

Lemma twin_routes_agree_witness :
  let flask :=
    @lyrics cpython_str sample_blob hello_server 10 11 "2024-01-01T00:00:10"
            empty_disk hello_args in
  let fastapi :=
    @Main.lyrics cpython_str sample_blob hello_server 10 11
                 "2024-01-01T00:00:10" empty_disk (Some " Adele ")
                 (Some "Hello") true false false None false false false in
  fetched fastapi = fetched flask
  /\ storage fastapi = storage flask
  /\ forall content,
       answer fastapi = Ok {| body := content; status_code := 200 |}
       <-> answer flask = Ok {| body := content; status_code := 200 |}.
Proof.
  intros flask fastapi.
  destruct (@twin_routes_agree cpython_str sample_blob hello_server 10 11
              "2024-01-01T00:00:10" empty_disk hello_args (Some " Adele ")
              (Some "Hello") true false false None false false false)
    as (Hfetched & _ & _ & _ & _ & Hsame).
  - unfold read_from. repeat split.
  - destruct (Hsame eq_refl) as [Hstorage Hanswer].
    split; [exact Hfetched |]. split; [exact Hstorage | exact Hanswer].
Defined.

(* ------------------------------------------------------------------ *)
(** ** Results that name the requested song *)
(* ------------------------------------------------------------------ *)

Lemma common_nil_r (pop : ascii -> bool) (rx : list ascii) :
  common pop rx [] = O.
Proof. now destruct rx. Qed.

Lemma common_le_own (pop : ascii -> bool) (rx ry : list ascii) :
  (common pop rx ry <= common pop rx rx)%nat
  /\ (common pop rx ry <= common pop ry ry)%nat.
Proof.
  revert ry. induction rx as [|x rx IH]; intros [|y ry]; simpl; try lia.
  destruct (Ascii.eqb_spec x y) as [-> | Hne]; simpl; [| lia].
  rewrite Ascii.eqb_refl. simpl.
  destruct (pop y); simpl; [lia |]. destruct (IH ry). lia.
Qed.

Lemma next_row_row_of (pop : ascii -> bool) (ai : ascii)
    (ra rdone rest : list ascii) :
  Difflib.next_row pop ai (common pop ra rdone) (row_of pop ra rdone rest) rest
  = row_of pop (ai :: ra) rdone rest.
Proof.
  revert rdone. induction rest as [|y rest IH]; intros rdone; simpl.
  - reflexivity.
  - rewrite IH. reflexivity.
Qed.

Lemma row_of_start (pop : ascii -> bool) (rdone rest : list ascii) :
  row_of pop [] rdone rest = repeat O (length rest).
Proof.
  revert rdone. induction rest as [|y rest IH]; intros rdone; simpl;
    [reflexivity | now rewrite IH].
Qed.

Lemma rev_firstn_S (b : list ascii) (done rest : list ascii) (y : ascii) :
  b = (done ++ y :: rest)%list ->
  rev (firstn (S (length done)) b) = y :: rev done.
Proof.
  intros ->.
  assert (Hsplit : (done ++ y :: rest = (done ++ [y]) ++ rest)%list)
    by (rewrite <- app_assoc; reflexivity).
  rewrite Hsplit, List.firstn_app.
  assert (Hlen : length (done ++ [y])%list = S (length done))
    by (rewrite length_app; simpl; lia).
  rewrite Hlen, Nat.sub_diag. simpl firstn at 2.
  rewrite app_nil_r, <- Hlen, List.firstn_all, rev_app_distr. reflexivity.
Qed.

(** Scanning the row of the position [i] of a text against itself keeps
    the best block on the diagonal. *)
Lemma scan_row_diagonal (pop : ascii -> bool) (b : list ascii) (i : nat)
    (done rest : list ascii) (p k : nat) :
  b = (done ++ rest)%list ->
  (i < length b)%nat ->
  (forall m, (m <= i)%nat -> (own_run pop b m <= k)%nat) ->
  ((i < length done)%nat -> (own_run pop b (S i) <= k)%nat) ->
  exists p' k',
    Difflib.scan_row i (length done)
      (row_of pop (rev (firstn (S i) b)) (rev done) rest) (p, p, k)
    = (p', p', k')
    /\ (forall m, (m <= S i)%nat -> (own_run pop b m <= k')%nat).
Proof.
  revert done p k. induction rest as [|y rest IH];
    intros done p k Hb Hi Hrows Hrow.
  - simpl. exists p, k. split; [reflexivity |].
    intros m Hm. destruct (Nat.eq_dec m (S i)) as [-> | Hne].
    + apply Hrow. rewrite Hb, app_nil_r in Hi. exact Hi.
    + apply Hrows. lia.
  - simpl.
    assert (Hb' : b = ((done ++ [y]) ++ rest)%list)
      by (rewrite <- app_assoc; exact Hb).
    assert (Hlen' : length (done ++ [y])%list = S (length done))
      by (rewrite length_app; simpl; lia).
    assert (Hrev' : rev (done ++ [y])%list = y :: rev done)
      by (rewrite rev_app_distr; reflexivity).
    assert (Hcol : rev (firstn (S (length done)) b) = y :: rev done)
      by (apply (rev_firstn_S b done rest y Hb)).
    set (v := common pop (rev (firstn (S i) b)) (y :: rev done)).
    assert (Hv : (length done < i -> v <= k)%nat
                 /\ (i < length done -> v <= k)%nat
                 /\ (length done = i -> v = own_run pop b (S i))).
    { split; [| split].
      - intros Hlt. destruct (common_le_own pop (rev (firstn (S i) b))
                                (y :: rev done)) as [_ Hle].
        specialize (Hrows (S (length done)) ltac:(lia)).
        unfold own_run in Hrows. rewrite Hcol in Hrows. unfold v. lia.
      - intros Hlt. destruct (common_le_own pop (rev (firstn (S i) b))
                                (y :: rev done)) as [Hle _].
        fold (own_run pop b (S i)) in Hle. specialize (Hrow Hlt).
        unfold v. lia.
      - intros Heq. unfold v, own_run. rewrite <- Heq, Hcol. reflexivity. }
    destruct Hv as (Hbefore & Hafter & Hon).
    destruct (k <? v)%nat eqn:Hlt.
    + apply Nat.ltb_lt in Hlt.
      assert (Heq : length done = i) by lia.
      rewrite <- Hrev', <- Hlen'.
      replace (i + 1 - v)%nat with (length done + 1 - v)%nat by lia.
      apply (IH (done ++ [y])%list (length done + 1 - v)%nat v Hb' Hi).
      * intros m Hm. specialize (Hrows m Hm). lia.
      * intros _. rewrite (Hon Heq). lia.
    + apply Nat.ltb_ge in Hlt. rewrite <- Hrev', <- Hlen'.
      apply (IH (done ++ [y])%list p k Hb' Hi Hrows).
      rewrite Hlen'. intros Hle.
      destruct (Nat.eq_dec (length done) i) as [Heq | Hne].
      * rewrite <- (Hon Heq). exact Hlt.
      * apply Hrow. lia.
Qed.

Lemma rev_firstn_skipn (b : list ascii) (i : nat) (ai : ascii)
    (rest : list ascii) :
  skipn i b = ai :: rest ->
  rev (firstn (S i) b) = ai :: rev (firstn i b)
  /\ skipn (S i) b = rest /\ (i < length b)%nat.
Proof.
  intros Hskip.
  assert (Hb : b = (firstn i b ++ ai :: rest)%list)
    by (rewrite <- Hskip; symmetry; apply firstn_skipn).
  assert (Hi : (i < length b)%nat).
  { destruct (Nat.lt_ge_cases i (length b)) as [Hlt | Hge]; [exact Hlt |].
    rewrite skipn_all2 in Hskip by exact Hge. discriminate Hskip. }
  assert (Hlen : length (firstn i b) = i) by (rewrite length_firstn; lia).
  split; [| split; [| exact Hi]].
  - pose proof (rev_firstn_S b (firstn i b) rest ai Hb) as Hrev.
    now rewrite Hlen in Hrev.
  - replace (S i) with (1 + i)%nat by lia.
    rewrite <- skipn_skipn, Hskip. reflexivity.
Qed.

(** The rows of a text against itself leave the best block on the
    diagonal. *)
Lemma longest_rows_diagonal (pop : ascii -> bool) (b : list ascii)
    (rest : list ascii) (i p k : nat) :
  skipn i b = rest ->
  (forall m, (m <= i)%nat -> (own_run pop b m <= k)%nat) ->
  exists p' k',
    Difflib.longest_rows pop rest b i
      (row_of pop (rev (firstn i b)) [] b) (p, p, k)
    = (p', p', k').
Proof.
  revert i p k. induction rest as [|ai rest IH]; intros i p k Hskip Hrows.
  - simpl. now exists p, k.
  - simpl. destruct (rev_firstn_skipn b i ai rest Hskip) as (Hrev & Hnext & Hi).
    replace (Difflib.next_row pop ai 0
               (row_of pop (rev (firstn i b)) [] b) b)
      with (row_of pop (rev (firstn (S i) b)) [] b).
    2:{ rewrite Hrev, <- next_row_row_of. now rewrite common_nil_r. }
    destruct (scan_row_diagonal pop b i [] b p k eq_refl Hi Hrows)
      as (p' & k' & Hscan & Hrows').
    { simpl. lia. }
    simpl in Hscan. rewrite Hscan.
    apply (IH (S i) p' k' Hnext Hrows').
Qed.

Lemma extend_left_diagonal (fuel : nat) (a : list ascii) (p k : nat) :
  (p <= fuel)%nat ->
  Difflib.extend_left fuel a a (p, p, k) = (O, O, (k + p)%nat).
Proof.
  revert p k. induction fuel as [|fuel IH]; intros p k Hp.
  - assert (p = O) by lia. subst p. simpl. now rewrite Nat.add_0_r.
  - destruct p as [|p].
    + simpl. now rewrite Nat.add_0_r.
    + cbn [Difflib.extend_left]. replace (0 <? S p)%nat with true
        by (symmetry; apply Nat.ltb_lt; lia).
      cbn [andb]. rewrite Ascii.eqb_refl.
      replace (S p - 1)%nat with p by lia.
      rewrite IH by lia. f_equal. lia.
Qed.

Lemma extend_right_diagonal (fuel : nat) (a : list ascii) (k : nat) :
  (k <= length a)%nat -> (length a - k <= fuel)%nat ->
  Difflib.extend_right fuel a a (O, O, k) = (O, O, length a).
Proof.
  revert k. induction fuel as [|fuel IH]; intros k Hk Hfuel.
  - assert (k = length a) by lia. subst k. reflexivity.
  - cbn [Difflib.extend_right]. cbn [Nat.add].
    destruct (k <? length a)%nat eqn:Hlt.
    + apply Nat.ltb_lt in Hlt. cbn [andb]. rewrite Ascii.eqb_refl.
      replace (k + 1)%nat with (S k) by lia. apply IH; lia.
    + apply Nat.ltb_ge in Hlt. cbn [andb].
      assert (k = length a) by lia. subst k. reflexivity.
Qed.

(** The longest block of a text matched against itself is the text. *)
Lemma find_longest_match_same (pop : ascii -> bool) (a : list ascii) :
  Difflib.find_longest_match pop a a = (O, O, length a).
Proof.
  unfold Difflib.find_longest_match.
  destruct (longest_rows_diagonal pop a a O O O eq_refl) as (p & k & Hrows).
  { intros m Hm. assert (m = O) by lia. subst m. unfold own_run. simpl. lia. }
  simpl firstn in Hrows. simpl rev in Hrows.
  rewrite row_of_start in Hrows.
  pose proof (longest_rows_inside pop a a (length a) O
                (repeat O (length a)) (O, O, O)) as Hin.
  rewrite Hrows in *. simpl in Hin.
  destruct Hin as [Hin _].
  - lia.
  - apply repeat_length.
  - intros n q Hn. apply nth_error_In in Hn. apply repeat_spec in Hn. lia.
  - lia.
  - rewrite extend_left_diagonal by lia.
    apply extend_right_diagonal; lia.
Qed.

Lemma matches_same (fuel : nat) (pop : ascii -> bool) (a : list ascii) :
  Difflib.matches (S fuel) pop a a = length a.
Proof.
  cbn [Difflib.matches]. rewrite find_longest_match_same.
  destruct (length a) as [|n] eqn:Hlen; [reflexivity |].
  cbn [Nat.add]. rewrite !Nat.ltb_irrefl. cbn [andb]. lia.
Qed.

Lemma ratio_same (a : string) : (Difflib.ratio a a == 1)%Q.
Proof.
  unfold Difflib.ratio.
  destruct (length (Text.chars a) + length (Text.chars a))%nat
    as [|total] eqn:Htotal; [reflexivity |].
  rewrite matches_same. unfold Qeq. cbn [Qnum Qden].
  assert (Hden : Zpos (Pos.of_nat (S total)) = Z.of_nat (S total)).
  { rewrite <- positive_nat_Z. now rewrite Nat2Pos.id. }
  rewrite Hden. lia.
Qed.

(** X26.  Two texts with the same normal form, not the empty one, have
    the similarity ratio 1: no spelling of a name scores below a different
    name. *)
Theorem same_text_scores_one (str1 str2 : string) :
  normalize_string str1 = normalize_string str2 ->
  normalize_string str1 <> "" ->
  (get_similarity_ratio str1 str2 == 1)%Q.
Proof.
  intros Hsame Hfull. unfold get_similarity_ratio. rewrite <- Hsame.
  destruct (normalize_string str1) as [|c s] eqn:Hn; [now destruct Hfull |].
  cbn [Text.is_empty orb]. apply ratio_same.
Qed.

Lemma same_text_scores_one_witness :
  (get_similarity_ratio "Adele" "  ADELE! " == 1)%Q.
Proof.
  apply same_text_scores_one.
  - reflexivity.
  - discriminate.
Defined.

Lemma normalize_string_idem (s : string) :
  normalize_string (normalize_string s) = normalize_string s.
Proof.
  rewrite (normalize_string_chars s). destruct (Text.is_empty s);
    [reflexivity |].
  destruct (normalize_chars_normal (Text.chars s))
    as (Hchars & Hspaced & Hleft & Hright).
  rewrite normalize_string_chars.
  destruct (Text.is_empty (Text.text (normalize_chars (Text.chars s))))
    eqn:He.
  - now rewrite (text_empty _ He).
  - rewrite chars_text. f_equal. now apply normalize_chars_fixed.
Qed.

Lemma split_artists_normalized (artist_str req : string) :
  In req (split_artists artist_str) -> normalize_string req = req.
Proof.
  unfold split_artists. destruct (Text.is_empty artist_str); [intros [] |].
  intros Hin. apply in_map_iff in Hin. destruct Hin as (piece & <- & _).
  apply normalize_string_idem.
Qed.

Section Acceptance.
Context `{Builtins}.

(** X27.  A result that names the requested song is accepted: when the
    title extracted from the result is the normal form of the requested
    title, not empty, and one of the requested artist names, not empty,
    is among the artists extracted from the result, [validate_lyrics_match]
    returns a verdict that is valid, at every threshold up to 1. *)
Theorem matching_metadata_is_accepted
    (requested_artist requested_song : string) (result : dict)
    (threshold : Q) (returned_artists : list string) (req : string) :
  extract_artist_song_from_result result
  = Ok (returned_artists, normalize_string requested_song) ->
  normalize_string requested_song <> "" ->
  In req (split_artists requested_artist) ->
  In req returned_artists ->
  req <> "" ->
  (threshold <= 1)%Q ->
  exists verdict,
    validate_lyrics_match requested_artist requested_song result threshold
    = Ok verdict
    /\ get verdict "valid" = VBool true.
Proof.
  intros Hextract Hsong Hreq Hret Hfull Hthreshold.
  assert (Hartists : returned_artists <> [])
    by (intros ->; destruct Hret).
  rewrite (validate_with_metadata requested_artist requested_song result
             threshold returned_artists (normalize_string requested_song)
             Hextract Hartists Hsong).
  eexists. split; [reflexivity |].
  cbn [get get_default String.eqb Ascii.eqb Bool.eqb]. do 2 f_equal.
  apply andb_true_iff. split.
  - pose proof (artist_loop_spec threshold returned_artists
                  (normalize_string requested_song)
                  (split_artists requested_artist)) as Hloop.
    destruct (artist_loop _ _ _ _ _) as [[|] tag]; [reflexivity |].
    rewrite List.Forall_forall in Hloop. destruct (Hloop req Hreq).
    left. exists req. split; [exact Hret |].
    assert (Hone : (get_similarity_ratio req req == 1)%Q).
    { apply same_text_scores_one; [reflexivity |].
      now rewrite (split_artists_normalized _ _ Hreq). }
    rewrite Hone. exact Hthreshold.
  - apply Qge_bool_iff.
    assert (Hone : (get_similarity_ratio (normalize_string requested_song)
                      (normalize_string requested_song) == 1)%Q).
    { apply same_text_scores_one; [reflexivity |].
      now rewrite normalize_string_idem. }
    rewrite Hone. exact Hthreshold.
Qed.
End Acceptance.

Lemma matching_metadata_is_accepted_witness :
  exists verdict,
    validate_lyrics_match "Adele & Sia" "HELLO!" (hello_synced "lrclib")
                          (3 # 4)
    = Ok verdict
    /\ get verdict "valid" = VBool true.
Proof.
  apply (matching_metadata_is_accepted "Adele & Sia" "HELLO!"
           (hello_synced "lrclib") (3 # 4) ["adele"] "adele").
  - reflexivity.
  - discriminate.
  - left. reflexivity.
  - left. reflexivity.
  - discriminate.
  - unfold Qle. simpl. lia.
Defined.

(* ------------------------------------------------------------------ *)
(** ** Clearing the cache *)
(* ------------------------------------------------------------------ *)

Lemma entry_name_path (cfg : config) (fname : string) :
  entry_name fname = true ->
  path_join (CACHE_DIR cfg) fname = dir_prefix (CACHE_DIR cfg) ++ fname.
Proof.
  unfold entry_name. destruct (Text.chars fname) as [|c r] eqn:Hc;
    [discriminate |].
  intros Hne. apply (path_join_relative _ _ c r Hc).
  intros ->. discriminate Hne.
Qed.

Lemma entry_path_inj (cfg : config) (fname fname' : string) :
  entry_name fname = true -> entry_name fname' = true ->
  path_join (CACHE_DIR cfg) fname = path_join (CACHE_DIR cfg) fname' ->
  fname = fname'.
Proof.
  intros H1 H2. rewrite !entry_name_path by assumption.
  apply append_inv_head.
Qed.

Lemma os_remove_spec (cfg : config) (d : disk) (fname : string) :
  os_remove d (path_join (CACHE_DIR cfg) fname)
  = if can_remove cfg d fname
    then Some (without_file d (path_join (CACHE_DIR cfg) fname))
    else None.
Proof.
  unfold os_remove, can_remove.
  destruct (files d !! path_join (CACHE_DIR cfg) fname); [| reflexivity].
  now destruct (removable d _).
Qed.

Lemma can_remove_elsewhere (cfg : config) (d : disk) (fname other : string) :
  entry_name fname = true -> entry_name other = true -> fname <> other ->
  can_remove cfg (without_file d (path_join (CACHE_DIR cfg) fname)) other
  = can_remove cfg d other.
Proof.
  intros H1 H2 Hne. unfold can_remove. cbn [without_file files removable].
  rewrite lookup_delete_ne; [reflexivity |].
  intros Heq. apply Hne. now apply (entry_path_inj cfg).
Qed.

(** What the loop of [clear_cache] reports and leaves, for a listing
    without repetition. *)
Lemma clear_loop_spec (cfg : config) (reason : string -> string)
    (listing : list string) (d : disk) (removed failed : list value) :
  Forall (fun fname => entry_name fname = true) listing ->
  List.NoDup listing ->
  let gone := List.filter (can_remove cfg d) listing in
  let kept := List.filter (fun fname => negb (can_remove cfg d fname)) listing in
  let '(report, d') := clear_loop cfg reason listing d removed failed in
  report = [("removed", VList (removed ++ map VStr gone)%list);
            ("failed", VList (failed ++ map (failure cfg reason) kept)%list)]
  /\ (forall fname, In fname gone ->
        files d' !! path_join (CACHE_DIR cfg) fname = None)
  /\ (forall path,
        (forall fname, In fname gone ->
           path <> path_join (CACHE_DIR cfg) fname) ->
        files d' !! path = files d !! path)
  /\ writable d' = writable d /\ removable d' = removable d.
Proof.
  revert d removed failed.
  induction listing as [|fname rest IH]; intros d removed failed Hnames Hnd.
  - simpl. rewrite !app_nil_r. repeat split; auto. intros fname [].
  - apply List.Forall_cons_iff in Hnames. destruct Hnames as [Hname Hnames].
    apply List.NoDup_cons_iff in Hnd. destruct Hnd as [Hfresh Hnd].
    cbn [clear_loop List.filter]. rewrite os_remove_spec.
    destruct (can_remove cfg d fname) eqn:Hcan; cbn [negb].
    + set (d1 := without_file d (path_join (CACHE_DIR cfg) fname)).
      assert (Hsame : forall other, In other rest ->
                can_remove cfg d1 other = can_remove cfg d other).
      { intros other Hin. apply can_remove_elsewhere; auto.
        - rewrite List.Forall_forall in Hnames. now apply Hnames.
        - intros ->. contradiction. }
      specialize (IH d1 (removed ++ [VStr fname])%list failed Hnames Hnd).
      rewrite (filter_ext_in _ _ _ Hsame) in IH.
      rewrite (filter_ext_in (fun f => negb (can_remove cfg d1 f))
                 (fun f => negb (can_remove cfg d f))) in IH
        by (intros other Hin; now rewrite Hsame).
      destruct (clear_loop cfg reason rest d1 _ failed) as [report d'].
      destruct IH as (Hreport & Hgone & Hrest & Hw & Hr).
      split; [| split; [| split]].
      * rewrite Hreport. cbn [map]. now rewrite <- app_assoc.
      * intros other [<- | Hin]; [| now apply Hgone].
        rewrite Hrest; [apply lookup_delete_eq |].
        intros other Hin. apply filter_In in Hin. destruct Hin as [Hin _].
        intros Heq. apply (entry_path_inj cfg) in Heq; auto.
        -- subst other. contradiction.
        -- rewrite List.Forall_forall in Hnames. now apply Hnames.
      * intros path Hpath. rewrite Hrest.
        -- cbn [d1 without_file files]. apply lookup_delete_ne.
           intros Heq. apply (Hpath fname); [now left | now symmetry].
        -- intros other Hin. apply Hpath. now right.
      * split; [now rewrite Hw | now rewrite Hr].
    + specialize (IH d removed
                    (failed ++ [failure cfg reason fname])%list Hnames Hnd).
      fold (failure cfg reason fname).
      destruct (clear_loop cfg reason rest d removed _) as [report d'].
      destruct IH as (Hreport & Hgone & Hrest & Hw & Hr).
      split; [| split; [| split]]; auto.
      rewrite Hreport. cbn [map]. now rewrite <- app_assoc.
Qed.

(** X28.  [clear_cache], for a listing of the cache directory without
    repetition, reports as removed exactly the listed names whose file it
    can remove, in the order of the listing, and as failed the others with
    the text of their error; the files reported as removed are gone, every
    other file is as before, and a later load of a key whose entry was
    removed finds nothing and changes nothing. *)
Theorem clear_cache_removes_what_it_reports (cfg : config)
    (reason : string -> string) (listing : list string) (d : disk) :
  Forall (fun fname => entry_name fname = true) listing ->
  List.NoDup listing ->
  let cleared := clear_cache cfg reason listing d in
  fst cleared
  = [("removed", VList (map VStr (List.filter (can_remove cfg d) listing)));
     ("failed",
      VList (map (failure cfg reason)
                 (List.filter (fun fname => negb (can_remove cfg d fname))
                              listing)))]
  /\ (forall fname,
        In fname listing -> can_remove cfg d fname = true ->
        files (snd cleared) !! path_join (CACHE_DIR cfg) fname = None)
  /\ (forall path,
        (forall fname,
           In fname listing -> can_remove cfg d fname = true ->
           path <> path_join (CACHE_DIR cfg) fname) ->
        files (snd cleared) !! path = files d !! path)
  /\ (forall key now,
        In (key ++ ".json") listing ->
        can_remove cfg d (key ++ ".json") = true ->
        load_from_cache cfg now (snd cleared) key = (VNone, snd cleared)).
Proof.
  intros Hnames Hnd cleared.
  pose proof (clear_loop_spec cfg reason listing d [] [] Hnames Hnd) as Hspec.
  unfold cleared, clear_cache.
  destruct (clear_loop cfg reason listing d [] []) as [report d'].
  cbn [fst snd]. destruct Hspec as (Hreport & Hgone & Hrest & _).
  assert (Hremoved : forall fname,
            In fname listing -> can_remove cfg d fname = true ->
            files d' !! path_join (CACHE_DIR cfg) fname = None).
  { intros fname Hin Hcan. apply Hgone. apply filter_In. now split. }
  split; [exact Hreport |]. split; [exact Hremoved |]. split.
  - intros path Hpath. apply Hrest. intros fname Hin.
    apply filter_In in Hin. destruct Hin as [Hin Hcan]. now apply Hpath.
  - intros key now Hin Hcan. unfold load_from_cache, _get_cache_path.
    now rewrite (Hremoved _ Hin Hcan).
Qed.

Lemma clear_cache_removes_what_it_reports_witness :
  fst (clear_cache default_config permission_denied
                   ["abc.json"; "notes.txt"] guarded_disk)
  = [("removed", VList [VStr "abc.json"]);
     ("failed",
      VList [VDict [("file", VStr "notes.txt");
                    ("error",
                     VStr "[Errno 13] Permission denied: 'cache_data/notes.txt'")]])].
Proof.
  destruct (clear_cache_removes_what_it_reports default_config
              permission_denied ["abc.json"; "notes.txt"] guarded_disk)
    as (Hreport & _).
  - repeat constructor.
  - repeat constructor; simpl; intuition discriminate.
  - rewrite Hreport. reflexivity.
Defined.
